(** * The streaming demultiplexer of [ChatService.getStreamingAIResponse]

    A shallow embedding of the closure-based parser in the chat service
    (src/chat/chat.service.ts, method [getStreamingAIResponse]): the tag
    scanner [findNextMessageStart], the frame extractor
    [extractMessageContent], the two processors [processToolMessage] and
    [processTolyMessage], the loop [processMessages], the pass
    [processBufferedData] and the ['data'] / ['end'] handlers.

    Text is modelled by [string]; a character stands for one code unit.
    A chunk is the text that the ['data'] handler decodes from its bytes.
    The three captured variables of the closure ([streamedContent],
    [rawBuffer], [processedTools]) are fields of one [session] record,
    together with what the subscriber and the logger have received. *)

From Stdlib Require Import String Ascii List Bool Arith Lia.
From stdpp Require Import gmap strings.
Import ListNotations.
Open Scope string_scope.

(** ** JavaScript values and abrupt completions *)

(** The values that [JSON.parse] produces, plus [undefined], which shows up
    when a property is missing.  A number is identified by the text that
    [Number::toString] gives for it (the only way the program looks at a
    number, apart from testing it against zero). *)
#[warnings="-register-all"]
Inductive jsval : Type :=
| JUndefined
| JNull
| JBool (b : bool)
| JNum (text : string)
| JStr (s : string)
| JArr (items : list jsval)
| JObj (props : list (string * jsval)).

Inductive js_error : Type := SyntaxError | TypeError.

(** A computation either returns normally or throws. *)
Inductive completion (A : Type) : Type :=
| Normal (a : A)
| Throw (e : js_error).
Arguments Normal {A} a.
Arguments Throw {A} e.

Definition cbind {A B : Type} (c : completion A) (k : A -> completion B)
  : completion B :=
  match c with
  | Normal a => k a
  | Throw e => Throw e
  end.

Declare Scope js_scope.
Delimit Scope js_scope with js.
Notation "'let*' x ':=' c 'in' k" := (cbind c (fun x => k))
  (at level 10, x name, c at level 100, k at level 200) : js_scope.
Open Scope js_scope.

(** Own-property lookup in the property list of an object. *)
Fixpoint own_prop (k : string) (props : list (string * jsval)) : option jsval :=
  match props with
  | [] => None
  | (k', v) :: rest => if String.eqb k k' then Some v else own_prop k rest
  end.

(** [v.k]: a [TypeError] on [null] and [undefined]; the own property of an
    object, [undefined] when it has none.  The program reads only the names
    [tool_name], [additional_kwargs], [event], [metadata], [langgraph_node],
    [data], [chunk] and [content]; no prototype defines any of them, so on
    primitives and arrays the result is [undefined]. *)
Definition get_prop (v : jsval) (k : string) : completion jsval :=
  match v with
  | JUndefined | JNull => Throw TypeError
  | JObj props =>
      Normal (match own_prop k props with Some x => x | None => JUndefined end)
  | _ => Normal JUndefined
  end.

(** [v?.k] *)
Definition opt_chain (v : jsval) (k : string) : completion jsval :=
  match v with
  | JUndefined | JNull => Normal JUndefined
  | _ => get_prop v k
  end.

(** [v === 'literal'] *)
Definition strict_eq_str (v : jsval) (lit : string) : bool :=
  match v with
  | JStr s => String.eqb s lit
  | _ => false
  end.

(** ToBoolean *)
Definition truthy (v : jsval) : bool :=
  match v with
  | JUndefined | JNull => false
  | JBool b => b
  | JNum text => negb (String.eqb text "0")
  | JStr s => negb (String.eqb s EmptyString)
  | JArr _ | JObj _ => true
  end.

(** ToString, as applied by a template literal and by [+=] on a string.  An
    array is joined with commas ([null] and [undefined] items print as the
    empty string).  A plain object prints as ["[object Object]"], unless it
    has an own property [toString]: a parsed value is never callable, the
    inherited [valueOf] returns the object itself, and the conversion ends
    in a [TypeError]. *)
Fixpoint to_string (v : jsval) : completion string :=
  match v with
  | JUndefined => Normal "undefined"
  | JNull => Normal "null"
  | JBool true => Normal "true"
  | JBool false => Normal "false"
  | JNum text => Normal text
  | JStr s => Normal s
  | JArr items =>
      (fix join (l : list jsval) : completion string :=
         match l with
         | [] => Normal EmptyString
         | x :: rest =>
             let* sx := match x with
                        | JUndefined | JNull => Normal EmptyString
                        | _ => to_string x
                        end in
             match rest with
             | [] => Normal sx
             | _ => let* sr := join rest in Normal (sx ++ "," ++ sr)
             end
         end) items
  | JObj props =>
      match own_prop "toString" props with
      | Some _ => Throw TypeError
      | None => Normal "[object Object]"
      end
  end.

(** ** String primitives *)

(** [s.indexOf(needle, from)]; [None] stands for [-1]. *)
Definition indexOf (s needle : string) (from : nat) : option nat :=
  String.index from needle s.

Fixpoint string_drop (n : nat) (s : string) : string :=
  match n, s with
  | O, _ => s
  | S n', EmptyString => EmptyString
  | S n', String _ s' => string_drop n' s'
  end.

(** [s.substring(a)] *)
Definition substring_from (s : string) (a : nat) : string := string_drop a s.

(** [s.substring(a, b)]: the arguments are swapped when [a > b], and both
    are clamped to the length. *)
Definition substring_between (s : string) (a b : nat) : string :=
  String.substring (Nat.min a b) (Nat.max a b - Nat.min a b) s.

(** Code units that [String.prototype.trim] strips, among those below 256:
    tab, line feed, vertical tab, form feed, carriage return, space and
    no-break space. *)
Definition is_js_space (c : ascii) : bool :=
  let n := nat_of_ascii c in
  (((9 <=? n) && (n <=? 13)) || (n =? 32) || (n =? 160))%nat.

Fixpoint trim_start (s : string) : string :=
  match s with
  | EmptyString => EmptyString
  | String c s' => if is_js_space c then trim_start s' else s
  end.

Fixpoint trim_end (s : string) : string :=
  match s with
  | EmptyString => EmptyString
  | String c s' =>
      match trim_end s' with
      | EmptyString => if is_js_space c then EmptyString else String c EmptyString
      | t => String c t
      end
  end.

Definition trim (s : string) : string := trim_end (trim_start s).

(** ** Events, log and session state *)

(** What the subscriber receives through [subscriber.next]:
    - [ToolEvent payload], the server-sent line [data: ...] that carries
      [JSON.stringify({type: 'tool', payload})];
    - [ContentDelta text], the line [data: ...] that carries the text of
      [msgContent];
    - [ContentComplete s], the object
      [{type: 'content', payload: null, completeContent: s}]. *)
Inductive event : Type :=
| ToolEvent (payload : jsval)
| ContentDelta (text : string)
| ContentComplete (completeContent : string).

(** What the logger receives: the raw chunk ([debug]), the two parse
    failures at end of stream ([error]) and the complete content ([log]). *)
Inductive log_entry : Type :=
| LogRawChunk (text : string)
| LogToolFailure (e : js_error)
| LogTolyFailure (e : js_error) (content : string)
| LogCompleteContent (text : string).

Record session : Type := mkSession {
  streamedContent : string;
  rawBuffer : string;
  processedTools : gset string;
  emitted : list event;
  logged : list log_entry;
  completed : bool
}.

Definition new_session : session :=
  {| streamedContent := EmptyString; rawBuffer := EmptyString; processedTools := ∅;
     emitted := []; logged := []; completed := false |}.

Definition set_rawBuffer (st : session) (b : string) : session :=
  {| streamedContent := streamedContent st; rawBuffer := b;
     processedTools := processedTools st; emitted := emitted st;
     logged := logged st; completed := completed st |}.

Definition subscriber_next (st : session) (e : event) : session :=
  {| streamedContent := streamedContent st; rawBuffer := rawBuffer st;
     processedTools := processedTools st; emitted := emitted st ++ [e];
     logged := logged st; completed := completed st |}.

Definition subscriber_complete (st : session) : session :=
  {| streamedContent := streamedContent st; rawBuffer := rawBuffer st;
     processedTools := processedTools st; emitted := emitted st;
     logged := logged st; completed := true |}.

Definition logger (st : session) (l : log_entry) : session :=
  {| streamedContent := streamedContent st; rawBuffer := rawBuffer st;
     processedTools := processedTools st; emitted := emitted st;
     logged := logged st ++ [l]; completed := completed st |}.

Definition add_tool (st : session) (key : string) : session :=
  {| streamedContent := streamedContent st; rawBuffer := rawBuffer st;
     processedTools := {[ key ]} ∪ processedTools st; emitted := emitted st;
     logged := logged st; completed := completed st |}.

Definition append_content (st : session) (text : string) : session :=
  {| streamedContent := streamedContent st ++ text; rawBuffer := rawBuffer st;
     processedTools := processedTools st; emitted := emitted st;
     logged := logged st; completed := completed st |}.

(** ** The tag scanner and the frame extractor *)

Definition TOOL : string := "Tool :".
Definition TOLY : string := "Toly :".
Definition MESSAGE_TYPES : list string := [TOOL; TOLY].
Definition IDENTIFIER_LENGTH : nat := 6.

(** [findNextMessageStart]; the result [None] stands for [Infinity], the
    initial value of [nextPos]. *)
Definition findNextMessageStart (rawBuffer : string) (currentPos : nat)
  : option nat :=
  fold_left
    (fun nextPos identifier =>
       match indexOf rawBuffer identifier (currentPos + IDENTIFIER_LENGTH) with
       | Some pos =>
           match nextPos with
           | None => Some pos
           | Some np => if (pos <? np)%nat then Some pos else nextPos
           end
       | None => nextPos
       end)
    MESSAGE_TYPES None.

Definition extractMessageContent (rawBuffer : string) (startPos : nat)
  : string * option nat :=
  let nextMsgStart := findNextMessageStart rawBuffer startPos in
  let content :=
    match nextMsgStart with
    | Some n => substring_between rawBuffer (startPos + IDENTIFIER_LENGTH) n
    | None => substring_from rawBuffer (startPos + IDENTIFIER_LENGTH)
    end in
  (content, nextMsgStart).

(** ** The processors and the drain loop *)

Section Demultiplexer.

(** The two built-ins the parser calls.  [JSON_parse s = None] when
    [JSON.parse(s)] throws its [SyntaxError]; [JSON_stringify] is applied to
    parsed values only. *)
Variable JSON_parse : string -> option jsval.
Variable JSON_stringify : jsval -> string.

Definition js_JSON_parse (s : string) : completion jsval :=
  match JSON_parse s with
  | Some v => Normal v
  | None => Throw SyntaxError
  end.

(** [JSON.stringify(undefined)] is [undefined]. *)
Definition js_JSON_stringify (v : jsval) : jsval :=
  match v with
  | JUndefined => JUndefined
  | _ => JStr (JSON_stringify v)
  end.

(** The template literal that builds [toolKey]. *)
Definition toolKey_of (toolData : jsval) : completion string :=
  let* name := get_prop toolData "tool_name" in
  let* nameText := to_string name in
  let* kwargs := get_prop toolData "additional_kwargs" in
  let* kwargsText := to_string (js_JSON_stringify kwargs) in
  Normal (nameText ++ "-" ++ kwargsText).

(** The [try] block of [processToolMessage]. *)
Definition tool_try (content : string) (st : session) : completion session :=
  let jsonStr := trim content in
  let* toolData := js_JSON_parse jsonStr in
  let* toolKey := toolKey_of toolData in
  if bool_decide (toolKey ∈ processedTools st) then Normal st
  else Normal (subscriber_next (add_tool st toolKey) (ToolEvent toolData)).

Definition processToolMessage (content : string) (isEnd : bool) (st : session)
  : bool * session :=
  match tool_try content st with
  | Normal st' => (true, st')
  | Throw e =>
      if isEnd then (true, logger st (LogToolFailure e))
      else (false, st)
  end.

(** The [try] block of [processTolyMessage]. *)
Definition toly_try (content : string) (st : session) : completion session :=
  let* parsedData := js_JSON_parse content in
  let* ev := get_prop parsedData "event" in
  if strict_eq_str ev "on_chat_model_stream" then
    let* metadata := get_prop parsedData "metadata" in
    let* node := opt_chain metadata "langgraph_node" in
    if strict_eq_str node "Toly" then
      let* data := get_prop parsedData "data" in
      let* chunk := get_prop data "chunk" in
      let* msgContent := opt_chain chunk "content" in
      if truthy msgContent then
        let* text := to_string msgContent in
        Normal (subscriber_next (append_content st text) (ContentDelta text))
      else Normal st
    else Normal st
  else Normal st.

Definition processTolyMessage (content : string) (isEnd : bool) (st : session)
  : bool * session :=
  match toly_try content st with
  | Normal st' => (true, st')
  | Throw e =>
      if isEnd then (true, logger st (LogTolyFailure e content))
      else (false, st)
  end.

Definition processor : Type := string -> bool -> session -> bool * session.

(** The [while (true)] loop of [processMessages]; [None] when the fuel runs
    out before the loop breaks. *)
Fixpoint processMessages_loop (fuel : nat) (identifier : string)
    (process : processor) (isEnd : bool) (st : session) : option session :=
  match fuel with
  | O => None
  | S fuel' =>
      match indexOf (rawBuffer st) identifier 0 with
      | None => Some st
      | Some msgStart =>
          let '(content, nextMsgStart) :=
            extractMessageContent (rawBuffer st) msgStart in
          if match nextMsgStart with None => negb isEnd | Some _ => false end
          then Some st
          else
            let '(processed, st1) := process content isEnd st in
            let rest :=
              match nextMsgStart with
              | Some n => substring_from (rawBuffer st1) n
              | None => EmptyString
              end in
            if processed then
              processMessages_loop fuel' identifier process isEnd
                (set_rawBuffer st1 rest)
            else if negb isEnd then Some st1
            else
              processMessages_loop fuel' identifier process isEnd
                (set_rawBuffer st1 rest)
      end
  end.

(** Every iteration that does not break shortens the buffer, so its length
    plus one is fuel enough (lemma [processMessages_total] below). *)
Definition processMessages (identifier : string) (process : processor)
    (isEnd : bool) (st : session) : option session :=
  processMessages_loop (S (String.length (rawBuffer st)))
    identifier process isEnd st.

Definition processBufferedData (isEnd : bool) (st : session) : option session :=
  st1 ← processMessages TOOL processToolMessage isEnd st;
  processMessages TOLY processTolyMessage isEnd st1.

(** The ['data'] handler, on the text [chunk.toString('utf-8')] of the
    chunk. *)
Definition on_data (text : string) (st : session) : option session :=
  let st1 := logger st (LogRawChunk text) in
  let st2 := set_rawBuffer st1 (rawBuffer st1 ++ text) in
  processBufferedData false st2.

(** The ['end'] handler. *)
Definition on_end (st : session) : option session :=
  st1 ← processBufferedData true st;
  let st2 := logger st1 (LogCompleteContent (streamedContent st1)) in
  let st3 := subscriber_next st2 (ContentComplete (streamedContent st2)) in
  Some (subscriber_complete st3).

Fixpoint feed (chunks : list string) (st : session) : option session :=
  match chunks with
  | [] => Some st
  | text :: rest => st1 ← on_data text st; feed rest st1
  end.

(** One whole session: the chunks in arrival order, then end of stream. *)
Definition run (chunks : list string) : option session :=
  st ← feed chunks new_session; on_end st.

End Demultiplexer.

(** ** A concrete JSON reader and writer

    An executable instance of the two built-ins, used to run the parser on
    concrete streams.  It reads the JSON texts made of objects, arrays,
    strings with the two-character escapes, integers of at most fifteen
    digits, [true], [false] and [null], and answers [None] on anything else
    (fractions, exponents and [\u] escapes included).  Property keys that
    are array indices, which an engine enumerates first, are kept in source
    order. *)
Module MiniJSON.

Definition is_ws (c : ascii) : bool :=
  let n := nat_of_ascii c in
  ((n =? 32) || (n =? 9) || (n =? 10) || (n =? 13))%nat.

Fixpoint skip_ws (s : string) : string :=
  match s with
  | String c s' => if is_ws c then skip_ws s' else s
  | EmptyString => EmptyString
  end.

Definition is_digit (c : ascii) : bool :=
  let n := nat_of_ascii c in ((48 <=? n) && (n <=? 57))%nat.

Definition unescape (c : ascii) : option ascii :=
  match c with
  | "034"%char => Some "034"%char
  | "\"%char => Some "\"%char
  | "/"%char => Some "/"%char
  | "b"%char => Some (ascii_of_nat 8)
  | "f"%char => Some (ascii_of_nat 12)
  | "n"%char => Some (ascii_of_nat 10)
  | "r"%char => Some (ascii_of_nat 13)
  | "t"%char => Some (ascii_of_nat 9)
  | _ => None
  end.

(** The characters of a string literal, after its opening quote. *)
Fixpoint parse_chars (s : string) : option (string * string) :=
  match s with
  | EmptyString => None
  | String c s' =>
      if Ascii.eqb c "034" then Some (EmptyString, s')
      else if Ascii.eqb c "\" then
        match s' with
        | String e s'' =>
            match unescape e, parse_chars s'' with
            | Some ch, Some (body, rest) => Some (String ch body, rest)
            | _, _ => None
            end
        | EmptyString => None
        end
      else if (nat_of_ascii c <? 32)%nat then None
      else
        match parse_chars s' with
        | Some (body, rest) => Some (String c body, rest)
        | None => None
        end
  end.

Fixpoint take_digits (s : string) : string * string :=
  match s with
  | String c s' =>
      if is_digit c then
        let '(ds, rest) := take_digits s' in (String c ds, rest)
      else (EmptyString, s)
  | EmptyString => (EmptyString, EmptyString)
  end.

Definition starts_number_tail (s : string) : bool :=
  match s with
  | String c _ =>
      Ascii.eqb c "." || Ascii.eqb c "e" || Ascii.eqb c "E" || is_digit c
  | EmptyString => false
  end.

(** An integer literal; the value keeps the text [Number::toString] prints. *)
Definition parse_int (s : string) : option (jsval * string) :=
  let '(neg, body) :=
    match s with
    | String "-" s' => (true, s')
    | _ => (false, s)
    end in
  let '(ds, rest) := take_digits body in
  match ds with
  | EmptyString => None
  | String d ds' =>
      if Ascii.eqb d "0" && negb (String.eqb ds' EmptyString) then None
      else if (15 <? String.length ds)%nat then None
      else if starts_number_tail rest then None
      else if String.eqb ds "0" then Some (JNum "0", rest)
      else Some (JNum (if neg then String "-" ds else ds), rest)
  end.

Definition expect (lit : string) (v : jsval) (s : string)
  : option (jsval * string) :=
  if String.prefix lit s then Some (v, string_drop (String.length lit) s)
  else None.

Fixpoint set_prop (k : string) (v : jsval) (props : list (string * jsval))
  : list (string * jsval) :=
  match props with
  | [] => [(k, v)]
  | (k', v') :: rest =>
      if String.eqb k k' then (k', v) :: rest
      else (k', v') :: set_prop k v rest
  end.

Fixpoint parse_value (fuel : nat) (s : string) : option (jsval * string) :=
  match fuel with
  | O => None
  | S fuel' =>
      match skip_ws s with
      | String "{" r =>
          match skip_ws r with
          | String "}" r' => Some (JObj [], r')
          | r1 => parse_members fuel' r1 []
          end
      | String "[" r =>
          match skip_ws r with
          | String "]" r' => Some (JArr [], r')
          | r1 => parse_elements fuel' r1 []
          end
      | String "034" r =>
          match parse_chars r with
          | Some (body, rest) => Some (JStr body, rest)
          | None => None
          end
      | String "t" _ as s1 => expect "true" (JBool true) s1
      | String "f" _ as s1 => expect "false" (JBool false) s1
      | String "n" _ as s1 => expect "null" JNull s1
      | s1 => parse_int s1
      end
  end
with parse_members (fuel : nat) (s : string) (acc : list (string * jsval))
  : option (jsval * string) :=
  match fuel with
  | O => None
  | S fuel' =>
      match s with
      | String "034" r =>
          match parse_chars r with
          | Some (key, r1) =>
              match skip_ws r1 with
              | String ":" r2 =>
                  match parse_value fuel' r2 with
                  | Some (v, r3) =>
                      match skip_ws r3 with
                      | String "," r4 =>
                          parse_members fuel' (skip_ws r4) (set_prop key v acc)
                      | String "}" r4 => Some (JObj (set_prop key v acc), r4)
                      | _ => None
                      end
                  | None => None
                  end
              | _ => None
              end
          | None => None
          end
      | _ => None
      end
  end
with parse_elements (fuel : nat) (s : string) (acc : list jsval)
  : option (jsval * string) :=
  match fuel with
  | O => None
  | S fuel' =>
      match parse_value fuel' s with
      | Some (v, r1) =>
          match skip_ws r1 with
          | String "," r2 => parse_elements fuel' r2 (acc ++ [v])
          | String "]" r2 => Some (JArr (acc ++ [v]), r2)
          | _ => None
          end
      | None => None
      end
  end.

Definition parse (s : string) : option jsval :=
  match parse_value (2 * String.length s + 2) s with
  | Some (v, rest) =>
      match skip_ws rest with
      | EmptyString => Some v
      | _ => None
      end
  | None => None
  end.

Definition hex_digit (n : nat) : ascii :=
  ascii_of_nat (if (n <? 10)%nat then 48 + n else 87 + n).

Definition escape_char (c : ascii) : string :=
  let n := nat_of_ascii c in
  if Ascii.eqb c "034" then String "\" (String "034" EmptyString)
  else if Ascii.eqb c "\" then String "\" (String "\" EmptyString)
  else if (n =? 8)%nat then "\b"
  else if (n =? 12)%nat then "\f"
  else if (n =? 10)%nat then "\n"
  else if (n =? 13)%nat then "\r"
  else if (n =? 9)%nat then "\t"
  else if (n <? 32)%nat then
    "\u00" ++ String (hex_digit (n / 16)) (String (hex_digit (n mod 16)) EmptyString)
  else String c EmptyString.

Fixpoint escape (s : string) : string :=
  match s with
  | EmptyString => EmptyString
  | String c s' => escape_char c ++ escape s'
  end.

Definition quote (s : string) : string :=
  String "034" (escape s ++ String "034" EmptyString).

Fixpoint join (sep : string) (l : list string) : string :=
  match l with
  | [] => EmptyString
  | [x] => x
  | x :: rest => x ++ sep ++ join sep rest
  end.

(** [JSON.stringify] on a defined value.  Inside an array [undefined]
    prints as [null]; a property whose value is [undefined] is left out. *)
Fixpoint stringify (v : jsval) : string :=
  match v with
  | JUndefined | JNull => "null"
  | JBool true => "true"
  | JBool false => "false"
  | JNum text => text
  | JStr s => quote s
  | JArr items =>
      "[" ++ join "," ((fix each (l : list jsval) : list string :=
                          match l with
                          | [] => []
                          | x :: rest => stringify x :: each rest
                          end) items) ++ "]"
  | JObj props =>
      "{" ++ join "," ((fix each (l : list (string * jsval)) : list string :=
                          match l with
                          | [] => []
                          | (_, JUndefined) :: rest => each rest
                          | (k, x) :: rest =>
                              (quote k ++ ":" ++ stringify x) :: each rest
                          end) props) ++ "}"
  end.

End MiniJSON.

(** The parser run with the concrete reader and writer. *)
Definition run_json (chunks : list string) : option session :=
  run MiniJSON.parse MiniJSON.stringify chunks.

(** JSON texts are written below with apostrophes in place of the double
    quotes: [json "{'a':1}"] is the text [{"a":1}]. *)
Fixpoint json (s : string) : string :=
  match s with
  | EmptyString => EmptyString
  | String c s' => String (if Ascii.eqb c "'" then "034"%char else c) (json s')
  end.


(** ** Vocabulary of the statements *)

(** The text deltas of an event sequence, concatenated in emission order. *)
Fixpoint delta_text (evs : list event) : string :=
  match evs with
  | [] => EmptyString
  | ContentDelta text :: rest => text ++ delta_text rest
  | _ :: rest => delta_text rest
  end.

Definition is_tool (e : event) : bool :=
  match e with ToolEvent _ => true | _ => false end.


Definition is_complete (e : event) : bool :=
  match e with ContentComplete _ => true | _ => false end.

(** What one call of [processToolMessage] can do to the session. *)
Inductive tool_effect (JSON_stringify : jsval -> string) (st : session)
  : session -> Prop :=
| tool_unchanged : tool_effect JSON_stringify st st
| tool_emitted (key : string) (payload : jsval) :
    key ∉ processedTools st ->
    toolKey_of JSON_stringify payload = Normal key ->
    tool_effect JSON_stringify st
      (subscriber_next (add_tool st key) (ToolEvent payload))
| tool_logged (e : js_error) :
    tool_effect JSON_stringify st (logger st (LogToolFailure e)).

(** What one call of [processTolyMessage] can do to the session. *)
Inductive toly_effect (st : session) : session -> Prop :=
| toly_unchanged : toly_effect st st
| toly_emitted (text : string) :
    toly_effect st (subscriber_next (append_content st text) (ContentDelta text))
| toly_logged (e : js_error) (content : string) :
    toly_effect st (logger st (LogTolyFailure e content)).
(** [needle] occurs in [s] at offset [k]. *)
Definition occurs_at (needle s : string) (k : nat) : bool :=
  String.prefix needle (string_drop k s).

(** One of the two tag literals occurs in [buf] at offset [k]. *)
Definition tag_at (buf : string) (k : nat) : bool :=
  occurs_at TOOL buf k || occurs_at TOLY buf k.

(** A property kept by every primitive update is kept by a whole session. *)
Record stable (JSON_stringify : jsval -> string) (P : session -> Prop)
  : Prop := {
  stable_set_rawBuffer : forall st b, P st -> P (set_rawBuffer st b);
  stable_logger : forall st l, P st -> P (logger st l);
  stable_tool : forall st st', P st -> tool_effect JSON_stringify st st' -> P st';
  stable_toly : forall st st', P st -> toly_effect st st' -> P st'
}.

(** Before end of stream the transcript is the concatenation of the deltas
    emitted so far, and no terminal event has been emitted. *)
Definition transcript_inv (st : session) : Prop :=
  streamedContent st = delta_text (emitted st) /\
  forallb (fun e => negb (is_complete e)) (emitted st) = true.

(** Every tool event emitted so far has its key in [processedTools], and no
    two of them have the same key. *)
Definition dedup_inv (JSON_stringify : jsval -> string) (st : session)
  : Prop :=
  (forall i p, emitted st !! i = Some (ToolEvent p) ->
     exists k, toolKey_of JSON_stringify p = Normal k /\ k ∈ processedTools st) /\
  (forall i j p1 p2 k,
     emitted st !! i = Some (ToolEvent p1) ->
     emitted st !! j = Some (ToolEvent p2) ->
     toolKey_of JSON_stringify p1 = Normal k ->
     toolKey_of JSON_stringify p2 = Normal k ->
     i = j).


(** ** Concrete frames *)

(** The body of a model frame that passes the filter and carries [text]. *)
Definition model_body (text : string) : string :=
  json ("{'event':'on_chat_model_stream','metadata':{'langgraph_node':'Toly'},"
        ++ "'data':{'chunk':{'content':'" ++ text ++ "'}}}").

(** The body of a tool notice, and the value it decodes to. *)
Definition tool_body : string :=
  json "{'tool_name':'search','additional_kwargs':{}}".

Definition search_notice : jsval :=
  JObj [("tool_name", JStr "search"); ("additional_kwargs", JObj [])].

(** Two chunks that cut a tool notice in two; a model frame follows. *)
Definition example_chunks : list string :=
  [json "Tool :{'tool_name':'sear";
   (json "ch','additional_kwargs':{}}" ++ TOLY ++ model_body "Hi")%string].

(** ** Vocabulary of the chunking theorem *)

(** The ['data'] handler's [rawBuffer += text]. *)
Definition append_chunk (st : session) (text : string) : session :=
  set_rawBuffer st (rawBuffer st ++ text).

(** The whole stream that a chunk sequence carries. *)
Definition whole_stream (chunks : list string) : string :=
  fold_right String.append EmptyString chunks.

(** Everything of a session but the log. *)
Definition visible (st : session)
  : string * string * gset string * list event * bool :=
  (streamedContent st, rawBuffer st, processedTools st, emitted st,
   completed st).

(** No Tool tag starts at or after the first Toly tag. *)
Definition tools_first (s : string) : bool :=
  match indexOf s TOLY 0 with
  | None => true
  | Some t =>
      match indexOf s TOOL t with
      | None => true
      | Some _ => false
      end
  end.

(** ** Vocabulary of the session invariants *)

(** The outputs of [s] extend those of [st]: events are appended, the
    transcript is extended by the text of the new deltas, keys are only
    added, and no terminal event is among the new events. *)
Definition grows_from (st s : session) : Prop :=
  exists evs,
    emitted s = (emitted st ++ evs)%list /\
    streamedContent s = (streamedContent st ++ delta_text evs)%string /\
    forallb (fun e => negb (is_complete e)) evs = true /\
    processedTools st ⊆ processedTools s.

(** Every recorded key is the key of a tool event emitted so far. *)
Definition recorded_inv (JSON_stringify : jsval -> string) (st : session)
  : Prop :=
  forall k, k ∈ processedTools st ->
    exists i p, emitted st !! i = Some (ToolEvent p) /\
                toolKey_of JSON_stringify p = Normal k.

(** ** Vocabulary of the frame theorems *)

(** [s] consists of characters that [trim] strips. *)
Fixpoint all_space (s : string) : bool :=
  match s with
  | EmptyString => true
  | String c s' => is_js_space c && all_space s'
  end.

(** The text of a run of frames of one kind: each body behind its tag. *)
Fixpoint frames_text (identifier : string) (bodies : list string) : string :=
  match bodies with
  | [] => EmptyString
  | b :: rest => identifier ++ b ++ frames_text identifier rest
  end.

(** Neither tag literal occurs in [b]. *)
Definition no_tag (b : string) : bool :=
  match indexOf b TOOL 0, indexOf b TOLY 0 with
  | None, None => true
  | _, _ => false
  end.

(** The bodies handed to a processor one after the other, as the loop does
    at end of stream. *)
Fixpoint dispatch (process : processor) (bodies : list string) (st : session)
  : session :=
  match bodies with
  | [] => st
  | b :: rest => dispatch process rest (process b true st).2
  end.

(** The processor reports the body as processed while the stream is
    open. *)
Definition accepts (process : processor) (b : string) : bool :=
  (process b false new_session).1.

(** The session in which every tool notice, then every model frame, has
    been handed to its processor once, in the order given. *)
Definition in_order (JSON_parse : string -> option jsval)
    (JSON_stringify : jsval -> string) (tools tolys : list string) : session :=
  dispatch (processTolyMessage JSON_parse) tolys
    (dispatch (processToolMessage JSON_parse JSON_stringify) tools new_session).

(** [st1] is [st2] with the text [g] in front of its buffer, and no tag
    starts inside [g], also when [future] is appended to the buffer. *)
Definition behind (g future : string) (st1 st2 : session) : Prop :=
  visible st1 = visible (set_rawBuffer st2 (g ++ rawBuffer st2)) /\
  forall k, k < String.length g ->
            tag_at (g ++ rawBuffer st2 ++ future) k = false.

(** ** Vocabulary of the priority theorem *)






(** ** Vocabulary of the end of stream *)


(** ** The mock stream *)

(** What a property read on the object literal [mockResponses] gives: one
    of its own texts, a member inherited from [Object.prototype] (a
    function, or for [__proto__] the prototype object), or [undefined]. *)
Inductive member : Type :=
| MText (s : string)
| MInherited
| MUndefined.

Definition newline : string := String "010"%char EmptyString.

Definition mockResponses : list (string * string) :=
  [("default",
    "I apologize, but I don't have enough context to provide a specific answer.");
   ("greeting", "Hello! How can I assist you today?");
   ("help", "I can help you with various tasks. What would you like to know?");
   ("code",
    "Here's an example code:" ++ newline ++ "```typescript" ++ newline
    ++ "const hello = () => {" ++ newline ++ "  console.log('Hello world');"
    ++ newline ++ "}" ++ newline ++ "```")].

(** The property names of [Object.prototype]. *)
Definition Object_prototype : list string :=
  ["constructor"; "__defineGetter__"; "__defineSetter__"; "hasOwnProperty";
   "__lookupGetter__"; "__lookupSetter__"; "isPrototypeOf";
   "propertyIsEnumerable"; "toString"; "valueOf"; "__proto__";
   "toLocaleString"].

Fixpoint own_text (key : string) (props : list (string * string))
  : option string :=
  match props with
  | [] => None
  | (k, v) :: rest => if String.eqb k key then Some v else own_text key rest
  end.

(** [mockResponses[key]] *)
Definition read_member (key : string) : member :=
  match own_text key mockResponses with
  | Some s => MText s
  | None =>
      if existsb (String.eqb key) Object_prototype then MInherited
      else MUndefined
  end.

Definition member_truthy (m : member) : bool :=
  match m with
  | MText EmptyString => false
  | MText _ => true
  | MInherited => true
  | MUndefined => false
  end.

(** [a || b] *)
Definition or_else (a b : member) : member :=
  if member_truthy a then a else b.

(** [toLowerCase], on the letters A to Z.  The only other code unit whose
    lower case is a letter of the basic alphabet is the Kelvin sign, which
    becomes k, and no property name that [mockResponses] can answer to in
    lower case contains a k. *)
Definition to_lower_char (c : ascii) : ascii :=
  let n := nat_of_ascii c in
  if ((65 <=? n) && (n <=? 90))%nat then ascii_of_nat (n + 32) else c.

Fixpoint toLowerCase (s : string) : string :=
  match s with
  | EmptyString => EmptyString
  | String c s' => String (to_lower_char c) (toLowerCase s')
  end.

(** [s.split(' ')] *)
Fixpoint split_space (s : string) : list string :=
  match s with
  | EmptyString => [EmptyString]
  | String c s' =>
      if Ascii.eqb c " " then EmptyString :: split_space s'
      else
        match split_space s' with
        | w :: ws => String c w :: ws
        | [] => [String c EmptyString]
        end
  end.

(** [m.split(' ')]: only a string has the method. *)
Definition split_member (m : member) : completion (list string) :=
  match m with
  | MText s => Normal (split_space s)
  | MInherited => Throw TypeError
  | MUndefined => Throw TypeError
  end.

(** The state of one subscription: the closure variables [words] and
    [currentIndex], what the subscriber has received, whether it has been
    completed, and whether the interval timer is still set. *)
Record mock_stream : Type := mkMock {
  words : list string;
  currentIndex : nat;
  sent : list string;
  finished : bool;
  interval : bool
}.

(** The subscribe function of [getMockStreamingResponse], up to the call of
    [setInterval]. *)
Definition getMockStreamingResponse (question : string)
  : completion mock_stream :=
  let* ws :=
    split_member
      (or_else (read_member (toLowerCase question)) (read_member "default")) in
  Normal {| words := ws; currentIndex := 0; sent := []; finished := false;
            interval := true |}.

(** One period of the timer: the callback runs if the interval is still
    set. *)
Definition interval_tick (st : mock_stream) : mock_stream :=
  if interval st then
    if (currentIndex st <? length (words st))%nat then
      {| words := words st;
         currentIndex := S (currentIndex st);
         sent := sent st ++ [(nth (currentIndex st) (words st) EmptyString ++ " ")%string];
         finished := finished st;
         interval := interval st |}
    else
      {| words := words st;
         currentIndex := currentIndex st;
         sent := sent st;
         finished := true;
         interval := false |}
  else st.

(** The teardown [() => clearInterval(interval)]. *)
Definition unsubscribe (st : mock_stream) : mock_stream :=
  {| words := words st;
     currentIndex := currentIndex st;
     sent := sent st;
     finished := finished st;
     interval := false |}.

Fixpoint ticks (n : nat) (st : mock_stream) : mock_stream :=
  match n with
  | O => st
  | S n' => ticks n' (interval_tick st)
  end.

(** * Facts about the string primitives *)

Lemma string_drop_length (n : nat) (s : string) :
  String.length (string_drop n s) = String.length s - n.
Proof.
  revert s. induction n as [|n IH]; intros s; simpl.
  - lia.
  - destruct s as [|c s']; simpl; [reflexivity | apply IH].
Qed.

Lemma string_drop_empty (n : nat) : string_drop n EmptyString = EmptyString.
Proof. destruct n; reflexivity. Qed.

Lemma string_drop_drop (n k : nat) (s : string) :
  string_drop k (string_drop n s) = string_drop (n + k) s.
Proof.
  revert s. induction n as [|n IH]; intros s; simpl.
  - reflexivity.
  - destruct s as [|c s']; simpl; [apply string_drop_empty | apply IH].
Qed.

Lemma prefix_length (p s : string) :
  String.prefix p s = true -> String.length p <= String.length s.
Proof.
  revert s. induction p as [|a p IH]; intros s H; simpl.
  - lia.
  - destruct s as [|b s']; simpl in *; [discriminate|].
    destruct (ascii_dec a b); [|discriminate].
    apply IH in H. lia.
Qed.

Lemma occurs_at_bound (needle s : string) (k : nat) :
  occurs_at needle s k = true -> k + String.length needle <= String.length s \/ needle = EmptyString.
Proof.
  unfold occurs_at. intros H. apply prefix_length in H.
  rewrite string_drop_length in H.
  destruct needle as [|a needle']; [right; reflexivity | left; simpl in *; lia].
Qed.

Lemma occurs_at_0 (needle s : string) :
  occurs_at needle s 0 = String.prefix needle s.
Proof. reflexivity. Qed.

Lemma occurs_at_S (needle : string) (c : ascii) (s : string) (k : nat) :
  occurs_at needle (String c s) (S k) = occurs_at needle s k.
Proof. reflexivity. Qed.

Lemma occurs_at_drop (needle s : string) (n k : nat) :
  occurs_at needle (string_drop n s) k = occurs_at needle s (n + k).
Proof. unfold occurs_at. now rewrite string_drop_drop. Qed.

Section IndexOf.

Variable needle : string.
Hypothesis needle_nonempty : needle <> EmptyString.

Lemma occurs_at_nil (k : nat) : occurs_at needle EmptyString k = false.
Proof.
  unfold occurs_at. rewrite string_drop_empty.
  destruct needle; [congruence | reflexivity].
Qed.

Lemma index_cons_0 (b : ascii) (s : string) :
  String.index 0 needle (String b s) =
  if String.prefix needle (String b s) then Some 0
  else match String.index 0 needle s with Some n => Some (S n) | None => None end.
Proof. reflexivity. Qed.

Lemma index_cons_S (from : nat) (b : ascii) (s : string) :
  String.index (S from) needle (String b s) =
  match String.index from needle s with Some n => Some (S n) | None => None end.
Proof. reflexivity. Qed.

(** [indexOf] returns the least offset at or after [from] where the needle
    occurs. *)
Lemma indexOf_Some (s : string) (from m : nat) :
  indexOf s needle from = Some m <->
  from <= m /\ occurs_at needle s m = true /\
  forall k, from <= k -> k < m -> occurs_at needle s k = false.
Proof.
  unfold indexOf. revert from m.
  induction s as [|b s IH]; intros from m.
  - split.
    + destruct from; simpl; [destruct needle; congruence | discriminate].
    + intros (_ & H & _). rewrite occurs_at_nil in H. discriminate.
  - destruct from as [|from]; [rewrite index_cons_0 | rewrite index_cons_S].
    + destruct (String.prefix needle (String b s)) eqn:Hp.
      * split.
        -- intros [= <-]. repeat split; [lia | exact Hp | intros; lia].
        -- intros (_ & Hm & Hmin). destruct m as [|m]; [reflexivity|].
           specialize (Hmin 0 ltac:(lia) ltac:(lia)).
           rewrite occurs_at_0 in Hmin. congruence.
      * destruct (String.index 0 needle s) as [r|] eqn:Hi.
        -- apply IH in Hi. destruct Hi as (_ & Hr & Hmin). split.
           ++ intros [= <-]. repeat split; [lia | exact Hr |].
              intros [|k] _ Hk; [exact Hp | apply Hmin; lia].
           ++ intros (_ & Hm & Hmin'). destruct m as [|m].
              { rewrite occurs_at_0 in Hm. congruence. }
              rewrite occurs_at_S in Hm. f_equal. f_equal.
              destruct (Nat.lt_trichotomy r m) as [Hlt|[Heq|Hgt]]; [|exact Heq|].
              ** specialize (Hmin' (S r) ltac:(lia) ltac:(lia)).
                 rewrite occurs_at_S in Hmin'. congruence.
              ** specialize (Hmin m ltac:(lia) Hgt). congruence.
        -- split; [discriminate|]. intros (_ & Hm & _).
           destruct m as [|m].
           { rewrite occurs_at_0 in Hm. congruence. }
           rewrite occurs_at_S in Hm.
           exfalso.
           assert (Hnone : forall j, occurs_at needle s j = false).
           { intros j. induction j as [j IHj] using lt_wf_ind.
             destruct (occurs_at needle s j) eqn:Hj; [|reflexivity].
             assert (String.index 0 needle s = Some j) as Hc.
             { apply IH. repeat split; [lia | exact Hj |].
               intros k _ Hk. apply IHj. exact Hk. }
             congruence. }
           rewrite Hnone in Hm. discriminate.
    + destruct (String.index from needle s) as [r|] eqn:Hi.
      * apply IH in Hi. destruct Hi as (Hle & Hr & Hmin). split.
        -- intros [= <-]. repeat split; [lia | exact Hr |].
           intros [|k] Hk1 Hk2; [lia | apply Hmin; lia].
        -- intros (Hle' & Hm & Hmin'). destruct m as [|m]; [lia|].
           rewrite occurs_at_S in Hm. f_equal. f_equal.
           destruct (Nat.lt_trichotomy r m) as [Hlt|[Heq|Hgt]]; [|exact Heq|].
           ++ specialize (Hmin' (S r) ltac:(lia) ltac:(lia)).
              rewrite occurs_at_S in Hmin'. congruence.
           ++ specialize (Hmin m ltac:(lia) Hgt). congruence.
      * split; [discriminate|]. intros (Hle & Hm & _).
        destruct m as [|m]; [lia|]. rewrite occurs_at_S in Hm.
        exfalso.
        assert (Hnone : forall j, from <= j -> occurs_at needle s j = false).
        { intros j. induction j as [j IHj] using lt_wf_ind. intros Hj0.
          destruct (occurs_at needle s j) eqn:Hj; [|reflexivity].
          assert (String.index from needle s = Some j) as Hc.
          { apply IH. repeat split; [lia | exact Hj |].
            intros k Hk1 Hk2. apply IHj; [exact Hk2 | exact Hk1]. }
          congruence. }
        rewrite Hnone in Hm; [discriminate | lia].
Qed.

Lemma indexOf_None (s : string) (from : nat) :
  indexOf s needle from = None <->
  forall k, from <= k -> occurs_at needle s k = false.
Proof.
  split.
  - intros Hn k. induction k as [k IHk] using lt_wf_ind. intros Hk.
    destruct (occurs_at needle s k) eqn:Ho; [|reflexivity].
    assert (indexOf s needle from = Some k) as Hc; [|congruence].
    apply indexOf_Some. repeat split; [exact Hk | exact Ho |].
    intros j Hj1 Hj2. apply IHk; assumption.
  - intros Hall. destruct (indexOf s needle from) as [m|] eqn:Hi; [|reflexivity].
    apply indexOf_Some in Hi. destruct Hi as (Hle & Hm & _).
    rewrite Hall in Hm; [discriminate | exact Hle].
Qed.

Lemma indexOf_in_range (s : string) (from m : nat) :
  indexOf s needle from = Some m ->
  from <= m /\ m + String.length needle <= String.length s.
Proof.
  intros H. apply indexOf_Some in H. destruct H as (Hle & Hm & _).
  split; [exact Hle|].
  destruct (occurs_at_bound _ _ _ Hm); [assumption | contradiction].
Qed.

(** A suffix of a text without the needle is without the needle. *)
Lemma indexOf_None_drop (s : string) (n : nat) :
  indexOf s needle 0 = None -> indexOf (string_drop n s) needle 0 = None.
Proof.
  rewrite !indexOf_None. intros H k _. rewrite occurs_at_drop. apply H. lia.
Qed.

(** The text from an occurrence on starts with the needle. *)
Lemma indexOf_drop_occurrence (s : string) (m : nat) :
  occurs_at needle s m = true -> indexOf (string_drop m s) needle 0 = Some 0.
Proof.
  intros H. apply indexOf_Some. repeat split; [lia | | intros; lia].
  rewrite occurs_at_drop. now rewrite Nat.add_0_r.
Qed.

End IndexOf.

(** * The tag scanner *)

Lemma TOOL_nonempty : TOOL <> EmptyString.
Proof. discriminate. Qed.

Lemma TOLY_nonempty : TOLY <> EmptyString.
Proof. discriminate. Qed.

Lemma findNextMessageStart_unfold (buf : string) (p : nat) :
  findNextMessageStart buf p =
  match indexOf buf TOOL (p + IDENTIFIER_LENGTH),
        indexOf buf TOLY (p + IDENTIFIER_LENGTH) with
  | Some x, Some y => if (y <? x)%nat then Some y else Some x
  | Some x, None => Some x
  | None, r => r
  end.
Proof.
  unfold findNextMessageStart, MESSAGE_TYPES. simpl.
  destruct (indexOf buf TOOL _), (indexOf buf TOLY _); reflexivity.
Qed.

Lemma findNextMessageStart_Some (buf : string) (p q : nat) :
  findNextMessageStart buf p = Some q <->
  p + IDENTIFIER_LENGTH <= q /\ tag_at buf q = true /\
  forall k, p + IDENTIFIER_LENGTH <= k -> k < q -> tag_at buf k = false.
Proof.
  rewrite findNextMessageStart_unfold. unfold tag_at.
  destruct (indexOf buf TOOL _) as [x|] eqn:Hx;
    destruct (indexOf buf TOLY _) as [y|] eqn:Hy.
  all: try (apply (indexOf_Some _ TOOL_nonempty) in Hx; destruct Hx as (Hx1 & Hx2 & Hx3)).
  all: try (apply (indexOf_Some _ TOLY_nonempty) in Hy; destruct Hy as (Hy1 & Hy2 & Hy3)).
  all: try (pose proof (proj1 (indexOf_None _ TOOL_nonempty _ _) Hx) as Hx0).
  all: try (pose proof (proj1 (indexOf_None _ TOLY_nonempty _ _) Hy) as Hy0).
  - destruct (Nat.ltb_spec y x) as [Hlt|Hge].
    + split.
      * intros [= <-]. repeat split; [lia | rewrite Hy2; apply orb_true_r |].
        intros k Hk1 Hk2. rewrite Hx3, Hy3 by lia. reflexivity.
      * intros (Hq1 & Hq2 & Hq3). f_equal.
        destruct (Nat.lt_trichotomy y q) as [H|[H|H]]; [|exact H|].
        -- specialize (Hq3 y Hy1 H). rewrite Hy2, orb_true_r in Hq3. discriminate.
        -- rewrite Hx3, Hy3 in Hq2 by lia. discriminate.
    + split.
      * intros [= <-]. repeat split; [lia | rewrite Hx2; reflexivity |].
        intros k Hk1 Hk2. rewrite Hx3, Hy3 by lia. reflexivity.
      * intros (Hq1 & Hq2 & Hq3). f_equal.
        destruct (Nat.lt_trichotomy x q) as [H|[H|H]]; [|exact H|].
        -- specialize (Hq3 x Hx1 H). rewrite Hx2 in Hq3. discriminate.
        -- rewrite Hx3, Hy3 in Hq2 by lia. discriminate.
  - split.
    + intros [= <-]. repeat split; [lia | rewrite Hx2; reflexivity |].
      intros k Hk1 Hk2. rewrite Hx3, Hy0 by lia. reflexivity.
    + intros (Hq1 & Hq2 & Hq3). f_equal.
      destruct (Nat.lt_trichotomy x q) as [H|[H|H]]; [|exact H|].
      * specialize (Hq3 x Hx1 H). rewrite Hx2 in Hq3. discriminate.
      * rewrite Hx3, Hy0 in Hq2 by lia. discriminate.
  - split.
    + intros [= <-]. repeat split; [lia | rewrite Hy2; apply orb_true_r |].
      intros k Hk1 Hk2. rewrite Hx0, Hy3 by lia. reflexivity.
    + intros (Hq1 & Hq2 & Hq3). f_equal.
      destruct (Nat.lt_trichotomy y q) as [H|[H|H]]; [|exact H|].
      * specialize (Hq3 y Hy1 H). rewrite Hy2, orb_true_r in Hq3. discriminate.
      * rewrite Hx0, Hy3 in Hq2 by lia. discriminate.
  - split; [discriminate|]. intros (Hq1 & Hq2 & _).
    rewrite Hx0, Hy0 in Hq2 by lia. discriminate.
Qed.

Lemma findNextMessageStart_None (buf : string) (p : nat) :
  findNextMessageStart buf p = None <->
  forall k, p + IDENTIFIER_LENGTH <= k -> tag_at buf k = false.
Proof.
  rewrite findNextMessageStart_unfold. unfold tag_at.
  destruct (indexOf buf TOOL _) as [x|] eqn:Hx;
    destruct (indexOf buf TOLY _) as [y|] eqn:Hy.
  all: try (apply (indexOf_Some _ TOOL_nonempty) in Hx; destruct Hx as (Hx1 & Hx2 & Hx3)).
  all: try (apply (indexOf_Some _ TOLY_nonempty) in Hy; destruct Hy as (Hy1 & Hy2 & Hy3)).
  all: try (pose proof (proj1 (indexOf_None _ TOOL_nonempty _ _) Hx) as Hx0).
  all: try (pose proof (proj1 (indexOf_None _ TOLY_nonempty _ _) Hy) as Hy0).
  - split; [destruct (y <? x)%nat; discriminate|].
    intros H. specialize (H x Hx1). rewrite Hx2 in H. discriminate.
  - split; [discriminate|].
    intros H. specialize (H x Hx1). rewrite Hx2 in H. discriminate.
  - split; [discriminate|].
    intros H. specialize (H y Hy1). rewrite Hy2, orb_true_r in H. discriminate.
  - split; [|reflexivity]. intros _ k Hk. rewrite Hx0, Hy0 by lia. reflexivity.
Qed.

(** * The scanner, as the code has it *)

(** The scanner searches from the offset just after the consumed tag, that
    offset included: a tag that starts right there is found. *)
Lemma scanner_finds_adjacent_tag :
  findNextMessageStart "Tool :Toly :Tool :" 0 = Some 6 /\
  ~ (0 + IDENTIFIER_LENGTH < 6) /\
  tag_at "Tool :Toly :Tool :" 12 = true.
Proof. repeat split. unfold IDENTIFIER_LENGTH. lia. Qed.

(** C8, as amended.  For every buffer and every offset [p] of a consumed
    tag, [findNextMessageStart] returns the least offset at or after
    [p + IDENTIFIER_LENGTH] at which one of the two tag literals occurs (the
    earlier one when both occur), and returns [Infinity] exactly when
    neither literal occurs at or after that offset.  It is a function of
    the buffer and the offset and changes nothing. *)
Theorem findNextMessageStart_earliest (buf : string) (p : nat) :
  (forall q,
     findNextMessageStart buf p = Some q <->
     p + IDENTIFIER_LENGTH <= q /\ tag_at buf q = true /\
     forall k, p + IDENTIFIER_LENGTH <= k -> k < q -> tag_at buf k = false) /\
  (findNextMessageStart buf p = None <->
   forall k, p + IDENTIFIER_LENGTH <= k -> tag_at buf k = false).
Proof.
  split; [intros q; apply findNextMessageStart_Some
         | apply findNextMessageStart_None].
Qed.

Lemma findNextMessageStart_earliest_witness :
  0 + IDENTIFIER_LENGTH <= 7 /\ tag_at "Tool :xToly :Tool :" 7 = true /\
  forall k, 0 + IDENTIFIER_LENGTH <= k -> k < 7 ->
            tag_at "Tool :xToly :Tool :" k = false.
Proof.
  apply (proj1 (proj1 (findNextMessageStart_earliest "Tool :xToly :Tool :" 0) 7)).
  reflexivity.
Defined.


(** * The drain loop *)

Section Loop.

Variable identifier : string.
Hypothesis identifier_nonempty : identifier <> EmptyString.
Variable process : processor.
Variable isEnd : bool.

(** The processors never assign [rawBuffer]. *)
Hypothesis process_rawBuffer :
  forall content e st, rawBuffer (process content e st).2 = rawBuffer st.

Lemma processMessages_loop_S (fuel : nat) (st : session) :
  processMessages_loop (S fuel) identifier process isEnd st =
  match indexOf (rawBuffer st) identifier 0 with
  | None => Some st
  | Some msgStart =>
      let '(content, nextMsgStart) :=
        extractMessageContent (rawBuffer st) msgStart in
      if match nextMsgStart with None => negb isEnd | Some _ => false end
      then Some st
      else
        let '(processed, st1) := process content isEnd st in
        let rest :=
          match nextMsgStart with
          | Some n => substring_from (rawBuffer st1) n
          | None => EmptyString
          end in
        if processed then
          processMessages_loop fuel identifier process isEnd
            (set_rawBuffer st1 rest)
        else if negb isEnd then Some st1
        else
          processMessages_loop fuel identifier process isEnd
            (set_rawBuffer st1 rest)
  end.
Proof. reflexivity. Qed.

Lemma rest_shorter (st st1 : session) (msgStart : nat) (next : option nat) :
  indexOf (rawBuffer st) identifier 0 = Some msgStart ->
  findNextMessageStart (rawBuffer st) msgStart = next ->
  rawBuffer st1 = rawBuffer st ->
  String.length
    (match next with
     | Some n => substring_from (rawBuffer st1) n
     | None => EmptyString
     end) < String.length (rawBuffer st).
Proof.
  intros Hi Hn Hb.
  apply (indexOf_in_range _ identifier_nonempty) in Hi. destruct Hi as [_ Hi].
  assert (0 < String.length identifier).
  { destruct identifier; [congruence | simpl; lia]. }
  destruct next as [n|]; simpl; [|lia].
  apply findNextMessageStart_Some in Hn. destruct Hn as (Hn & _).
  unfold substring_from. rewrite string_drop_length, Hb.
  unfold IDENTIFIER_LENGTH in Hn. lia.
Qed.

(** The loop breaks before the fuel runs out. *)
Lemma processMessages_loop_total (fuel : nat) (st : session) :
  String.length (rawBuffer st) < fuel ->
  exists st', processMessages_loop fuel identifier process isEnd st = Some st'.
Proof.
  revert st. induction fuel as [|fuel IH]; intros st Hlen; [lia|].
  rewrite processMessages_loop_S.
  destruct (indexOf (rawBuffer st) identifier 0) as [msgStart|] eqn:Hi; [|eauto].
  unfold extractMessageContent.
  destruct (findNextMessageStart (rawBuffer st) msgStart) as [n|] eqn:Hn.
  - pose proof (process_rawBuffer (substring_between (rawBuffer st) (msgStart + IDENTIFIER_LENGTH) n) isEnd st) as Hb.
    destruct (process _ isEnd st) as [processed st1]. simpl in Hb.
    pose proof (rest_shorter st st1 _ _ Hi Hn Hb) as Hlt. simpl in Hlt.
    destruct processed; [apply IH; simpl; lia|].
    destruct isEnd; simpl; [apply IH; simpl; lia | eauto].
  - destruct isEnd; simpl; [|eauto].
    destruct (process _ true st) as [processed st1].
    assert (0 < String.length (rawBuffer st)).
    { apply (indexOf_in_range _ identifier_nonempty) in Hi.
      destruct identifier; [congruence | simpl in Hi; lia]. }
    destruct processed; apply IH; simpl; lia.
Qed.

Lemma processMessages_total (st : session) :
  exists st', processMessages identifier process isEnd st = Some st'.
Proof. apply processMessages_loop_total. lia. Qed.

(** More fuel does not change a result. *)
Lemma processMessages_loop_fuel (fuel fuel' : nat) (st st' : session) :
  processMessages_loop fuel identifier process isEnd st = Some st' ->
  fuel <= fuel' ->
  processMessages_loop fuel' identifier process isEnd st = Some st'.
Proof.
  revert fuel' st. induction fuel as [|fuel IH]; intros fuel' st H Hle;
    [discriminate|].
  destruct fuel' as [|fuel']; [lia|]. rewrite processMessages_loop_S in *.
  destruct (indexOf (rawBuffer st) identifier 0); [|exact H].
  destruct (extractMessageContent _ _) as [content next].
  destruct (match next with None => negb isEnd | Some _ => false end); [exact H|].
  destruct (process content isEnd st) as [processed st1].
  destruct processed; [apply IH; [exact H | lia]|].
  destruct (negb isEnd); [exact H | apply IH; [exact H | lia]].
Qed.

(** Whatever the processor and the buffer update preserve, the loop
    preserves. *)
Lemma processMessages_loop_invariant (P : session -> Prop) :
  (forall st b, P st -> P (set_rawBuffer st b)) ->
  (forall content st, P st -> P (process content isEnd st).2) ->
  forall fuel st st',
    P st ->
    processMessages_loop fuel identifier process isEnd st = Some st' ->
    P st'.
Proof.
  intros Hset Hproc. induction fuel as [|fuel IH]; intros st st' HP H;
    [discriminate|].
  rewrite processMessages_loop_S in H.
  destruct (indexOf (rawBuffer st) identifier 0); [|congruence].
  destruct (extractMessageContent _ _) as [content next].
  destruct (match next with None => negb isEnd | Some _ => false end);
    [congruence|].
  pose proof (Hproc content st HP) as HP1.
  destruct (process content isEnd st) as [processed st1]. simpl in HP1.
  destruct processed; [eapply IH; [|exact H]; auto|].
  destruct (negb isEnd); [congruence | eapply IH; [|exact H]; auto].
Qed.

(** At end of stream the loop only stops when no tag of its kind is left. *)
Lemma processMessages_loop_end_exhausts (fuel : nat) (st st' : session) :
  isEnd = true ->
  processMessages_loop fuel identifier process isEnd st = Some st' ->
  indexOf (rawBuffer st') identifier 0 = None.
Proof.
  intros HE. revert st. induction fuel as [|fuel IH]; intros st H;
    [discriminate|].
  rewrite processMessages_loop_S in H.
  destruct (indexOf (rawBuffer st) identifier 0) eqn:Hi; [|congruence].
  destruct (extractMessageContent _ _) as [content next].
  replace (match next with None => negb isEnd | Some _ => false end)
    with false in H by (rewrite HE; destruct next; reflexivity).
  destruct (process content isEnd st) as [processed st1].
  replace (negb isEnd) with false in H by (rewrite HE; reflexivity).
  destruct processed; eapply IH; exact H.
Qed.

Lemma processMessages_loop_no_tag (fuel : nat) (st : session) :
  indexOf (rawBuffer st) identifier 0 = None ->
  processMessages_loop (S fuel) identifier process isEnd st = Some st.
Proof. intros H. now rewrite processMessages_loop_S, H. Qed.

Lemma processMessages_no_tag (st : session) :
  indexOf (rawBuffer st) identifier 0 = None ->
  processMessages identifier process isEnd st = Some st.
Proof. apply processMessages_loop_no_tag. Qed.

(** At end of stream the buffer left by the loop is the one it found (when
    it holds no tag of the kind), or empty, or a suffix that starts at a
    tag. *)
Lemma processMessages_loop_end_shape (fuel : nat) (st st' : session) :
  isEnd = true ->
  processMessages_loop fuel identifier process isEnd st = Some st' ->
  (rawBuffer st' = rawBuffer st /\ indexOf (rawBuffer st) identifier 0 = None) \/
  rawBuffer st' = EmptyString \/
  (exists n, rawBuffer st' = string_drop n (rawBuffer st) /\
             tag_at (rawBuffer st) n = true).
Proof.
  intros HE. revert st. induction fuel as [|fuel IH]; intros st H;
    [discriminate|].
  rewrite processMessages_loop_S in H.
  destruct (indexOf (rawBuffer st) identifier 0) as [msgStart|] eqn:Hi.
  2:{ injection H as <-. left. split; reflexivity. }
  unfold extractMessageContent in H.
  destruct (findNextMessageStart (rawBuffer st) msgStart) as [n|] eqn:Hn.
  - pose proof (process_rawBuffer
                  (substring_between (rawBuffer st) (msgStart + IDENTIFIER_LENGTH) n)
                  isEnd st) as Hb.
    destruct (process _ isEnd st) as [processed st1]. simpl in Hb.
    replace (negb isEnd) with false in H by (rewrite HE; reflexivity).
    apply findNextMessageStart_Some in Hn. destruct Hn as (_ & Htag & _).
    assert (processMessages_loop fuel identifier process isEnd
              (set_rawBuffer st1 (substring_from (rawBuffer st1) n)) = Some st')
      as H' by (destruct processed; exact H).
    apply IH in H'. simpl in H'. unfold substring_from in H'. rewrite Hb in H'.
    destruct H' as [[H' _] | [H' | (n' & H' & Htag')]].
    + right; right. exists n. split; assumption.
    + right; left. exact H'.
    + right; right. exists (n + n'). rewrite string_drop_drop in H'.
      split; [exact H'|]. unfold tag_at in *.
      now rewrite !occurs_at_drop in Htag'.
  - replace (negb isEnd) with false in H by (rewrite HE; reflexivity).
    destruct (process _ isEnd st) as [processed st1].
    assert (processMessages_loop fuel identifier process isEnd
              (set_rawBuffer st1 EmptyString) = Some st')
      as H' by (destruct processed; exact H).
    apply IH in H'. simpl in H'. right; left.
    destruct H' as [[H' _] | [H' | (n' & H' & _)]]; [exact H' | exact H' |].
    now rewrite string_drop_empty in H'.
Qed.

(** At end of stream a frame with no tag after it is handed to the
    processor once and the buffer is emptied, whatever the processor
    answers. *)
Lemma processMessages_trailing (st : session) (msgStart : nat) :
  isEnd = true ->
  indexOf (rawBuffer st) identifier 0 = Some msgStart ->
  findNextMessageStart (rawBuffer st) msgStart = None ->
  processMessages identifier process isEnd st =
  Some (set_rawBuffer
          (process (substring_from (rawBuffer st) (msgStart + IDENTIFIER_LENGTH))
             isEnd st).2
          EmptyString).
Proof.
  intros HE Hi Hn. unfold processMessages.
  rewrite processMessages_loop_S, Hi. unfold extractMessageContent.
  rewrite Hn. replace (negb isEnd) with false by (rewrite HE; reflexivity).
  assert (exists fuel, String.length (rawBuffer st) = S fuel) as [fuel ->].
  { apply (indexOf_in_range _ identifier_nonempty) in Hi.
    destruct identifier; [congruence|]. simpl in Hi.
    destruct (String.length (rawBuffer st)); [lia | eauto]. }
  destruct (process _ isEnd st) as [processed st1]. cbn [snd].
  assert (indexOf (rawBuffer (set_rawBuffer st1 EmptyString)) identifier 0 = None)
    as H0.
  { simpl. unfold indexOf. destruct identifier; [congruence | reflexivity]. }
  destruct processed; apply processMessages_loop_no_tag; exact H0.
Qed.

(** A processor that reports "not processed" has changed nothing. *)
Hypothesis process_deferred :
  forall content st st',
    process content false st = (false, st') -> st' = st.

(** Whenever the loop stops, one more iteration stops at once: the pass
    for a tag kind runs until nothing more can be done for that kind. *)
Lemma processMessages_loop_exhausts (fuel : nat) (st st' : session) :
  processMessages_loop fuel identifier process isEnd st = Some st' ->
  processMessages_loop 1 identifier process isEnd st' = Some st'.
Proof.
  revert st. induction fuel as [|fuel IH]; intros st H; [discriminate|].
  rewrite processMessages_loop_S in H.
  destruct (indexOf (rawBuffer st) identifier 0) as [msgStart|] eqn:Hi.
  2:{ injection H as <-. rewrite processMessages_loop_S, Hi. reflexivity. }
  destruct (extractMessageContent (rawBuffer st) msgStart) as [content next] eqn:He.
  destruct (match next with None => negb isEnd | Some _ => false end) eqn:Hc.
  { injection H as <-. rewrite processMessages_loop_S, Hi, He, Hc. reflexivity. }
  destruct (process content isEnd st) as [processed st1] eqn:Hp.
  destruct processed; [eapply IH; exact H|].
  destruct (negb isEnd) eqn:Hneg; [|eapply IH; exact H].
  injection H as <-.
  assert (st1 = st) as ->.
  { pose proof Hp as Hp'. apply negb_true_iff in Hneg.
    rewrite Hneg in Hp'. eapply process_deferred. exact Hp'. }
  rewrite processMessages_loop_S, Hi, He, Hneg, Hc, Hp. reflexivity.
Qed.

End Loop.

(** * The processors *)

Lemma string_app_assoc (a b c : string) : ((a ++ b) ++ c = a ++ (b ++ c))%string.
Proof.
  induction a as [|x a IH]; [reflexivity|].
  change (String x ((a ++ b) ++ c) = String x (a ++ (b ++ c)))%string.
  now f_equal.
Qed.

Lemma string_app_nil_r (a : string) : (a ++ EmptyString = a)%string.
Proof.
  induction a as [|x a IH]; [reflexivity|].
  change (String x (a ++ EmptyString) = String x a)%string.
  now f_equal.
Qed.

Lemma delta_text_app (a b : list event) :
  delta_text (a ++ b) = (delta_text a ++ delta_text b)%string.
Proof.
  induction a as [|e a IH]; simpl; [reflexivity|].
  destruct e; simpl; rewrite IH; [reflexivity | | reflexivity].
  now rewrite string_app_assoc.
Qed.

Section Processors.

Variable JSON_parse : string -> option jsval.
Variable JSON_stringify : jsval -> string.

Lemma processToolMessage_effect (content : string) (isEnd : bool) (st : session) :
  tool_effect JSON_stringify st (processToolMessage JSON_parse JSON_stringify content isEnd st).2.
Proof.
  unfold processToolMessage, tool_try, cbind.
  destruct (js_JSON_parse JSON_parse (trim content)) as [toolData|e].
  - destruct (toolKey_of JSON_stringify toolData) as [key|e] eqn:Hk.
    + case_bool_decide as Hin; simpl; [constructor|].
      now apply tool_emitted.
    + destruct isEnd; simpl; constructor.
  - destruct isEnd; simpl; constructor.
Qed.

Lemma processTolyMessage_effect (content : string) (isEnd : bool) (st : session) :
  toly_effect st (processTolyMessage JSON_parse content isEnd st).2.
Proof.
  unfold processTolyMessage.
  destruct (toly_try JSON_parse content st) as [st'|e] eqn:Ht.
  - simpl. revert Ht. unfold toly_try, cbind.
    repeat match goal with
           | |- context [match ?x with _ => _ end] => destruct x
           end; intros [= <-]; constructor.
  - destruct isEnd; simpl; constructor.
Qed.

Lemma tool_effect_rawBuffer (st st' : session) :
  tool_effect JSON_stringify st st' -> rawBuffer st' = rawBuffer st.
Proof. now intros []. Qed.

Lemma toly_effect_rawBuffer (st st' : session) :
  toly_effect st st' -> rawBuffer st' = rawBuffer st.
Proof. now intros []. Qed.

Lemma processToolMessage_rawBuffer (content : string) (e : bool) (st : session) :
  rawBuffer (processToolMessage JSON_parse JSON_stringify content e st).2 = rawBuffer st.
Proof. apply tool_effect_rawBuffer, processToolMessage_effect. Qed.

Lemma processTolyMessage_rawBuffer (content : string) (e : bool) (st : session) :
  rawBuffer (processTolyMessage JSON_parse content e st).2 = rawBuffer st.
Proof. apply toly_effect_rawBuffer, processTolyMessage_effect. Qed.

Lemma processToolMessage_deferred (content : string) (st st' : session) :
  processToolMessage JSON_parse JSON_stringify content false st = (false, st') -> st' = st.
Proof.
  unfold processToolMessage.
  destruct (tool_try _ _ _ _); intros [= <-]; reflexivity.
Qed.

Lemma processTolyMessage_deferred (content : string) (st st' : session) :
  processTolyMessage JSON_parse content false st = (false, st') -> st' = st.
Proof.
  unfold processTolyMessage.
  destruct (toly_try _ _ _); intros [= <-]; reflexivity.
Qed.

(** ** Invariants of the passes *)

Lemma tool_pass_invariant (P : session -> Prop) (isEnd : bool) :
  (forall st b, P st -> P (set_rawBuffer st b)) ->
  (forall st st', P st -> tool_effect JSON_stringify st st' -> P st') ->
  forall st st',
    P st -> processMessages TOOL (processToolMessage JSON_parse JSON_stringify) isEnd st = Some st' -> P st'.
Proof.
  intros Hset Heff st st' HP H.
  eapply processMessages_loop_invariant; [exact Hset | | exact HP | exact H].
  intros content s Hs. eapply Heff; [exact Hs | apply processToolMessage_effect].
Qed.

Lemma toly_pass_invariant (P : session -> Prop) (isEnd : bool) :
  (forall st b, P st -> P (set_rawBuffer st b)) ->
  (forall st st', P st -> toly_effect st st' -> P st') ->
  forall st st',
    P st -> processMessages TOLY (processTolyMessage JSON_parse) isEnd st = Some st' -> P st'.
Proof.
  intros Hset Heff st st' HP H.
  eapply processMessages_loop_invariant; [exact Hset | | exact HP | exact H].
  intros content s Hs. eapply Heff; [exact Hs | apply processTolyMessage_effect].
Qed.

Lemma processBufferedData_stable (P : session -> Prop) (isEnd : bool)
    (st st' : session) :
  stable JSON_stringify P -> P st -> processBufferedData JSON_parse JSON_stringify isEnd st = Some st' -> P st'.
Proof.
  intros HS HP H. unfold processBufferedData in H.
  destruct (processMessages TOOL _ isEnd st) as [st1|] eqn:H1; [|discriminate].
  simpl in H.
  eapply toly_pass_invariant; [apply HS | apply HS | | exact H].
  eapply tool_pass_invariant; [apply HS | apply HS | exact HP | exact H1].
Qed.

Lemma on_data_stable (P : session -> Prop) (text : string) (st st' : session) :
  stable JSON_stringify P -> P st -> on_data JSON_parse JSON_stringify text st = Some st' -> P st'.
Proof.
  intros HS HP H. unfold on_data in H.
  eapply processBufferedData_stable; [exact HS | | exact H].
  apply HS, HS, HP.
Qed.

Lemma feed_stable (P : session -> Prop) (chunks : list string) (st st' : session) :
  stable JSON_stringify P -> P st -> feed JSON_parse JSON_stringify chunks st = Some st' -> P st'.
Proof.
  intros HS. revert st. induction chunks as [|text rest IH]; intros st HP H.
  - injection H as <-. exact HP.
  - simpl in H. destruct (on_data JSON_parse JSON_stringify text st) as [st1|] eqn:H1; [|discriminate].
    simpl in H. eapply IH; [|exact H]. eapply on_data_stable; eauto.
Qed.

(** ** No pass and no handler runs out of fuel *)

Lemma processBufferedData_total (isEnd : bool) (st : session) :
  exists st', processBufferedData JSON_parse JSON_stringify isEnd st = Some st'.
Proof.
  unfold processBufferedData.
  destruct (processMessages_total TOOL TOOL_nonempty
              (processToolMessage JSON_parse JSON_stringify) isEnd
              processToolMessage_rawBuffer st) as [st1 ->].
  simpl.
  apply (processMessages_total TOLY TOLY_nonempty
           (processTolyMessage JSON_parse) isEnd processTolyMessage_rawBuffer).
Qed.

Lemma on_data_total (text : string) (st : session) :
  exists st', on_data JSON_parse JSON_stringify text st = Some st'.
Proof. apply processBufferedData_total. Qed.

Lemma feed_total (chunks : list string) (st : session) :
  exists st', feed JSON_parse JSON_stringify chunks st = Some st'.
Proof.
  revert st. induction chunks as [|text rest IH]; intros st; simpl; [eauto|].
  destruct (on_data_total text st) as [st1 ->]. simpl. apply IH.
Qed.

Lemma on_end_total (st : session) : exists st', on_end JSON_parse JSON_stringify st = Some st'.
Proof.
  unfold on_end.
  destruct (processBufferedData_total true st) as [st1 ->]. simpl. eauto.
Qed.

Lemma run_total (chunks : list string) : exists st, run JSON_parse JSON_stringify chunks = Some st.
Proof.
  unfold run. destruct (feed_total chunks new_session) as [st ->].
  simpl. apply on_end_total.
Qed.

End Processors.

(** * Properties of a session *)

Section Session.

Variable JSON_parse : string -> option jsval.
Variable JSON_stringify : jsval -> string.

(** ** Frame effects of the two processors *)

(** C9.  Processing a Tool frame never modifies the transcript, and
    processing a Toly frame never modifies the set of processed tools:
    whatever the frame body and the end-of-stream flag,
    [processToolMessage] leaves [streamedContent] unchanged and
    [processTolyMessage] leaves [processedTools] unchanged. *)
Theorem processors_frame_effect (content : string) (isEnd : bool) (st : session) :
  streamedContent (processToolMessage JSON_parse JSON_stringify content isEnd st).2
    = streamedContent st /\
  processedTools (processTolyMessage JSON_parse content isEnd st).2
    = processedTools st.
Proof.
  split.
  - now destruct (processToolMessage_effect JSON_parse JSON_stringify content isEnd st).
  - now destruct (processTolyMessage_effect JSON_parse content isEnd st).
Qed.

(** The same holds for a whole pass of each kind. *)
Lemma tool_pass_streamedContent (isEnd : bool) (st st' : session) :
  processMessages TOOL (processToolMessage JSON_parse JSON_stringify) isEnd st
    = Some st' ->
  streamedContent st' = streamedContent st.
Proof.
  apply (tool_pass_invariant JSON_parse JSON_stringify
           (fun s => streamedContent s = streamedContent st)); [auto | | reflexivity].
  intros s s' Hs []; exact Hs.
Qed.

Lemma toly_pass_processedTools (isEnd : bool) (st st' : session) :
  processMessages TOLY (processTolyMessage JSON_parse) isEnd st = Some st' ->
  processedTools st' = processedTools st.
Proof.
  apply (toly_pass_invariant JSON_parse
           (fun s => processedTools s = processedTools st)); [auto | | reflexivity].
  intros s s' Hs []; exact Hs.
Qed.

(** ** The transcript *)

Lemma transcript_inv_stable : stable JSON_stringify transcript_inv.
Proof.
  split.
  - intros st b H. exact H.
  - intros st l H. exact H.
  - intros st st' [H1 H2] [ | key payload _ _ | e]; [split; assumption | | split; assumption].
    split; simpl.
    + rewrite delta_text_app. simpl. now rewrite string_app_nil_r.
    + rewrite forallb_app, H2. reflexivity.
  - intros st st' [H1 H2] [ | text | e content]; [split; assumption | | split; assumption].
    split; simpl.
    + rewrite delta_text_app, H1. simpl. now rewrite string_app_nil_r.
    + rewrite forallb_app, H2. reflexivity.
Qed.

Lemma transcript_inv_new : transcript_inv new_session.
Proof. split; reflexivity. Qed.

(** C4.  Every run reaches end of stream and emits exactly one terminal
    content event, as its last event; the text it carries is the
    concatenation, in emission order, of the text deltas emitted during the
    run, which is the accumulated transcript. *)
Theorem transcript_accumulation (chunks : list string) :
  exists st evs,
    run JSON_parse JSON_stringify chunks = Some st /\
    emitted st = (evs ++ [ContentComplete (delta_text evs)])%list /\
    forallb (fun e => negb (is_complete e)) evs = true /\
    streamedContent st = delta_text evs /\
    completed st = true.
Proof.
  unfold run.
  destruct (feed_total JSON_parse JSON_stringify chunks new_session) as [st0 H0].
  rewrite H0. simpl. unfold on_end.
  destruct (processBufferedData_total JSON_parse JSON_stringify true st0) as [st1 H1].
  rewrite H1. simpl.
  assert (transcript_inv st1) as [Ht Hc].
  { eapply processBufferedData_stable; [apply transcript_inv_stable | | exact H1].
    eapply feed_stable; [apply transcript_inv_stable | apply transcript_inv_new | exact H0]. }
  eexists _, (emitted st1). split; [reflexivity|]. simpl.
  rewrite Ht. auto.
Qed.

(** ** Priority of the Tool pass *)



(** ** Deduplication of tool notices *)

Lemma dedup_inv_next (st : session) (e : event) :
  is_tool e = false -> dedup_inv JSON_stringify st -> dedup_inv JSON_stringify (subscriber_next st e).
Proof.
  intros He [H1 H2]. split; simpl.
  - intros i p Hi. apply lookup_snoc_Some in Hi.
    destruct Hi as [[_ Hi] | [_ ->]]; [eauto | discriminate].
  - intros i j p1 p2 k Hi Hj. apply lookup_snoc_Some in Hi, Hj.
    destruct Hi as [[_ Hi] | [_ ->]]; [|discriminate].
    destruct Hj as [[_ Hj] | [_ ->]]; [|discriminate].
    eauto.
Qed.

Lemma dedup_inv_stable : stable JSON_stringify (dedup_inv JSON_stringify).
Proof.
  split.
  - intros st b H. exact H.
  - intros st l H. exact H.
  - intros st st' [H1 H2] [ | key payload Hfresh Hkey | e];
      [split; assumption | | split; assumption].
    split; simpl.
    + intros i p Hi. apply lookup_snoc_Some in Hi.
      destruct Hi as [[_ Hi] | [_ [= <-]]].
      * destruct (H1 i p Hi) as (k & Hk & Hin). exists k. split; [exact Hk|].
        set_solver.
      * exists key. split; [exact Hkey | set_solver].
    + intros i j p1 p2 k Hi Hj Hk1 Hk2. apply lookup_snoc_Some in Hi, Hj.
      destruct Hi as [[_ Hi] | [-> [= <-]]], Hj as [[_ Hj] | [-> [= <-]]].
      * eauto.
      * destruct (H1 i p1 Hi) as (k' & Hk' & Hin).
        assert (k' = key) as -> by congruence. contradiction.
      * destruct (H1 j p2 Hj) as (k' & Hk' & Hin).
        assert (k' = key) as -> by congruence. contradiction.
      * reflexivity.
  - intros st st' H [ | text | e content]; [exact H | | exact H].
    apply (dedup_inv_next (append_content st text)); [reflexivity | exact H].
Qed.

Lemma dedup_inv_new : dedup_inv JSON_stringify new_session.
Proof. split; intros *; simpl; discriminate. Qed.




(** ** End of stream *)

Lemma occurs_at_0_indexOf (needle s : string) :
  needle <> EmptyString ->
  occurs_at needle s 0 = true -> indexOf s needle 0 = Some 0.
Proof.
  intros Hne H. apply (indexOf_Some _ Hne). repeat split; [lia | exact H |].
  intros; lia.
Qed.

Lemma tool_pass_end_buffer (st st1 : session) :
  processMessages TOOL (processToolMessage JSON_parse JSON_stringify) true st
    = Some st1 ->
  indexOf (rawBuffer st1) TOOL 0 = None /\
  ((rawBuffer st1 = rawBuffer st /\ indexOf (rawBuffer st) TOOL 0 = None) \/
   rawBuffer st1 = EmptyString \/
   occurs_at TOLY (rawBuffer st1) 0 = true).
Proof.
  intros H.
  pose proof (processMessages_loop_end_exhausts TOOL _ true _ _ _ eq_refl H) as Hx.
  split; [exact Hx|].
  destruct (processMessages_loop_end_shape TOOL _ true
              (processToolMessage_rawBuffer JSON_parse JSON_stringify)
              _ _ _ eq_refl H) as [Hs | [Hs | (n & Hs & Htag)]]; [auto | auto |].
  right; right. unfold tag_at in Htag. apply orb_true_iff in Htag.
  rewrite Hs, occurs_at_drop, Nat.add_0_r.
  destruct Htag as [Htag | Htag]; [|exact Htag].
  apply (indexOf_drop_occurrence _ TOOL_nonempty) in Htag.
  rewrite <- Hs in Htag. congruence.
Qed.

Lemma toly_pass_end_buffer (st1 st' : session) :
  indexOf (rawBuffer st1) TOOL 0 = None ->
  processMessages TOLY (processTolyMessage JSON_parse) true st1 = Some st' ->
  indexOf (rawBuffer st') TOLY 0 = None /\
  ((rawBuffer st' = rawBuffer st1 /\ indexOf (rawBuffer st1) TOLY 0 = None) \/
   rawBuffer st' = EmptyString).
Proof.
  intros Hno H.
  pose proof (processMessages_loop_end_exhausts TOLY _ true _ _ _ eq_refl H) as Hx.
  split; [exact Hx|].
  destruct (processMessages_loop_end_shape TOLY _ true
              (processTolyMessage_rawBuffer JSON_parse)
              _ _ _ eq_refl H) as [Hs | [Hs | (n & Hs & Htag)]]; [auto | auto |].
  exfalso. unfold tag_at in Htag. apply orb_true_iff in Htag.
  destruct Htag as [Htag | Htag].
  - rewrite (proj1 (indexOf_None _ TOOL_nonempty _ _) Hno) in Htag by lia.
    discriminate.
  - apply (indexOf_drop_occurrence _ TOLY_nonempty) in Htag.
    rewrite <- Hs in Htag. congruence.
Qed.

(** After the final pass no tag is left in the buffer: it is empty, or it is
    the buffer the pass found and that one held no tag at all. *)
Lemma final_pass_buffer (st st' : session) :
  processBufferedData JSON_parse JSON_stringify true st = Some st' ->
  indexOf (rawBuffer st') TOOL 0 = None /\
  indexOf (rawBuffer st') TOLY 0 = None /\
  (rawBuffer st' = EmptyString \/
   (rawBuffer st' = rawBuffer st /\
    indexOf (rawBuffer st) TOOL 0 = None /\
    indexOf (rawBuffer st) TOLY 0 = None)).
Proof.
  unfold processBufferedData. intros H.
  destruct (processMessages TOOL _ true st) as [st1|] eqn:H1; [|discriminate].
  simpl in H.
  destruct (tool_pass_end_buffer _ _ H1) as [Hno1 Hshape1].
  destruct (toly_pass_end_buffer _ _ Hno1 H) as [Hno2 Hshape2].
  assert (indexOf (rawBuffer st') TOOL 0 = None) as Hno3.
  { destruct Hshape2 as [[-> _] | ->]; [exact Hno1 | reflexivity]. }
  repeat split; [exact Hno3 | exact Hno2 |].
  destruct Hshape2 as [[Hb2 Hn2] | Hb2]; [|left; exact Hb2].
  destruct Hshape1 as [[Hb1 Hn1] | [Hb1 | Hocc]].
  - right. rewrite Hb2, Hb1. rewrite Hb1 in Hn2. auto.
  - left. now rewrite Hb2.
  - apply (occurs_at_0_indexOf _ _ TOLY_nonempty) in Hocc. congruence.
Qed.

Lemma processBufferedData_emitted (isEnd : bool) (st st' : session) :
  processBufferedData JSON_parse JSON_stringify isEnd st = Some st' ->
  exists evs, emitted st' = (emitted st ++ evs)%list.
Proof.
  apply (processBufferedData_stable JSON_parse JSON_stringify
           (fun s => exists evs, emitted s = (emitted st ++ evs)%list)).
  - split.
    + auto.
    + auto.
    + intros s s' (evs & Hs) [ | key payload _ _ | e]; [eauto | | eauto].
      exists (evs ++ [ToolEvent payload])%list. simpl.
      now rewrite Hs, <- app_assoc.
    + intros s s' (evs & Hs) [ | text | e content]; [eauto | | eauto].
      exists (evs ++ [ContentDelta text])%list. simpl.
      now rewrite Hs, <- app_assoc.
  - exists []. now rewrite app_nil_r.
Qed.

(** End of stream never blocks.  From every session state the ['end']
    handler returns: the subscriber is completed, the last event is the
    terminal content event with the accumulated transcript, and no tag is
    left in the buffer, which is empty whenever it held a tag, so no frame
    is kept for a retry.  A frame that is the only one of its kind in the
    buffer, has no tag after it and fails to decode is logged once, emits
    nothing and is dropped. *)
Lemma on_end_completes :
  (forall st : session,
     exists st' evs,
       on_end JSON_parse JSON_stringify st = Some st' /\
       completed st' = true /\
       emitted st' =
         (emitted st ++ evs ++ [ContentComplete (streamedContent st')])%list /\
       indexOf (rawBuffer st') TOOL 0 = None /\
       indexOf (rawBuffer st') TOLY 0 = None /\
       (rawBuffer st' = EmptyString \/
        (indexOf (rawBuffer st) TOOL 0 = None /\
         indexOf (rawBuffer st) TOLY 0 = None))) /\
  (forall (st : session) (msgStart : nat) (e : js_error),
     indexOf (rawBuffer st) TOOL 0 = Some msgStart ->
     findNextMessageStart (rawBuffer st) msgStart = None ->
     tool_try JSON_parse JSON_stringify
       (substring_from (rawBuffer st) (msgStart + IDENTIFIER_LENGTH)) st
       = Throw e ->
     on_end JSON_parse JSON_stringify st =
     Some {| streamedContent := streamedContent st;
             rawBuffer := EmptyString;
             processedTools := processedTools st;
             emitted := emitted st ++ [ContentComplete (streamedContent st)];
             logged := logged st ++ [LogToolFailure e;
                                     LogCompleteContent (streamedContent st)];
             completed := true |}) /\
  (forall (st : session) (msgStart : nat) (e : js_error),
     indexOf (rawBuffer st) TOOL 0 = None ->
     indexOf (rawBuffer st) TOLY 0 = Some msgStart ->
     findNextMessageStart (rawBuffer st) msgStart = None ->
     toly_try JSON_parse
       (substring_from (rawBuffer st) (msgStart + IDENTIFIER_LENGTH)) st
       = Throw e ->
     on_end JSON_parse JSON_stringify st =
     Some {| streamedContent := streamedContent st;
             rawBuffer := EmptyString;
             processedTools := processedTools st;
             emitted := emitted st ++ [ContentComplete (streamedContent st)];
             logged :=
               logged st ++
               [LogTolyFailure e
                  (substring_from (rawBuffer st) (msgStart + IDENTIFIER_LENGTH));
                LogCompleteContent (streamedContent st)];
             completed := true |}).
Proof.
  split; [|split].
  - intros st. unfold on_end.
    destruct (processBufferedData_total JSON_parse JSON_stringify true st)
      as [st1 H1].
    rewrite H1. simpl.
    destruct (processBufferedData_emitted _ _ _ H1) as (evs & Hev).
    destruct (final_pass_buffer _ _ H1) as (Hno1 & Hno2 & Hshape).
    eexists _, evs. split; [reflexivity|]. simpl.
    repeat split; [| exact Hno1 | exact Hno2 |].
    + rewrite Hev, <- !app_assoc. reflexivity.
    + destruct Hshape as [Hs | (_ & Ha & Hb)]; auto.
  - intros st msgStart e Hi Hn Ht. unfold on_end, processBufferedData.
    rewrite (processMessages_trailing TOOL TOOL_nonempty _ true st msgStart
               eq_refl Hi Hn).
    cbn [mbind option_bind].
    rewrite (processMessages_no_tag TOLY _ true) by reflexivity.
    unfold processToolMessage. rewrite Ht. simpl.
    unfold subscriber_complete, subscriber_next, logger. simpl.
    rewrite <- app_assoc. reflexivity.
  - intros st msgStart e Hno Hi Hn Ht. unfold on_end, processBufferedData.
    rewrite (processMessages_no_tag TOOL _ true) by exact Hno.
    cbn [mbind option_bind].
    rewrite (processMessages_trailing TOLY TOLY_nonempty _ true st msgStart
               eq_refl Hi Hn).
    unfold processTolyMessage. rewrite Ht. simpl.
    unfold subscriber_complete, subscriber_next, logger. simpl.
    rewrite <- app_assoc. reflexivity.
Qed.

End Session.

(** * Buffers that grow *)

Lemma string_length_app (a b : string) :
  String.length (a ++ b) = String.length a + String.length b.
Proof.
  induction a as [|x a IH]; [reflexivity|].
  change (S (String.length (a ++ b)) = S (String.length a) + String.length b).
  now rewrite IH.
Qed.

Lemma string_drop_app (n : nat) (a b : string) :
  n <= String.length a ->
  string_drop n (a ++ b) = (string_drop n a ++ b)%string.
Proof.
  revert a. induction n as [|n IH]; intros a Hn; [reflexivity|].
  destruct a as [|x a]; simpl in Hn; [lia|].
  change (string_drop n (a ++ b) = (string_drop n a ++ b)%string).
  apply IH. lia.
Qed.

Lemma string_drop_all (n : nat) (a : string) :
  String.length a <= n -> string_drop n a = EmptyString.
Proof.
  revert a. induction n as [|n IH]; intros a Hn.
  - destruct a; [reflexivity | simpl in Hn; lia].
  - destruct a as [|x a]; [reflexivity|]. simpl in *. apply IH. lia.
Qed.

Lemma prefix_app (p x y : string) :
  String.prefix p x = true -> String.prefix p (x ++ y) = true.
Proof.
  revert x. induction p as [|a p IH]; intros x H;
    [now destruct (x ++ y)%string|].
  destruct x as [|b x]; [discriminate|].
  change (String.prefix (String a p) (String b (x ++ y)) = true).
  simpl in *. destruct (ascii_dec a b); [apply IH; exact H | discriminate].
Qed.

Lemma prefix_app_inv (p x y : string) :
  String.prefix p (x ++ y) = true ->
  String.length p <= String.length x ->
  String.prefix p x = true.
Proof.
  revert x. induction p as [|a p IH]; intros x H Hlen; [now destruct x|].
  destruct x as [|b x]; [simpl in Hlen; lia|].
  change (String.prefix (String a p) (String b (x ++ y)) = true) in H.
  simpl in *. destruct (ascii_dec a b); [apply IH; [exact H | lia] | discriminate].
Qed.

Lemma occurs_at_app (needle a b : string) (k : nat) :
  occurs_at needle a k = true -> occurs_at needle (a ++ b) k = true.
Proof.
  unfold occurs_at. intros H.
  destruct (Nat.le_gt_cases k (String.length a)) as [Hk|Hk].
  - rewrite string_drop_app by exact Hk. now apply prefix_app.
  - rewrite string_drop_all in H by lia.
    destruct needle; [|discriminate].
    now destruct (string_drop k (a ++ b)).
Qed.

Lemma occurs_at_app_inv (needle a b : string) (k : nat) :
  occurs_at needle (a ++ b) k = true ->
  k + String.length needle <= String.length a ->
  occurs_at needle a k = true.
Proof.
  unfold occurs_at. intros H Hk.
  rewrite string_drop_app in H by lia.
  apply prefix_app_inv in H; [exact H|].
  rewrite string_drop_length. lia.
Qed.

Lemma indexOf_app (needle a b : string) (from m : nat) :
  needle <> EmptyString ->
  indexOf a needle from = Some m ->
  indexOf (a ++ b) needle from = Some m.
Proof.
  intros Hne H. pose proof (indexOf_in_range _ Hne _ _ _ H) as [_ Hm].
  apply (indexOf_Some _ Hne) in H. destruct H as (Hle & Hocc & Hmin).
  apply (indexOf_Some _ Hne). repeat split; [exact Hle | now apply occurs_at_app |].
  intros k Hk1 Hk2.
  destruct (occurs_at needle (a ++ b) k) eqn:Ho; [|reflexivity].
  apply occurs_at_app_inv in Ho; [|lia].
  rewrite Hmin in Ho by assumption. discriminate.
Qed.

Lemma indexOf_app_inv (needle a b : string) (from m : nat) :
  needle <> EmptyString ->
  indexOf (a ++ b) needle from = Some m ->
  m + String.length needle <= String.length a ->
  indexOf a needle from = Some m.
Proof.
  intros Hne H Hm.
  apply (indexOf_Some _ Hne) in H. destruct H as (Hle & Hocc & Hmin).
  apply (indexOf_Some _ Hne).
  repeat split; [exact Hle | now apply occurs_at_app_inv in Hocc |].
  intros k Hk1 Hk2.
  destruct (occurs_at needle a k) eqn:Ho; [|reflexivity].
  apply (occurs_at_app _ _ b) in Ho.
  rewrite Hmin in Ho by assumption. discriminate.
Qed.

Lemma tag_at_bound (buf : string) (k : nat) :
  tag_at buf k = true -> k + IDENTIFIER_LENGTH <= String.length buf.
Proof.
  unfold tag_at. intros H. apply orb_true_iff in H.
  destruct H as [H|H]; apply occurs_at_bound in H;
    destruct H as [H|H]; solve [exact H | discriminate].
Qed.

Lemma tag_at_app (a b : string) (k : nat) :
  tag_at a k = true -> tag_at (a ++ b) k = true.
Proof.
  unfold tag_at. intros H. apply orb_true_iff in H. apply orb_true_iff.
  destruct H as [H|H]; [left | right]; now apply occurs_at_app.
Qed.

Lemma tag_at_app_inv (a b : string) (k : nat) :
  tag_at (a ++ b) k = true ->
  k + IDENTIFIER_LENGTH <= String.length a ->
  tag_at a k = true.
Proof.
  unfold tag_at. intros H Hk. apply orb_true_iff in H. apply orb_true_iff.
  destruct H as [H|H]; [left | right]; eapply occurs_at_app_inv; eauto.
Qed.

Lemma tag_at_drop (buf : string) (n k : nat) :
  tag_at (string_drop n buf) k = tag_at buf (n + k).
Proof. unfold tag_at. now rewrite !occurs_at_drop. Qed.

Lemma findNextMessageStart_app (a b : string) (p n : nat) :
  findNextMessageStart a p = Some n ->
  findNextMessageStart (a ++ b) p = Some n.
Proof.
  rewrite !findNextMessageStart_Some. intros (Hle & Htag & Hmin).
  repeat split; [exact Hle | now apply tag_at_app |].
  intros k Hk1 Hk2.
  destruct (tag_at (a ++ b) k) eqn:Ho; [|reflexivity].
  apply tag_at_bound in Htag.
  apply tag_at_app_inv in Ho; [|lia].
  rewrite Hmin in Ho by assumption. discriminate.
Qed.

Lemma substring_app (lo len : nat) (a b : string) :
  lo + len <= String.length a ->
  String.substring lo len (a ++ b) = String.substring lo len a.
Proof.
  revert lo len. induction a as [|x a IH]; intros lo len H.
  - simpl in H. assert (lo = 0) as -> by lia. assert (len = 0) as -> by lia.
    now destruct b.
  - change (String.substring lo len (String x (a ++ b))
            = String.substring lo len (String x a)).
    destruct lo as [|lo]; destruct len as [|len]; simpl in *;
      try reflexivity.
    + f_equal. apply IH. lia.
    + apply IH. lia.
    + apply IH. lia.
Qed.

Lemma substring_between_app (a b : string) (m n : nat) :
  m <= n -> n <= String.length a ->
  substring_between (a ++ b) m n = substring_between a m n.
Proof.
  intros Hmn Hn. unfold substring_between. apply substring_app. lia.
Qed.

Lemma prefix_cons_inv (a b : ascii) (p x : string) :
  String.prefix (String a p) (String b x) = true ->
  a = b /\ String.prefix p x = true.
Proof. simpl. destruct (ascii_dec a b); [auto | discriminate]. Qed.

(** The two tag literals cannot overlap. *)
Lemma tags_disjoint (s : string) (u t : nat) :
  occurs_at TOOL s u = true -> occurs_at TOLY s t = true ->
  u < t -> u + IDENTIFIER_LENGTH <= t.
Proof.
  intros Hu Ht Hlt. unfold IDENTIFIER_LENGTH.
  destruct (Nat.le_gt_cases (u + 6) t) as [|Hgt]; [assumption|exfalso].
  assert (exists d, t = u + d /\ 1 <= d <= 5) as (d & -> & Hd)
    by (exists (t - u); lia).
  unfold occurs_at, TOOL, TOLY in *. rewrite <- string_drop_drop in Ht.
  destruct (string_drop u s) as [|c1 x]; [discriminate|].
  apply prefix_cons_inv in Hu as [<- Hu].
  destruct x as [|c2 x]; [discriminate|].
  apply prefix_cons_inv in Hu as [<- Hu].
  destruct x as [|c3 x]; [discriminate|].
  apply prefix_cons_inv in Hu as [<- Hu].
  destruct x as [|c4 x]; [discriminate|].
  apply prefix_cons_inv in Hu as [<- Hu].
  destruct x as [|c5 x]; [discriminate|].
  apply prefix_cons_inv in Hu as [<- Hu].
  destruct x as [|c6 x]; [discriminate|].
  apply prefix_cons_inv in Hu as [<- Hu].
  destruct d as [|[|[|[|[|[|d]]]]]]; try lia; vm_compute in Ht; discriminate.
Qed.

(** * A pass on a buffer that grows afterwards *)

Section GrowingBuffer.

Variable identifier : string.
Hypothesis identifier_length : String.length identifier = IDENTIFIER_LENGTH.
Variable process : processor.

Hypothesis process_rawBuffer :
  forall content e st, rawBuffer (process content e st).2 = rawBuffer st.

(** The processors do not read [rawBuffer]. *)
Hypothesis process_set_rawBuffer :
  forall content e st b,
    process content e (set_rawBuffer st b) =
    ((process content e st).1, set_rawBuffer (process content e st).2 b).

Hypothesis process_deferred :
  forall content st st',
    process content false st = (false, st') -> st' = st.

Lemma identifier_nonempty' : identifier <> EmptyString.
Proof. intros ->. discriminate identifier_length. Qed.

Lemma processMessages_loop_unique (isEnd : bool) (f1 f2 : nat)
    (st r1 r2 : session) :
  processMessages_loop f1 identifier process isEnd st = Some r1 ->
  processMessages_loop f2 identifier process isEnd st = Some r2 ->
  r1 = r2.
Proof.
  intros H1 H2.
  apply (processMessages_loop_fuel _ _ _ _ (Nat.max f1 f2)) in H1; [|lia].
  apply (processMessages_loop_fuel _ _ _ _ (Nat.max f1 f2)) in H2; [|lia].
  congruence.
Qed.

(** What the pass has consumed of a buffer it consumes again, in the same
    way, when the buffer has grown in the meantime. *)
Lemma processMessages_loop_extends (c : string) (fuel : nat) (st st' : session) :
  processMessages_loop fuel identifier process false st = Some st' ->
  forall fuel2 r,
    processMessages_loop fuel2 identifier process false (append_chunk st' c)
      = Some r ->
    exists fuel3,
      processMessages_loop fuel3 identifier process false (append_chunk st c)
        = Some r.
Proof.
  revert st. induction fuel as [|fuel IH]; intros st H fuel2 r Hr;
    [discriminate|].
  rewrite processMessages_loop_S in H.
  destruct (indexOf (rawBuffer st) identifier 0) as [p|] eqn:Hi.
  2:{ injection H as <-. eauto. }
  unfold extractMessageContent in H.
  destruct (findNextMessageStart (rawBuffer st) p) as [n|] eqn:Hn.
  2:{ injection H as <-. eauto. }
  pose proof (process_rawBuffer
                (substring_between (rawBuffer st) (p + IDENTIFIER_LENGTH) n)
                false st) as Hb.
  destruct (process _ false st) as [processed s1] eqn:Hp. simpl in Hb.
  destruct processed.
  2:{ simpl in H. injection H as <-.
      apply process_deferred in Hp. subst s1. eauto. }
  destruct (IH _ H fuel2 r Hr) as [fuel3 H3].
  exists (S fuel3). rewrite processMessages_loop_S.
  pose proof (proj1 (findNextMessageStart_Some _ _ _) Hn) as (Hpn & Htag & _).
  apply tag_at_bound in Htag.
  change (rawBuffer (append_chunk st c)) with (rawBuffer st ++ c)%string.
  rewrite (indexOf_app _ _ c _ _ identifier_nonempty' Hi).
  unfold extractMessageContent.
  rewrite (findNextMessageStart_app _ c _ _ Hn).
  rewrite substring_between_app by lia.
  unfold append_chunk at 1.
  rewrite process_set_rawBuffer, Hp. cbn [fst snd rawBuffer set_rawBuffer].
  unfold substring_from. rewrite string_drop_app by lia.
  revert H3. unfold append_chunk, substring_from. simpl. rewrite Hb.
  auto.
Qed.

Lemma processMessages_extends (c : string) (st st' : session) :
  processMessages identifier process false st = Some st' ->
  processMessages identifier process false (append_chunk st' c) =
  processMessages identifier process false (append_chunk st c).
Proof.
  intros H.
  destruct (processMessages_total identifier identifier_nonempty' process false
              process_rawBuffer (append_chunk st' c)) as [r Hr].
  destruct (processMessages_total identifier identifier_nonempty' process false
              process_rawBuffer (append_chunk st c)) as [r' Hr'].
  rewrite Hr, Hr'. f_equal.
  destruct (processMessages_loop_extends c _ _ _ H _ _ Hr) as [fuel3 H3].
  eapply processMessages_loop_unique; eauto.
Qed.

(** Before end of stream a pass either changes nothing or cuts the buffer
    behind the first tag of its kind. *)
Lemma processMessages_loop_progress (fuel : nat) (st st' : session) :
  processMessages_loop fuel identifier process false st = Some st' ->
  st' = st \/
  exists t n,
    indexOf (rawBuffer st) identifier 0 = Some t /\
    t + IDENTIFIER_LENGTH <= n /\
    n <= String.length (rawBuffer st) /\
    rawBuffer st' = string_drop n (rawBuffer st).
Proof.
  revert st. induction fuel as [|fuel IH]; intros st H; [discriminate|].
  rewrite processMessages_loop_S in H.
  destruct (indexOf (rawBuffer st) identifier 0) as [p|] eqn:Hi.
  2:{ injection H as <-. now left. }
  unfold extractMessageContent in H.
  destruct (findNextMessageStart (rawBuffer st) p) as [n|] eqn:Hn.
  2:{ injection H as <-. now left. }
  pose proof (process_rawBuffer
                (substring_between (rawBuffer st) (p + IDENTIFIER_LENGTH) n)
                false st) as Hb.
  destruct (process _ false st) as [processed s1] eqn:Hp. simpl in Hb.
  destruct processed.
  2:{ simpl in H. injection H as <-.
      apply process_deferred in Hp. now left. }
  right. exists p.
  pose proof (proj1 (findNextMessageStart_Some _ _ _) Hn) as (Hpn & Htag & _).
  apply tag_at_bound in Htag.
  apply IH in H. simpl in H. unfold substring_from in H. rewrite Hb in H.
  destruct H as [-> | (t' & n' & _ & _ & Hn' & Hs)].
  - exists n. simpl. repeat split; lia.
  - rewrite string_drop_length in Hn'. exists (n + n').
    rewrite Hs, string_drop_drop. repeat split; lia.
Qed.

(** A pass that has stopped stays stopped when the buffer grows, provided
    every tag of its kind in the grown buffer is followed by a tag that had
    already arrived. *)
Lemma processMessages_stays_deferred (c : string) (st : session) :
  processMessages_loop 1 identifier process false st = Some st ->
  (forall u, occurs_at identifier (rawBuffer st ++ c) u = true ->
             exists q, u + IDENTIFIER_LENGTH <= q /\ tag_at (rawBuffer st) q = true) ->
  processMessages identifier process false (append_chunk st c) =
  Some (append_chunk st c).
Proof.
  intros Hstop Hall. unfold processMessages.
  rewrite processMessages_loop_S.
  change (rawBuffer (append_chunk st c)) with (rawBuffer st ++ c)%string.
  destruct (indexOf (rawBuffer st ++ c) identifier 0) as [u|] eqn:Hi;
    [|reflexivity].
  pose proof (proj1 (indexOf_Some _ identifier_nonempty' _ _ _) Hi)
    as (_ & Hocc & _).
  destruct (Hall u Hocc) as (q & Huq & Hq).
  pose proof (tag_at_bound _ _ Hq) as Hqb.
  apply indexOf_app_inv in Hi;
    [| exact identifier_nonempty' | rewrite identifier_length; lia].
  destruct (findNextMessageStart (rawBuffer st) u) as [n|] eqn:Hn.
  2:{ rewrite findNextMessageStart_None in Hn.
      rewrite Hn in Hq by lia. discriminate. }
  pose proof (proj1 (findNextMessageStart_Some _ _ _) Hn) as (Hun & Htag & _).
  apply tag_at_bound in Htag.
  rewrite processMessages_loop_S, Hi in Hstop.
  unfold extractMessageContent in *. rewrite Hn in Hstop.
  rewrite (findNextMessageStart_app _ c _ _ Hn).
  rewrite substring_between_app by lia.
  unfold append_chunk at 1. rewrite process_set_rawBuffer.
  destruct (process _ false st) as [processed s1]; destruct processed;
    [discriminate|].
  simpl in Hstop. injection Hstop as ->. reflexivity.
Qed.

(** The log is not read either: sessions that differ in the log only are
    treated alike. *)
Hypothesis process_visible :
  forall content e st1 st2,
    visible st1 = visible st2 ->
    (process content e st1).1 = (process content e st2).1 /\
    visible (process content e st1).2 = visible (process content e st2).2.

Lemma visible_rawBuffer (st1 st2 : session) :
  visible st1 = visible st2 -> rawBuffer st1 = rawBuffer st2.
Proof. unfold visible. congruence. Qed.

Lemma visible_set_rawBuffer (st1 st2 : session) (b : string) :
  visible st1 = visible st2 ->
  visible (set_rawBuffer st1 b) = visible (set_rawBuffer st2 b).
Proof. unfold visible. simpl. congruence. Qed.

Lemma processMessages_loop_visible (isEnd : bool) (fuel : nat)
    (st1 st2 r1 : session) :
  visible st1 = visible st2 ->
  processMessages_loop fuel identifier process isEnd st1 = Some r1 ->
  exists r2,
    processMessages_loop fuel identifier process isEnd st2 = Some r2 /\
    visible r1 = visible r2.
Proof.
  revert st1 st2. induction fuel as [|fuel IH]; intros st1 st2 Hv H;
    [discriminate|].
  rewrite processMessages_loop_S in *.
  rewrite <- (visible_rawBuffer _ _ Hv).
  destruct (indexOf (rawBuffer st1) identifier 0) as [p|].
  2:{ injection H as <-. eauto. }
  destruct (extractMessageContent (rawBuffer st1) p) as [content next].
  destruct (match next with None => negb isEnd | Some _ => false end).
  { injection H as <-. eauto. }
  destruct (process_visible content isEnd _ _ Hv) as [Hflag Hv1].
  pose proof (process_rawBuffer content isEnd st1) as Hb1.
  pose proof (process_rawBuffer content isEnd st2) as Hb2.
  destruct (process content isEnd st1) as [f1 s1].
  destruct (process content isEnd st2) as [f2 s2].
  simpl in *. subst f2.
  rewrite Hb2, <- (visible_rawBuffer _ _ Hv), <- Hb1.
  destruct f1; [eapply IH; [|exact H]; now apply visible_set_rawBuffer|].
  destruct (negb isEnd); [injection H as <-; eauto|].
  eapply IH; [|exact H]. now apply visible_set_rawBuffer.
Qed.

Lemma processMessages_visible (isEnd : bool) (st1 st2 r1 : session) :
  visible st1 = visible st2 ->
  processMessages identifier process isEnd st1 = Some r1 ->
  exists r2,
    processMessages identifier process isEnd st2 = Some r2 /\
    visible r1 = visible r2.
Proof.
  intros Hv. unfold processMessages.
  rewrite <- (visible_rawBuffer _ _ Hv).
  now apply processMessages_loop_visible.
Qed.

End GrowingBuffer.

Lemma tools_first_spec (s : string) :
  tools_first s = true <->
  forall i j, occurs_at TOLY s i = true -> occurs_at TOOL s j = true -> j < i.
Proof.
  unfold tools_first. split.
  - intros H i j Hi Hj.
    destruct (indexOf s TOLY 0) as [t|] eqn:Ht.
    + destruct (indexOf s TOOL t) eqn:Hu; [discriminate|].
      apply (indexOf_Some _ TOLY_nonempty) in Ht. destruct Ht as (_ & _ & Hmin).
      pose proof (proj1 (indexOf_None _ TOOL_nonempty _ _) Hu) as Hno.
      destruct (Nat.lt_ge_cases j t) as [Hjt|Hjt].
      * destruct (Nat.lt_ge_cases i t) as [Hit|Hit]; [|lia].
        rewrite Hmin in Hi by lia. discriminate.
      * rewrite Hno in Hj by lia. discriminate.
    + rewrite (proj1 (indexOf_None _ TOLY_nonempty _ _) Ht) in Hi by lia.
      discriminate.
  - intros H. destruct (indexOf s TOLY 0) as [t|] eqn:Ht; [|reflexivity].
    destruct (indexOf s TOOL t) as [u|] eqn:Hu; [|reflexivity].
    apply (indexOf_Some _ TOLY_nonempty) in Ht. destruct Ht as (_ & Ht & _).
    apply (indexOf_Some _ TOOL_nonempty) in Hu. destruct Hu as (Hle & Hu & _).
    specialize (H t u Ht Hu). lia.
Qed.

Lemma tools_first_drop (s : string) (n : nat) :
  tools_first s = true -> tools_first (string_drop n s) = true.
Proof.
  rewrite !tools_first_spec. intros H i j Hi Hj.
  rewrite occurs_at_drop in Hi, Hj. specialize (H _ _ Hi Hj). lia.
Qed.

(** Case analysis on what a processor inspects, leaving the session alone. *)
Ltac destruct_inspected :=
  repeat match goal with
         | |- context [match ?x with _ => _ end] =>
             lazymatch type of x with
             | completion session => fail
             | _ => destruct x
             end
         end.

Section Chunking.

Variable JSON_parse : string -> option jsval.
Variable JSON_stringify : jsval -> string.

Lemma processToolMessage_set_rawBuffer (content : string) (e : bool)
    (st : session) (b : string) :
  processToolMessage JSON_parse JSON_stringify content e (set_rawBuffer st b) =
  ((processToolMessage JSON_parse JSON_stringify content e st).1,
   set_rawBuffer (processToolMessage JSON_parse JSON_stringify content e st).2 b).
Proof.
  unfold processToolMessage, tool_try, cbind.
  destruct (js_JSON_parse JSON_parse (trim content)); [|now destruct e].
  destruct (toolKey_of JSON_stringify a); [|now destruct e].
  simpl. now case_bool_decide.
Qed.

Lemma processTolyMessage_set_rawBuffer (content : string) (e : bool)
    (st : session) (b : string) :
  processTolyMessage JSON_parse content e (set_rawBuffer st b) =
  ((processTolyMessage JSON_parse content e st).1,
   set_rawBuffer (processTolyMessage JSON_parse content e st).2 b).
Proof.
  unfold processTolyMessage, toly_try, cbind.
  destruct_inspected; reflexivity.
Qed.

Lemma processToolMessage_visible (content : string) (e : bool)
    (st1 st2 : session) :
  visible st1 = visible st2 ->
  (processToolMessage JSON_parse JSON_stringify content e st1).1 =
  (processToolMessage JSON_parse JSON_stringify content e st2).1 /\
  visible (processToolMessage JSON_parse JSON_stringify content e st1).2 =
  visible (processToolMessage JSON_parse JSON_stringify content e st2).2.
Proof.
  intros Hv. pose proof Hv as Hv'. unfold visible in Hv'.
  injection Hv' as H1 H2 H3 H4 H5.
  unfold processToolMessage, tool_try, cbind.
  destruct (js_JSON_parse JSON_parse (trim content)); [|now destruct e].
  destruct (toolKey_of JSON_stringify a); [|now destruct e].
  rewrite H3. case_bool_decide; simpl; [auto|].
  split; [reflexivity|]. unfold visible. simpl. congruence.
Qed.

Lemma processTolyMessage_visible (content : string) (e : bool)
    (st1 st2 : session) :
  visible st1 = visible st2 ->
  (processTolyMessage JSON_parse content e st1).1 =
  (processTolyMessage JSON_parse content e st2).1 /\
  visible (processTolyMessage JSON_parse content e st1).2 =
  visible (processTolyMessage JSON_parse content e st2).2.
Proof.
  intros Hv. pose proof Hv as Hv'. unfold visible in Hv'.
  injection Hv' as H1 H2 H3 H4 H5.
  unfold processTolyMessage, toly_try, cbind.
  destruct_inspected; simpl; try (split; [reflexivity | exact Hv]);
    (split; [reflexivity|]); unfold visible; simpl; congruence.
Qed.

Lemma processBufferedData_visible (isEnd : bool) (st1 st2 r1 : session) :
  visible st1 = visible st2 ->
  processBufferedData JSON_parse JSON_stringify isEnd st1 = Some r1 ->
  exists r2,
    processBufferedData JSON_parse JSON_stringify isEnd st2 = Some r2 /\
    visible r1 = visible r2.
Proof.
  intros Hv H. unfold processBufferedData in *.
  destruct (processMessages TOOL _ isEnd st1) as [s1|] eqn:H1; [|discriminate].
  simpl in H.
  destruct (processMessages_visible TOOL _
              (processToolMessage_rawBuffer JSON_parse JSON_stringify)
              processToolMessage_visible isEnd _ _ _ Hv H1) as (s2 & -> & Hv1).
  simpl.
  exact (processMessages_visible TOLY _
           (processTolyMessage_rawBuffer JSON_parse)
           processTolyMessage_visible isEnd _ _ _ Hv1 H).
Qed.

Lemma on_end_visible (st1 st2 r1 : session) :
  visible st1 = visible st2 ->
  on_end JSON_parse JSON_stringify st1 = Some r1 ->
  exists r2,
    on_end JSON_parse JSON_stringify st2 = Some r2 /\ visible r1 = visible r2.
Proof.
  intros Hv H. unfold on_end in *.
  destruct (processBufferedData _ _ true st1) as [s1|] eqn:H1; [|discriminate].
  destruct (processBufferedData_visible _ _ _ _ Hv H1) as (s2 & -> & Hv1).
  simpl in *. injection H as <-. eexists. split; [reflexivity|].
  unfold visible in *. simpl. injection Hv1 as E1 E2 E3 E4 E5. congruence.
Qed.

(** A pass leaves a suffix of the buffer it found. *)
Lemma processBufferedData_suffix (st s2 : session) :
  processBufferedData JSON_parse JSON_stringify false st = Some s2 ->
  exists n, n <= String.length (rawBuffer st) /\
            rawBuffer s2 = string_drop n (rawBuffer st).
Proof.
  unfold processBufferedData. intros H.
  destruct (processMessages TOOL _ false st) as [s1|] eqn:H1; [|discriminate].
  simpl in H.
  apply (processMessages_loop_progress TOOL eq_refl _
           (processToolMessage_rawBuffer JSON_parse JSON_stringify)
           (processToolMessage_deferred JSON_parse JSON_stringify)) in H1.
  apply (processMessages_loop_progress TOLY eq_refl _
           (processTolyMessage_rawBuffer JSON_parse)
           (processTolyMessage_deferred JSON_parse)) in H.
  assert (exists n1, n1 <= String.length (rawBuffer st) /\
                     rawBuffer s1 = string_drop n1 (rawBuffer st))
    as (n1 & Hn1 & Hs1).
  { destruct H1 as [-> | (_ & n & _ & _ & Hn & Hs)]; [exists 0|exists n]; auto with lia. }
  destruct H as [-> | (_ & n & _ & _ & Hn & Hs)]; [eauto|].
  rewrite Hs1, string_drop_length in Hn.
  exists (n1 + n). split; [lia|]. now rewrite Hs, Hs1, string_drop_drop.
Qed.

(** The pass after a chunk has arrived does not depend on the pass that ran
    before the chunk arrived, as long as no Tool tag follows a Toly tag. *)
Lemma processBufferedData_extends (st s2 : session) (c : string) :
  tools_first (rawBuffer st ++ c) = true ->
  processBufferedData JSON_parse JSON_stringify false st = Some s2 ->
  processBufferedData JSON_parse JSON_stringify false (append_chunk s2 c) =
  processBufferedData JSON_parse JSON_stringify false (append_chunk st c).
Proof.
  intros Htf H. unfold processBufferedData in *.
  destruct (processMessages TOOL _ false st) as [s1|] eqn:H1; [|discriminate].
  simpl in H.
  rewrite <- (processMessages_extends TOOL eq_refl _
                (processToolMessage_rawBuffer JSON_parse JSON_stringify)
                processToolMessage_set_rawBuffer
                (processToolMessage_deferred JSON_parse JSON_stringify)
                c st s1 H1).
  destruct (processMessages_loop_progress TOLY eq_refl _
              (processTolyMessage_rawBuffer JSON_parse)
              (processTolyMessage_deferred JSON_parse) _ _ _ H)
    as [-> | (t & n & Hi & Htn & Hn & Hs)]; [reflexivity|].
  assert (tools_first (rawBuffer s1 ++ c) = true) as Htf1.
  { destruct (processMessages_loop_progress TOOL eq_refl _
                (processToolMessage_rawBuffer JSON_parse JSON_stringify)
                (processToolMessage_deferred JSON_parse JSON_stringify) _ _ _ H1)
      as [-> | (_ & n1 & _ & _ & Hn1 & Hs1)]; [exact Htf|].
    rewrite Hs1, <- string_drop_app by exact Hn1. now apply tools_first_drop. }
  pose proof (proj1 (tools_first_spec _) Htf1) as Hspec.
  apply (indexOf_Some _ TOLY_nonempty) in Hi. destruct Hi as (_ & Ht & _).
  assert (processMessages TOOL (processToolMessage JSON_parse JSON_stringify)
            false (append_chunk s1 c) = Some (append_chunk s1 c)) as HT1.
  { apply (processMessages_stays_deferred TOOL eq_refl _
             processToolMessage_set_rawBuffer).
    - eapply processMessages_loop_exhausts; [|exact H1].
      apply processToolMessage_deferred.
    - intros u Hu. exists t. split.
      + apply (tags_disjoint (rawBuffer s1 ++ c)); [exact Hu | |].
        * now apply occurs_at_app.
        * apply Hspec; [now apply occurs_at_app | exact Hu].
      + unfold tag_at. rewrite Ht. apply orb_true_r. }
  assert (processMessages TOOL (processToolMessage JSON_parse JSON_stringify)
            false (append_chunk s2 c) = Some (append_chunk s2 c)) as HT2.
  { apply processMessages_no_tag. apply (indexOf_None _ TOOL_nonempty).
    intros k _. change (rawBuffer (append_chunk s2 c)) with (rawBuffer s2 ++ c)%string.
    rewrite Hs, <- string_drop_app by exact Hn. rewrite occurs_at_drop.
    destruct (occurs_at TOOL (rawBuffer s1 ++ c) (n + k)) eqn:Ho; [|reflexivity].
    assert (n + k < t); [|unfold IDENTIFIER_LENGTH in Htn; lia].
    apply Hspec; [now apply occurs_at_app | exact Ho]. }
  rewrite HT1, HT2. simpl.
  apply (processMessages_extends TOLY eq_refl _
           (processTolyMessage_rawBuffer JSON_parse)
           processTolyMessage_set_rawBuffer
           (processTolyMessage_deferred JSON_parse)
           c s1 s2 H).
Qed.

Lemma on_data_merge (c1 c2 : string) (st s1 r : session) :
  tools_first (rawBuffer st ++ c1 ++ c2) = true ->
  on_data JSON_parse JSON_stringify c1 st = Some s1 ->
  on_data JSON_parse JSON_stringify c2 s1 = Some r ->
  exists r',
    on_data JSON_parse JSON_stringify (c1 ++ c2) st = Some r' /\
    visible r = visible r'.
Proof.
  unfold on_data. intros Htf H1 H2.
  change (set_rawBuffer (logger st (LogRawChunk c1))
            (rawBuffer (logger st (LogRawChunk c1)) ++ c1))
    with (append_chunk (logger st (LogRawChunk c1)) c1) in H1.
  (* the second pass, with the log entry of the second chunk left out *)
  destruct (processBufferedData_visible false
              (set_rawBuffer (logger s1 (LogRawChunk c2))
                 (rawBuffer (logger s1 (LogRawChunk c2)) ++ c2))
              (append_chunk s1 c2) r eq_refl H2) as (r0 & H0 & Hv0).
  assert (tools_first
            (rawBuffer (append_chunk (logger st (LogRawChunk c1)) c1) ++ c2)
          = true) as Htf'.
  { simpl. now rewrite string_app_assoc. }
  rewrite (processBufferedData_extends _ _ c2 Htf' H1) in H0.
  destruct (processBufferedData_visible false
              (append_chunk (append_chunk (logger st (LogRawChunk c1)) c1) c2)
              (set_rawBuffer (logger st (LogRawChunk (c1 ++ c2)))
                 (rawBuffer (logger st (LogRawChunk (c1 ++ c2))) ++ (c1 ++ c2)))
              r0) as (r' & Hr' & Hv'); [| exact H0 |].
  - unfold visible, append_chunk. simpl. now rewrite string_app_assoc.
  - exists r'. split; [exact Hr' | congruence].
Qed.

Lemma feed_merge (chunks : list string) (c : string) (st r : session) :
  tools_first (rawBuffer st ++ c ++ whole_stream chunks) = true ->
  feed JSON_parse JSON_stringify (c :: chunks) st = Some r ->
  exists r',
    on_data JSON_parse JSON_stringify (c ++ whole_stream chunks) st = Some r' /\
    visible r = visible r'.
Proof.
  revert c st r. induction chunks as [|c' rest IH]; intros c st r Htf H.
  - simpl in *. rewrite string_app_nil_r.
    destruct (on_data _ _ c st) as [s1|]; [|discriminate].
    simpl in H. eauto.
  - change (feed JSON_parse JSON_stringify (c :: c' :: rest) st)
      with (s1 ← on_data JSON_parse JSON_stringify c st;
            feed JSON_parse JSON_stringify (c' :: rest) s1) in H.
    destruct (on_data JSON_parse JSON_stringify c st) as [s1|] eqn:H1;
      [|discriminate].
    simpl in H.
    change (whole_stream (c' :: rest)) with (c' ++ whole_stream rest)%string in *.
    assert (tools_first (rawBuffer s1 ++ c' ++ whole_stream rest) = true) as Htf1.
    { unfold on_data in H1. apply processBufferedData_suffix in H1.
      destruct H1 as (n & Hn & ->). simpl in *.
      rewrite <- string_drop_app by exact Hn.
      apply tools_first_drop. now rewrite string_app_assoc. }
    destruct (IH _ _ _ Htf1 H) as (r1 & Hr1 & Hv1).
    destruct (on_data_merge c (c' ++ whole_stream rest) _ _ _ Htf H1 Hr1)
      as (r' & Hr' & Hv').
    exists r'. split; [exact Hr' | congruence].
Qed.

(** X14.  When no Tool tag starts at or after the first Toly tag of the
    complete stream, every way of cutting its text into chunks gives the
    same session as delivering it in one chunk: both runs complete, and
    they emit the same events in the same order, with the same
    transcript, the same set of processed tools and the same buffer; only
    the log of raw chunks differs. *)
Theorem chunking_invariance (chunks : list string) :
  tools_first (whole_stream chunks) = true ->
  exists st1 st2,
    run JSON_parse JSON_stringify chunks = Some st1 /\
    run JSON_parse JSON_stringify [whole_stream chunks] = Some st2 /\
    emitted st1 = emitted st2 /\
    visible st1 = visible st2.
Proof.
  intros Htf.
  destruct (run_total JSON_parse JSON_stringify chunks) as [st1 H1].
  exists st1. unfold run in *.
  destruct (feed JSON_parse JSON_stringify chunks new_session) as [s1|] eqn:Hf;
    [|discriminate].
  simpl in H1.
  assert (exists s2,
            on_data JSON_parse JSON_stringify (whole_stream chunks) new_session
              = Some s2 /\ visible s1 = visible s2) as (s2 & Hs2 & Hv).
  { destruct chunks as [|c rest].
    - injection Hf as <-. eexists. split; reflexivity.
    - apply feed_merge; [exact Htf | exact Hf]. }
  destruct (on_end_visible _ _ _ Hv H1) as (st2 & H2 & Hv2).
  exists st2. simpl. rewrite Hs2. simpl.
  repeat split; [exact H1 | exact H2 | | exact Hv2].
  unfold visible in Hv2. congruence.
Qed.

Lemma on_data_visible (text : string) (st1 st2 r1 : session) :
  visible st1 = visible st2 ->
  on_data JSON_parse JSON_stringify text st1 = Some r1 ->
  exists r2,
    on_data JSON_parse JSON_stringify text st2 = Some r2 /\
    visible r1 = visible r2.
Proof.
  intros Hv. unfold on_data. apply processBufferedData_visible.
  unfold visible in *. simpl. injection Hv as E1 E2 E3 E4 E5. congruence.
Qed.

End Chunking.

Lemma chunking_invariance_witness :
  exists st1 st2,
    run_json example_chunks = Some st1 /\
    run_json [whole_stream example_chunks] = Some st2 /\
    emitted st1 = emitted st2 /\
    visible st1 = visible st2.
Proof.
  apply (chunking_invariance MiniJSON.parse MiniJSON.stringify example_chunks).
  vm_compute. reflexivity.
Defined.

(** The example of the specification: the tool notice is cut in two by the
    chunk boundary. *)
Example example_run :
  emitted <$> run_json example_chunks =
  Some [ToolEvent search_notice; ContentDelta "Hi"; ContentComplete "Hi"].
Proof. vm_compute. reflexivity. Qed.
(** * Runs on concrete streams *)

(** C1.  One stream, delivered whole and delivered in two chunks, emits
    different events.  Whole, the Tool pass consumes the tool notice first
    and cuts the buffer at the tag that follows it, which discards the
    complete, decodable model frame in front of the notice: its delta is
    never emitted and is missing from the transcript.  Split after the
    Tool tag, that model frame is processed before the notice is
    complete, and nothing is lost. *)
Lemma chunking_changes_events :
  let whole :=
    (TOLY ++ model_body "A" ++ TOOL ++ tool_body ++ TOLY ++ model_body "C")%string in
  let first := (TOLY ++ model_body "A" ++ TOOL)%string in
  let second := (tool_body ++ TOLY ++ model_body "C")%string in
  (first ++ second)%string = whole /\
  emitted <$> run_json [whole] =
    Some [ToolEvent search_notice; ContentDelta "C"; ContentComplete "C"] /\
  emitted <$> run_json [first; second] =
    Some [ContentDelta "A"; ToolEvent search_notice; ContentDelta "C";
          ContentComplete "AC"] /\
  emitted <$> run_json [first; second] <> emitted <$> run_json [whole].
Proof. vm_compute. repeat split. discriminate. Qed.

(** Within the pass of its own kind a frame that the processor defers stops
    the loop and leaves the session as it was. *)
Lemma processMessages_defers (identifier : string) (process : processor)
    (st : session) (msgStart next : nat) :
  indexOf (rawBuffer st) identifier 0 = Some msgStart ->
  findNextMessageStart (rawBuffer st) msgStart = Some next ->
  process (substring_between (rawBuffer st) (msgStart + IDENTIFIER_LENGTH) next)
    false st = (false, st) ->
  processMessages identifier process false st = Some st.
Proof.
  intros Hi Hn Hp. unfold processMessages.
  rewrite processMessages_loop_S, Hi. unfold extractMessageContent.
  rewrite Hn, Hp. reflexivity.
Qed.

(** C2.  A complete Tool frame whose body does not decode, followed by a
    complete model frame, all in one chunk and before end of stream.  The
    Tool pass defers the frame and leaves the buffer untouched; the Toly
    pass of the same ['data'] event then cuts the buffer at the tag after
    the model frame, which removes the deferred Tool frame.  At end of
    stream nothing is left of it: no tool failure is ever logged. *)
Theorem deferred_frame_removed_mid_stream :
  let chunk := json "Tool :{Toly :{}Toly :" in
  let st0 := set_rawBuffer new_session chunk in
  findNextMessageStart chunk 0 = Some 7 /\
  MiniJSON.parse (trim (substring_between chunk 6 7)) = None /\
  processMessages TOOL (processToolMessage MiniJSON.parse MiniJSON.stringify)
    false st0 = Some st0 /\
  rawBuffer <$> on_data MiniJSON.parse MiniJSON.stringify chunk new_session
    = Some "Toly :" /\
  logged <$> run_json [chunk] =
    Some [LogRawChunk chunk; LogTolyFailure SyntaxError EmptyString;
          LogCompleteContent EmptyString].
Proof. vm_compute. repeat split. Qed.

Section ModelFrames.

Variable JSON_parse : string -> option jsval.

(** A body that decodes to an object whose [event] is not the streaming
    marker is consumed without effect. *)
Lemma processTolyMessage_other_event (content : string) (isEnd : bool)
    (st : session) (props : list (string * jsval)) :
  JSON_parse content = Some (JObj props) ->
  strict_eq_str
    (match own_prop "event" props with Some x => x | None => JUndefined end)
    "on_chat_model_stream" = false ->
  processTolyMessage JSON_parse content isEnd st = (true, st).
Proof.
  intros Hp He. unfold processTolyMessage, toly_try, js_JSON_parse.
  rewrite Hp. simpl. rewrite He. reflexivity.
Qed.

(** A body that decodes to [null] makes the property read throw; before
    end of stream the frame is reported as not processed. *)
Lemma processTolyMessage_null (content : string) (st : session) :
  JSON_parse content = Some JNull ->
  processTolyMessage JSON_parse content false st = (false, st).
Proof.
  intros Hp. unfold processTolyMessage, toly_try, js_JSON_parse.
  rewrite Hp. reflexivity.
Qed.

(** So does a body that passes the filter and has no [data] property:
    [parsedData.data.chunk] reads a property of [undefined]. *)
Lemma processTolyMessage_no_data (content : string) (st : session)
    (props : list (string * jsval)) :
  JSON_parse content = Some (JObj props) ->
  own_prop "event" props = Some (JStr "on_chat_model_stream") ->
  own_prop "metadata" props = Some (JObj [("langgraph_node", JStr "Toly")]) ->
  own_prop "data" props = None ->
  processTolyMessage JSON_parse content false st = (false, st).
Proof.
  intros Hp He Hm Hd. unfold processTolyMessage, toly_try, js_JSON_parse.
  rewrite Hp. simpl. rewrite He, Hm, Hd. reflexivity.
Qed.

End ModelFrames.

(** C7.  A model frame body that decodes as JSON and passes the filter, but
    has no [data] property: before end of stream [processTolyMessage]
    answers "not processed", as it does for a body that fails to decode. *)
Theorem decoded_model_frame_not_processed :
  let body :=
    json "{'event':'on_chat_model_stream','metadata':{'langgraph_node':'Toly'}}" in
  MiniJSON.parse body =
    Some (JObj [("event", JStr "on_chat_model_stream");
                ("metadata", JObj [("langgraph_node", JStr "Toly")])]) /\
  processTolyMessage MiniJSON.parse body false new_session = (false, new_session) /\
  MiniJSON.parse "null" = Some JNull /\
  processTolyMessage MiniJSON.parse "null" false new_session = (false, new_session).
Proof. vm_compute. repeat split. Qed.

(** C3.  A stream with two identical tool notices and no tool event: the
    first Tool frame does not decode and is deferred, the two notices wait
    behind it, and the Toly pass then cuts the buffer behind all three Tool
    frames.  At end of stream only the terminal event is emitted. *)
Theorem identical_notices_without_event :
  let stream :=
    (json "Tool :{" ++ TOOL ++ tool_body ++ TOOL ++ tool_body
     ++ json "Toly :{}Toly :")%string in
  MiniJSON.parse (trim tool_body) = Some search_notice /\
  emitted <$> run_json [stream] = Some [ContentComplete EmptyString].
Proof. vm_compute. repeat split. Qed.



(** * Frames *)

Lemma substring_length_le (lo len : nat) (s : string) :
  String.length (String.substring lo len s) <= len.
Proof.
  revert lo len. induction s as [|c s IH]; intros lo len.
  - destruct lo, len; simpl; lia.
  - destruct lo as [|lo]; destruct len as [|len]; simpl; try lia.
    + specialize (IH 0 len). lia.
    + apply IH.
    + apply IH.
Qed.

(** A slice, followed by what comes after it, is the text from its start. *)
Lemma string_drop_substring (lo len : nat) (s : string) :
  lo + len <= String.length s ->
  string_drop lo s = (String.substring lo len s ++ string_drop (lo + len) s)%string.
Proof.
  revert lo len. induction s as [|c s IH]; intros lo len H.
  - simpl in H. assert (lo = 0) as -> by lia. assert (len = 0) as -> by lia.
    reflexivity.
  - destruct lo as [|lo].
    + destruct len as [|len]; [reflexivity|].
      change (String c s = String c (String.substring 0 len s
                                     ++ string_drop (0 + len) s)).
      f_equal. simpl in H. apply (IH 0 len). lia.
    + change (string_drop lo s =
              (String.substring lo len s ++ string_drop (lo + len) s)%string).
      apply IH. simpl in H. lia.
Qed.

Lemma prefix_split (p s : string) :
  String.prefix p s = true ->
  s = (p ++ string_drop (String.length p) s)%string.
Proof.
  revert s. induction p as [|a p IH]; intros s H; [reflexivity|].
  destruct s as [|b s]; [discriminate|].
  apply prefix_cons_inv in H as [<- H].
  change (String a s = String a (p ++ string_drop (String.length p) s)).
  f_equal. now apply IH.
Qed.

Lemma substring_between_slice (s : string) (lo hi : nat) :
  lo <= hi -> substring_between s lo hi = String.substring lo (hi - lo) s.
Proof.
  intros H. unfold substring_between.
  now rewrite Nat.min_l, Nat.max_r by lia.
Qed.

(** X1.  No tag literal lies inside a frame body: the body ends where the
    next tag starts, or runs to the end of a buffer that holds no further
    tag. *)
Theorem frame_body_has_no_tag (buf : string) (startPos k : nat) :
  tag_at (extractMessageContent buf startPos).1 k = false.
Proof.
  unfold extractMessageContent. simpl.
  destruct (findNextMessageStart buf startPos) as [n|] eqn:Hn.
  - apply findNextMessageStart_Some in Hn. destruct Hn as (Hle & Htag & Hmin).
    apply tag_at_bound in Htag.
    rewrite substring_between_slice by exact Hle.
    destruct (tag_at (String.substring _ _ buf) k) eqn:Hk; [|reflexivity].
    pose proof (tag_at_bound _ _ Hk) as Hb.
    pose proof (substring_length_le (startPos + IDENTIFIER_LENGTH)
                  (n - (startPos + IDENTIFIER_LENGTH)) buf) as Hlen.
    apply (tag_at_app _ (string_drop n buf)) in Hk.
    replace n with (startPos + IDENTIFIER_LENGTH
                    + (n - (startPos + IDENTIFIER_LENGTH))) in Hk at 2 by lia.
    rewrite <- string_drop_substring in Hk by lia.
    rewrite tag_at_drop in Hk.
    rewrite Hmin in Hk; [discriminate | lia |].
    unfold IDENTIFIER_LENGTH in *. lia.
  - rewrite findNextMessageStart_None in Hn.
    unfold substring_from. rewrite tag_at_drop. apply Hn. lia.
Qed.

(** X2.  Cutting a frame out of the buffer: from the tag on, the buffer is
    the tag, the frame body and the part that [processMessages] keeps, in
    this order. What a consumed frame takes away is the tag, the body and
    whatever stood in front of the tag. *)
Theorem frame_slicing (buf identifier : string) (msgStart : nat) :
  String.length identifier = IDENTIFIER_LENGTH ->
  indexOf buf identifier 0 = Some msgStart ->
  substring_from buf msgStart =
  (identifier ++ (extractMessageContent buf msgStart).1 ++
   match (extractMessageContent buf msgStart).2 with
   | Some nextMsgStart => substring_from buf nextMsgStart
   | None => EmptyString
   end)%string.
Proof.
  intros Hlen Hi.
  assert (identifier <> EmptyString) as Hne by (intros ->; discriminate).
  apply (indexOf_Some _ Hne) in Hi. destruct Hi as (_ & Hocc & _).
  unfold occurs_at in Hocc. apply prefix_split in Hocc.
  rewrite string_drop_drop, Hlen in Hocc.
  unfold substring_from, extractMessageContent. simpl.
  rewrite Hocc at 1. f_equal.
  destruct (findNextMessageStart buf msgStart) as [n|] eqn:Hn.
  - apply findNextMessageStart_Some in Hn. destruct Hn as (Hle & Htag & _).
    apply tag_at_bound in Htag.
    rewrite substring_between_slice by exact Hle.
    rewrite (string_drop_substring _ (n - (msgStart + IDENTIFIER_LENGTH))) by lia.
    do 2 f_equal. lia.
  - unfold substring_from. now rewrite string_app_nil_r.
Qed.

Lemma frame_slicing_witness :
  substring_from "xxTool :{}Toly :rest" 2 =
  (TOOL ++ (extractMessageContent "xxTool :{}Toly :rest" 2).1 ++
   match (extractMessageContent "xxTool :{}Toly :rest" 2).2 with
   | Some nextMsgStart => substring_from "xxTool :{}Toly :rest" nextMsgStart
   | None => EmptyString
   end)%string.
Proof.
  exact (frame_slicing "xxTool :{}Toly :rest" TOOL 2 eq_refl eq_refl).
Defined.


(** * Bounds and invariants of a session *)

Section Potential.

Variable identifier : string.
Hypothesis identifier_length : String.length identifier = IDENTIFIER_LENGTH.
Variable process : processor.
Variable isEnd : bool.

Hypothesis process_rawBuffer :
  forall content e st, rawBuffer (process content e st).2 = rawBuffer st.

(** A processor call emits at most one event. *)
Hypothesis process_emits_one :
  forall content e st,
    length (emitted (process content e st).2) <= S (length (emitted st)).

Hypothesis process_deferred :
  forall content st st',
    process content false st = (false, st') -> st' = st.

(** Each frame that the loop consumes takes at least the six characters of
    its tag out of the buffer and adds at most one event. *)
Lemma processMessages_loop_potential (fuel : nat) (st st' : session) :
  processMessages_loop fuel identifier process isEnd st = Some st' ->
  6 * length (emitted st') + String.length (rawBuffer st') <=
  6 * length (emitted st) + String.length (rawBuffer st).
Proof.
  assert (identifier <> EmptyString) as Hne by (intros ->; discriminate).
  revert st. induction fuel as [|fuel IH]; intros st H; [discriminate|].
  rewrite processMessages_loop_S in H.
  destruct (indexOf (rawBuffer st) identifier 0) as [p|] eqn:Hi.
  2:{ injection H as <-. lia. }
  apply (indexOf_in_range _ Hne) in Hi. destruct Hi as [_ Hi].
  rewrite identifier_length in Hi. unfold IDENTIFIER_LENGTH in Hi.
  unfold extractMessageContent in H.
  destruct (findNextMessageStart (rawBuffer st) p) as [n|] eqn:Hn.
  - apply findNextMessageStart_Some in Hn. destruct Hn as (Hpn & Htag & _).
    apply tag_at_bound in Htag. unfold IDENTIFIER_LENGTH in *.
    pose proof (process_rawBuffer
                  (substring_between (rawBuffer st) (p + 6) n) isEnd st) as Hb.
    pose proof (process_emits_one
                  (substring_between (rawBuffer st) (p + 6) n) isEnd st) as He.
    destruct (process _ isEnd st) as [processed s1] eqn:Hp. simpl in Hb, He.
    assert (processMessages_loop fuel identifier process isEnd
              (set_rawBuffer s1 (substring_from (rawBuffer s1) n)) = Some st' ->
            6 * length (emitted st') + String.length (rawBuffer st') <=
            6 * length (emitted st) + String.length (rawBuffer st)) as Hstep.
    { intros Hr. apply IH in Hr. simpl in Hr. unfold substring_from in Hr.
      rewrite string_drop_length, Hb in Hr. lia. }
    destruct processed; [now apply Hstep|].
    destruct (negb isEnd) eqn:Hneg; [|now apply Hstep].
    injection H as <-. apply negb_true_iff in Hneg. rewrite Hneg in Hp.
    apply process_deferred in Hp. subst. lia.
  - destruct (negb isEnd) eqn:Hneg; [injection H as <-; lia|].
    pose proof (process_emits_one
                  (substring_from (rawBuffer st) (p + IDENTIFIER_LENGTH))
                  isEnd st) as He.
    destruct (process _ isEnd st) as [processed s1]. simpl in He.
    assert (processMessages_loop fuel identifier process isEnd
              (set_rawBuffer s1 EmptyString) = Some st') as H'
      by (destruct processed; exact H).
    apply IH in H'. simpl in H'. lia.
Qed.

End Potential.

Section SessionFacts.

Variable JSON_parse : string -> option jsval.
Variable JSON_stringify : jsval -> string.

Lemma processToolMessage_emits_one (content : string) (e : bool) (st : session) :
  length (emitted (processToolMessage JSON_parse JSON_stringify content e st).2)
  <= S (length (emitted st)).
Proof.
  destruct (processToolMessage_effect JSON_parse JSON_stringify content e st);
    simpl; rewrite ?length_app; simpl; lia.
Qed.

Lemma processTolyMessage_emits_one (content : string) (e : bool) (st : session) :
  length (emitted (processTolyMessage JSON_parse content e st).2)
  <= S (length (emitted st)).
Proof.
  destruct (processTolyMessage_effect JSON_parse content e st);
    simpl; rewrite ?length_app; simpl; lia.
Qed.

Lemma processBufferedData_potential (isEnd : bool) (st st' : session) :
  processBufferedData JSON_parse JSON_stringify isEnd st = Some st' ->
  6 * length (emitted st') + String.length (rawBuffer st') <=
  6 * length (emitted st) + String.length (rawBuffer st).
Proof.
  unfold processBufferedData. intros H.
  destruct (processMessages TOOL _ isEnd st) as [s1|] eqn:H1; [|discriminate].
  simpl in H.
  apply (processMessages_loop_potential TOOL eq_refl _ isEnd
           (processToolMessage_rawBuffer JSON_parse JSON_stringify)
           processToolMessage_emits_one
           (processToolMessage_deferred JSON_parse JSON_stringify)) in H1.
  apply (processMessages_loop_potential TOLY eq_refl _ isEnd
           (processTolyMessage_rawBuffer JSON_parse)
           processTolyMessage_emits_one
           (processTolyMessage_deferred JSON_parse)) in H.
  lia.
Qed.

Lemma feed_potential (chunks : list string) (st st' : session) :
  feed JSON_parse JSON_stringify chunks st = Some st' ->
  6 * length (emitted st') + String.length (rawBuffer st') <=
  6 * length (emitted st) + String.length (rawBuffer st)
  + String.length (whole_stream chunks).
Proof.
  revert st. induction chunks as [|text rest IH]; intros st H.
  - injection H as <-. simpl. lia.
  - simpl in H.
    destruct (on_data JSON_parse JSON_stringify text st) as [s1|] eqn:H1;
      [|discriminate].
    simpl in H. apply IH in H.
    unfold on_data in H1. apply processBufferedData_potential in H1.
    simpl in H1. rewrite string_length_app in H1.
    change (whole_stream (text :: rest)) with (text ++ whole_stream rest)%string.
    rewrite string_length_app. lia.
Qed.

(** X3.  A session cannot emit more events than its stream has room for
    tags: every tool event and every text delta accounts for six characters
    of the stream of its own, and the terminal event comes on top. *)
Theorem events_bounded_by_stream (chunks : list string) :
  exists st,
    run JSON_parse JSON_stringify chunks = Some st /\
    6 * length (emitted st) <= String.length (whole_stream chunks) + 6.
Proof.
  destruct (run_total JSON_parse JSON_stringify chunks) as [st H].
  exists st. split; [exact H|].
  unfold run in H.
  destruct (feed JSON_parse JSON_stringify chunks new_session) as [s0|] eqn:H0;
    [|discriminate].
  simpl in H. unfold on_end in H.
  destruct (processBufferedData JSON_parse JSON_stringify true s0) as [s1|] eqn:H1;
    [|discriminate].
  simpl in H. injection H as <-. simpl.
  apply feed_potential in H0. apply processBufferedData_potential in H1.
  simpl in H0. rewrite length_app. simpl. lia.
Qed.

(** ** Before end of stream *)


Lemma grows_from_stable (st : session) : stable JSON_stringify (grows_from st).
Proof.
  split.
  - intros s b H. exact H.
  - intros s l H. exact H.
  - intros s s' (evs & He & Ht & Hc & Hs) [ | key payload _ _ | e];
      [exists evs; auto | | exists evs; auto].
    exists (evs ++ [ToolEvent payload])%list. simpl. repeat split.
    + now rewrite He, <- app_assoc.
    + rewrite delta_text_app. simpl. now rewrite string_app_nil_r.
    + now rewrite forallb_app, Hc.
    + set_solver.
  - intros s s' (evs & He & Ht & Hc & Hs) [ | text | e content];
      [exists evs; auto | | exists evs; auto].
    exists (evs ++ [ContentDelta text])%list. simpl. repeat split.
    + now rewrite He, <- app_assoc.
    + rewrite delta_text_app, Ht. simpl.
      now rewrite string_app_nil_r, string_app_assoc.
    + now rewrite forallb_app, Hc.
    + exact Hs.
Qed.

(** X4.  While the stream is open the outputs only grow: whatever the chunks
    contain, events are appended to those already emitted, the transcript is
    extended by exactly the text of the new deltas, keys are only added to
    the set of processed tools, and no terminal event is emitted. *)
Theorem outputs_append_only (chunks : list string) (st st' : session) :
  feed JSON_parse JSON_stringify chunks st = Some st' ->
  exists evs,
    emitted st' = (emitted st ++ evs)%list /\
    streamedContent st' = (streamedContent st ++ delta_text evs)%string /\
    forallb (fun e => negb (is_complete e)) evs = true /\
    processedTools st ⊆ processedTools st'.
Proof.
  apply (feed_stable JSON_parse JSON_stringify (grows_from st));
    [apply grows_from_stable|].
  exists []. simpl. rewrite app_nil_r, string_app_nil_r. auto.
Qed.

Lemma processToolMessage_silent (content : string) (st : session) :
  logged (processToolMessage JSON_parse JSON_stringify content false st).2
    = logged st /\
  completed (processToolMessage JSON_parse JSON_stringify content false st).2
    = completed st.
Proof.
  unfold processToolMessage, tool_try, cbind.
  destruct (js_JSON_parse JSON_parse (trim content)); [|auto].
  destruct (toolKey_of JSON_stringify a); [|auto].
  now case_bool_decide.
Qed.

Lemma processTolyMessage_silent (content : string) (st : session) :
  logged (processTolyMessage JSON_parse content false st).2 = logged st /\
  completed (processTolyMessage JSON_parse content false st).2 = completed st.
Proof.
  unfold processTolyMessage.
  destruct (toly_try JSON_parse content st) as [s|e] eqn:Ht; [|auto].
  simpl. revert Ht. unfold toly_try, cbind.
  destruct_inspected; intros [= <-]; auto.
Qed.

Lemma on_data_silent (text : string) (st st' : session) :
  on_data JSON_parse JSON_stringify text st = Some st' ->
  logged st' = (logged st ++ [LogRawChunk text])%list /\
  completed st' = completed st.
Proof.
  unfold on_data, processBufferedData. intros H.
  destruct (processMessages TOOL _ false _) as [s1|] eqn:H1; [|discriminate].
  simpl in H.
  set (P := fun s : session =>
              logged s = (logged st ++ [LogRawChunk text])%list /\
              completed s = completed st).
  assert (P s1) as HP1.
  { revert H1. apply (processMessages_loop_invariant TOOL _ false P).
    - intros s b Hs. exact Hs.
    - intros content s [Hl Hc]. unfold P.
      destruct (processToolMessage_silent content s) as [-> ->]. now split.
    - split; reflexivity. }
  revert H. apply (processMessages_loop_invariant TOLY _ false P).
  - intros s b Hs. exact Hs.
  - intros content s [Hl Hc]. unfold P.
    destruct (processTolyMessage_silent content s) as [-> ->]. now split.
  - exact HP1.
Qed.

(** X5.  Nothing is reported while the stream is open: whatever the chunks
    contain, the log receives the raw chunks and nothing else (a body that
    fails to decode is logged at end of stream only), and the subscriber is
    not completed. *)
Theorem silent_before_end (chunks : list string) (st st' : session) :
  feed JSON_parse JSON_stringify chunks st = Some st' ->
  logged st' = (logged st ++ map LogRawChunk chunks)%list /\
  completed st' = completed st.
Proof.
  revert st. induction chunks as [|text rest IH]; intros st H.
  - injection H as <-. simpl. now rewrite app_nil_r.
  - simpl in H.
    destruct (on_data JSON_parse JSON_stringify text st) as [s1|] eqn:H1;
      [|discriminate].
    simpl in H. apply IH in H. apply on_data_silent in H1.
    destruct H as [-> ->], H1 as [-> ->]. simpl.
    now rewrite <- app_assoc.
Qed.

(** ** The set of processed tools *)


Lemma recorded_inv_next (st : session) (e : event) :
  recorded_inv JSON_stringify st ->
  recorded_inv JSON_stringify (subscriber_next st e).
Proof.
  intros H k Hk. destruct (H k Hk) as (i & p & Hi & Hp).
  exists i, p. split; [|exact Hp]. simpl.
  rewrite lookup_app_l; [exact Hi|]. now apply lookup_lt_Some in Hi.
Qed.

Lemma recorded_inv_stable :
  stable JSON_stringify (recorded_inv JSON_stringify).
Proof.
  split.
  - intros s b H. exact H.
  - intros s l H. exact H.
  - intros s s' H [ | key payload Hfresh Hkey | e]; [exact H | | exact H].
    intros k Hk. simpl in Hk. apply elem_of_union in Hk as [Hk | Hk].
    + apply elem_of_singleton in Hk as ->.
      exists (length (emitted s)), payload. split; [|exact Hkey].
      simpl. now rewrite lookup_app_r, Nat.sub_diag by lia.
    + destruct (H k Hk) as (i & p & Hi & Hp). exists i, p.
      split; [|exact Hp]. simpl.
      rewrite lookup_app_l; [exact Hi|]. now apply lookup_lt_Some in Hi.
  - intros s s' H [ | text | e content]; [exact H | | exact H].
    apply (recorded_inv_next (append_content s text)). exact H.
Qed.

(** X6.  At the end of every session the recorded keys are exactly the keys
    of the tool events that were emitted: no key is recorded without its
    event, and no tool event is emitted without recording its key. *)
Theorem processedTools_are_emitted_keys (chunks : list string) :
  exists st,
    run JSON_parse JSON_stringify chunks = Some st /\
    forall k,
      k ∈ processedTools st <->
      exists i p, emitted st !! i = Some (ToolEvent p) /\
                  toolKey_of JSON_stringify p = Normal k.
Proof.
  destruct (run_total JSON_parse JSON_stringify chunks) as [st H].
  exists st. split; [exact H|].
  unfold run in H.
  destruct (feed JSON_parse JSON_stringify chunks new_session) as [s0|] eqn:H0;
    [|discriminate].
  simpl in H. unfold on_end in H.
  destruct (processBufferedData JSON_parse JSON_stringify true s0) as [s1|] eqn:H1;
    [|discriminate].
  simpl in H. injection H as <-.
  assert (recorded_inv JSON_stringify s1) as Hrec.
  { apply (processBufferedData_stable JSON_parse JSON_stringify
             (recorded_inv JSON_stringify) true s0 s1);
      [apply recorded_inv_stable | | exact H1].
    apply (feed_stable JSON_parse JSON_stringify
             (recorded_inv JSON_stringify) chunks new_session s0);
      [apply recorded_inv_stable | | exact H0].
    intros k Hk. simpl in Hk. set_solver. }
  assert (dedup_inv JSON_stringify s1) as [Hded _].
  { apply (processBufferedData_stable JSON_parse JSON_stringify
             (dedup_inv JSON_stringify) true s0 s1);
      [apply (dedup_inv_stable JSON_parse) | | exact H1].
    apply (feed_stable JSON_parse JSON_stringify
             (dedup_inv JSON_stringify) chunks new_session s0);
      [apply (dedup_inv_stable JSON_parse) | apply dedup_inv_new | exact H0]. }
  intros k. simpl. split.
  - intros Hk. destruct (Hrec k Hk) as (i & p & Hi & Hp). exists i, p.
    split; [|exact Hp].
    rewrite lookup_app_l; [exact Hi|]. now apply lookup_lt_Some in Hi.
  - intros (i & p & Hi & Hp). apply lookup_snoc_Some in Hi.
    destruct Hi as [[_ Hi] | [_ Hi]]; [|discriminate].
    destruct (Hded i p Hi) as (k' & Hk' & Hin). congruence.
Qed.

(** ** A stream without tags *)

Lemma indexOf_None_app_l (needle a b : string) :
  needle <> EmptyString ->
  indexOf (a ++ b) needle 0 = None -> indexOf a needle 0 = None.
Proof.
  intros Hne H. apply (indexOf_None _ Hne). intros k _.
  destruct (occurs_at needle a k) eqn:Ho; [|reflexivity].
  apply (occurs_at_app _ _ b) in Ho.
  rewrite (proj1 (indexOf_None _ Hne _ _) H) in Ho by lia. discriminate.
Qed.

Lemma feed_untagged (chunks : list string) (st : session) :
  indexOf (rawBuffer st ++ whole_stream chunks) TOOL 0 = None ->
  indexOf (rawBuffer st ++ whole_stream chunks) TOLY 0 = None ->
  exists st',
    feed JSON_parse JSON_stringify chunks st = Some st' /\
    rawBuffer st' = (rawBuffer st ++ whole_stream chunks)%string /\
    emitted st' = emitted st /\
    streamedContent st' = streamedContent st /\
    processedTools st' = processedTools st.
Proof.
  revert st. induction chunks as [|text rest IH]; intros st H1 H2.
  - exists st. simpl. now rewrite string_app_nil_r.
  - change (whole_stream (text :: rest)) with (text ++ whole_stream rest)%string
      in *.
    rewrite <- string_app_assoc in H1, H2.
    simpl. unfold on_data, processBufferedData.
    rewrite (processMessages_no_tag TOOL _ false)
      by (simpl; now apply (indexOf_None_app_l _ _ (whole_stream rest))).
    cbn [mbind option_bind].
    rewrite (processMessages_no_tag TOLY _ false)
      by (simpl; now apply (indexOf_None_app_l _ _ (whole_stream rest))).
    cbn [mbind option_bind].
    destruct (IH (set_rawBuffer (logger st (LogRawChunk text))
                    (rawBuffer (logger st (LogRawChunk text)) ++ text)))
      as (st' & Hf & Hb & He & Ht & Hp); [exact H1 | exact H2 |].
    exists st'. split; [exact Hf|]. simpl in *.
    now rewrite Hb, string_app_assoc.
Qed.

(** X7.  A stream in which neither tag occurs produces no tool event and no
    delta, whatever its chunks: the session ends with the terminal event
    alone and an empty transcript. Such data is never dropped from the
    buffer either; it is all still there when the stream has ended. *)
Theorem untagged_stream_is_kept (chunks : list string) :
  indexOf (whole_stream chunks) TOOL 0 = None ->
  indexOf (whole_stream chunks) TOLY 0 = None ->
  exists st,
    run JSON_parse JSON_stringify chunks = Some st /\
    emitted st = [ContentComplete EmptyString] /\
    rawBuffer st = whole_stream chunks /\
    processedTools st = ∅.
Proof.
  intros H1 H2.
  destruct (feed_untagged chunks new_session H1 H2)
    as (s0 & Hf & Hb & He & Ht & Hp).
  simpl in Hb, He, Ht, Hp.
  unfold run. rewrite Hf. cbn [mbind option_bind].
  unfold on_end, processBufferedData.
  rewrite (processMessages_no_tag TOOL _ true) by now rewrite Hb.
  cbn [mbind option_bind].
  rewrite (processMessages_no_tag TOLY _ true) by now rewrite Hb.
  cbn [mbind option_bind].
  eexists. split; [reflexivity|]. simpl. now rewrite He, Ht, Hb, Hp.
Qed.

End SessionFacts.

(** * White space around a tool notice *)

Lemma trim_start_all_space (s : string) :
  all_space s = true -> trim_start s = EmptyString.
Proof.
  induction s as [|c s IH]; [reflexivity|].
  simpl. intros H. apply andb_prop in H as [-> H]. now apply IH.
Qed.

Lemma trim_end_all_space (s : string) :
  all_space s = true -> trim_end s = EmptyString.
Proof.
  induction s as [|c s IH]; [reflexivity|].
  simpl. intros H. apply andb_prop in H as [-> H]. now rewrite IH.
Qed.

Lemma trim_start_app_space (l s : string) :
  all_space l = true -> trim_start (l ++ s) = trim_start s.
Proof.
  induction l as [|c l IH]; [reflexivity|].
  simpl. intros H. apply andb_prop in H as [-> H]. now apply IH.
Qed.

Lemma trim_end_app_space (s r : string) :
  all_space r = true -> trim_end (s ++ r) = trim_end s.
Proof.
  intros H. induction s as [|c s IH].
  - simpl. now apply trim_end_all_space.
  - simpl. now rewrite IH.
Qed.

Lemma trim_app_space_r (s r : string) :
  all_space r = true -> trim (s ++ r) = trim s.
Proof.
  intros H. unfold trim. induction s as [|c s IH].
  - simpl. now rewrite trim_start_all_space.
  - simpl. destruct (is_js_space c); [exact IH|].
    change (String c (s ++ r)) with (String c s ++ r)%string.
    now apply trim_end_app_space.
Qed.

Lemma trim_padding (l s r : string) :
  all_space l = true -> all_space r = true -> trim (l ++ s ++ r) = trim s.
Proof.
  intros Hl Hr. unfold trim. rewrite trim_start_app_space by exact Hl.
  now apply trim_app_space_r.
Qed.

Lemma trim_start_not_space (s : string) :
  match trim_start s with
  | EmptyString => True
  | String c _ => is_js_space c = false
  end.
Proof.
  induction s as [|c s IH]; [exact I|].
  simpl. destruct (is_js_space c) eqn:Hc; [exact IH | exact Hc].
Qed.

Lemma trim_end_fixed (s : string) :
  trim_end (trim_end s) = trim_end s.
Proof.
  induction s as [|c s IH]; [reflexivity|].
  simpl. destruct (trim_end s) as [|d t] eqn:Ht.
  - destruct (is_js_space c) eqn:Hc; [reflexivity|]. simpl. now rewrite Hc.
  - change (trim_end (String c (String d t)))
      with (match trim_end (String d t) with
            | EmptyString =>
                if is_js_space c then EmptyString else String c EmptyString
            | u => String c u
            end).
    rewrite IH. reflexivity.
Qed.

Lemma trim_start_trim_end (s : string) :
  match s with
  | EmptyString => True
  | String c _ => is_js_space c = false
  end ->
  trim_start (trim_end s) = trim_end s.
Proof.
  destruct s as [|c s]; [reflexivity|]. intros Hc.
  simpl in *. destruct (trim_end s); rewrite ?Hc; simpl; now rewrite Hc.
Qed.

Section ToolPadding.

Variable JSON_parse : string -> option jsval.
Variable JSON_stringify : jsval -> string.

(** X8.  White space between the tag of a tool notice and its JSON text, and
    between the JSON text and the next tag, does not count: the padded body
    and the bare body are taken to the same result in every state, whatever
    the flag. What is handed to [JSON.parse] carries no white space at
    either end, and trimming it again changes nothing. *)
Theorem tool_body_padding_ignored (l content r : string) (isEnd : bool)
    (st : session) :
  all_space l = true -> all_space r = true ->
  processToolMessage JSON_parse JSON_stringify (l ++ content ++ r) isEnd st =
  processToolMessage JSON_parse JSON_stringify content isEnd st /\
  trim (trim (l ++ content ++ r)) = trim content.
Proof.
  intros Hl Hr. split.
  - unfold processToolMessage, tool_try. now rewrite trim_padding.
  - rewrite trim_padding by assumption. unfold trim.
    rewrite trim_start_trim_end by apply trim_start_not_space.
    apply trim_end_fixed.
Qed.

End ToolPadding.

Lemma tool_body_padding_ignored_witness :
  processToolMessage MiniJSON.parse MiniJSON.stringify
    (" " ++ tool_body ++ String "010"%char EmptyString) false new_session =
  processToolMessage MiniJSON.parse MiniJSON.stringify tool_body false
    new_session /\
  trim (trim (" " ++ tool_body ++ String "010"%char EmptyString)) =
  trim tool_body.
Proof.
  exact (tool_body_padding_ignored MiniJSON.parse MiniJSON.stringify
           " " tool_body (String "010"%char EmptyString) false new_session
           eq_refl eq_refl).
Defined.

(** * Streams of well-formed frames *)

Lemma prefix_get (p x : string) (i : nat) :
  String.prefix p x = true -> i < String.length p ->
  String.get i x = String.get i p.
Proof.
  revert x i. induction p as [|a p IH]; intros x i H Hi; [simpl in Hi; lia|].
  destruct x as [|b x]; [discriminate|].
  apply prefix_cons_inv in H as [<- H].
  destruct i as [|i]; [reflexivity|]. simpl. apply IH; [exact H|].
  simpl in Hi. lia.
Qed.

Lemma get_string_drop (k i : nat) (s : string) :
  String.get i (string_drop k s) = String.get (k + i) s.
Proof.
  revert s. induction k as [|k IH]; intros s; [reflexivity|].
  destruct s as [|c s]; [now destruct i|]. simpl. apply IH.
Qed.

Lemma occurs_at_get (needle s : string) (k i : nat) :
  occurs_at needle s k = true -> i < String.length needle ->
  String.get (k + i) s = String.get i needle.
Proof.
  unfold occurs_at. intros H Hi. rewrite <- get_string_drop.
  now apply prefix_get.
Qed.

Lemma get_app_l (a b : string) (i : nat) :
  i < String.length a -> String.get i (a ++ b) = String.get i a.
Proof.
  revert i. induction a as [|c a IH]; intros i Hi; [simpl in Hi; lia|].
  destruct i as [|i]; [reflexivity|]. simpl. apply IH. simpl in Hi. lia.
Qed.

Lemma get_app_r (a b : string) (i : nat) :
  String.get (String.length a + i) (a ++ b) = String.get i b.
Proof.
  induction a as [|c a IH]; [reflexivity|]. simpl. exact IH.
Qed.

Lemma string_drop_app_length (a b : string) (k : nat) :
  string_drop (String.length a + k) (a ++ b) = string_drop k b.
Proof.
  induction a as [|c a IH]; [reflexivity|]. simpl. exact IH.
Qed.

Lemma occurs_at_app_r (needle a b : string) (k : nat) :
  occurs_at needle (a ++ b) (String.length a + k) = occurs_at needle b k.
Proof.
  unfold occurs_at. now rewrite string_drop_app_length.
Qed.

Lemma tag_at_app_r (a b : string) (k : nat) :
  tag_at (a ++ b) (String.length a + k) = tag_at b k.
Proof.
  unfold tag_at. now rewrite !occurs_at_app_r.
Qed.

Lemma prefix_self_app (p x : string) : String.prefix p (p ++ x) = true.
Proof.
  induction p as [|a p IH]; [now destruct x|].
  simpl. destruct (ascii_dec a a); [exact IH | congruence].
Qed.

Lemma string_app_empty (a b : string) :
  (a ++ b)%string = EmptyString -> a = EmptyString /\ b = EmptyString.
Proof.
  destruct a; [auto | discriminate].
Qed.

(** The letter T is the first character of both tags and occurs nowhere
    else in them. *)
Lemma tag_literal_T (identifier : string) (i : nat) :
  identifier = TOOL \/ identifier = TOLY ->
  1 <= i -> String.get i identifier <> Some "T"%char.
Proof.
  intros [-> | ->] Hi;
    do 7 (destruct i as [|i]; [try lia; simpl; discriminate|]);
    simpl; discriminate.
Qed.

Lemma tag_literal_length (identifier : string) :
  identifier = TOOL \/ identifier = TOLY ->
  String.length identifier = IDENTIFIER_LENGTH.
Proof.
  now intros [-> | ->].
Qed.

Lemma tag_at_cases (s : string) (k : nat) :
  tag_at s k = true ->
  exists identifier,
    (identifier = TOOL \/ identifier = TOLY) /\
    occurs_at identifier s k = true.
Proof.
  unfold tag_at. intros H. apply orb_prop in H as [H | H].
  - exists TOOL. auto.
  - exists TOLY. auto.
Qed.

Lemma occurs_at_tag_at (identifier s : string) (k : nat) :
  identifier = TOOL \/ identifier = TOLY ->
  occurs_at identifier s k = true -> tag_at s k = true.
Proof.
  unfold tag_at. intros [-> | ->] ->; [reflexivity | apply orb_true_r].
Qed.

Lemma tag_at_0_get (s : string) :
  tag_at s 0 = true -> String.get 0 s = Some "T"%char.
Proof.
  intros H. apply tag_at_cases in H as (identifier & Hid & H).
  change 0 with (0 + 0) at 1.
  rewrite (occurs_at_get identifier s 0 0 H)
    by (rewrite (tag_literal_length _ Hid); unfold IDENTIFIER_LENGTH; lia).
  now destruct Hid as [-> | ->].
Qed.

Lemma no_tag_spec (b : string) :
  no_tag b = true <-> forall k, tag_at b k = false.
Proof.
  unfold no_tag, tag_at. split.
  - intros H k.
    destruct (indexOf b TOOL 0) eqn:H1; [discriminate|].
    destruct (indexOf b TOLY 0) eqn:H2; [discriminate|].
    rewrite (proj1 (indexOf_None _ TOOL_nonempty _ _) H1) by lia.
    rewrite (proj1 (indexOf_None _ TOLY_nonempty _ _) H2) by lia.
    reflexivity.
  - intros H.
    assert (indexOf b TOOL 0 = None) as ->.
    { apply (indexOf_None _ TOOL_nonempty). intros k _.
      specialize (H k). now apply orb_false_elim in H. }
    assert (indexOf b TOLY 0 = None) as ->.
    { apply (indexOf_None _ TOLY_nonempty). intros k _.
      specialize (H k). now apply orb_false_elim in H. }
    reflexivity.
Qed.

(** No tag starts inside a body without tags, also when the next frame
    follows it directly: a tag that straddles the end of the body would
    have the letter T of the next tag among its later characters. *)
Lemma body_tail_no_tag (b tail : string) (j : nat) :
  no_tag b = true ->
  tail = EmptyString \/ tag_at tail 0 = true ->
  j < String.length b -> tag_at (b ++ tail) j = false.
Proof.
  intros Hb Htail Hj.
  destruct (tag_at (b ++ tail) j) eqn:Ht; [|reflexivity].
  pose proof (tag_at_bound _ _ Ht) as Hbound.
  rewrite string_length_app in Hbound. unfold IDENTIFIER_LENGTH in Hbound.
  destruct (le_lt_dec (j + 6) (String.length b)) as [Hin | Hout].
  - apply tag_at_app_inv in Ht; [|exact Hin].
    now rewrite (proj1 (no_tag_spec b) Hb) in Ht.
  - destruct Htail as [-> | Htail]; [simpl in Hbound; lia|].
    apply tag_at_0_get in Htail.
    apply tag_at_cases in Ht as (identifier & Hid & Ht).
    pose proof (occurs_at_get identifier (b ++ tail) j (String.length b - j) Ht)
      as Hg.
    rewrite (tag_literal_length _ Hid) in Hg. unfold IDENTIFIER_LENGTH in Hg.
    replace (j + (String.length b - j)) with (String.length b + 0) in Hg by lia.
    rewrite get_app_r, Htail in Hg.
    exfalso. apply (tag_literal_T identifier (String.length b - j) Hid);
      [lia|]. symmetry. apply Hg. lia.
Qed.

Lemma substring_app_head (b c : string) :
  String.substring 0 (String.length b) (b ++ c) = b.
Proof.
  induction b as [|y b IHb]; [now destruct c|].
  simpl. now rewrite IHb.
Qed.

Lemma substring_app_mid (a b c : string) :
  String.substring (String.length a) (String.length b) (a ++ b ++ c) = b.
Proof.
  induction a as [|x a IH]; [exact (substring_app_head b c) | exact IH].
Qed.

Section Frames.

Variable identifier : string.
Hypothesis identifier_tag : identifier = TOOL \/ identifier = TOLY.

Lemma identifier_tag_nonempty : identifier <> EmptyString.
Proof.
  destruct identifier_tag as [-> | ->]; discriminate.
Qed.

Lemma frames_text_start (bodies : list string) (rest : string) :
  rest = EmptyString \/ tag_at rest 0 = true ->
  (frames_text identifier bodies ++ rest)%string = EmptyString \/
  tag_at (frames_text identifier bodies ++ rest) 0 = true.
Proof.
  intros H. destruct bodies as [|b bs]; [exact H|]. right.
  simpl. rewrite string_app_assoc.
  apply (occurs_at_tag_at identifier); [exact identifier_tag|].
  rewrite occurs_at_0. apply prefix_self_app.
Qed.

Lemma frames_text_cons (b : string) (bs : list string) (rest : string) :
  (frames_text identifier (b :: bs) ++ rest =
   identifier ++ b ++ (frames_text identifier bs ++ rest))%string.
Proof.
  simpl. now rewrite !string_app_assoc.
Qed.

Lemma frame_head_index (x : string) :
  indexOf (identifier ++ x) identifier 0 = Some 0.
Proof.
  apply occurs_at_0_indexOf; [exact identifier_tag_nonempty|].
  rewrite occurs_at_0. apply prefix_self_app.
Qed.

Lemma frame_next_tag (b tail : string) :
  no_tag b = true -> tag_at tail 0 = true ->
  extractMessageContent (identifier ++ b ++ tail) 0 =
  (b, Some (IDENTIFIER_LENGTH + String.length b)).
Proof.
  intros Hb Ht.
  pose proof (tag_literal_length identifier identifier_tag) as Hlen.
  assert (findNextMessageStart (identifier ++ b ++ tail) 0
          = Some (IDENTIFIER_LENGTH + String.length b)) as Hn.
  { apply findNextMessageStart_Some. split; [lia|]. split.
    - rewrite <- Hlen, tag_at_app_r.
      replace (String.length b) with (String.length b + 0) by lia.
      now rewrite tag_at_app_r.
    - intros k Hk1 Hk2.
      replace k with (String.length identifier + (k - IDENTIFIER_LENGTH))
        by (rewrite Hlen; lia).
      rewrite tag_at_app_r. apply body_tail_no_tag; auto. lia. }
  unfold extractMessageContent. rewrite Hn. f_equal.
  rewrite substring_between_slice by lia.
  replace (0 + IDENTIFIER_LENGTH) with (String.length identifier)
    by (rewrite Hlen; lia).
  replace (IDENTIFIER_LENGTH + String.length b - String.length identifier)
    with (String.length b) by (rewrite Hlen; lia).
  apply substring_app_mid.
Qed.

Lemma frame_last (b : string) :
  no_tag b = true ->
  extractMessageContent (identifier ++ b) 0 = (b, None).
Proof.
  intros Hb.
  pose proof (tag_literal_length identifier identifier_tag) as Hlen.
  assert (findNextMessageStart (identifier ++ b) 0 = None) as Hn.
  { apply findNextMessageStart_None. intros k Hk.
    replace k with (String.length identifier + (k - IDENTIFIER_LENGTH))
      by (rewrite Hlen; lia).
    rewrite tag_at_app_r. now apply no_tag_spec. }
  unfold extractMessageContent. rewrite Hn. f_equal.
  unfold substring_from.
  replace (0 + IDENTIFIER_LENGTH) with (String.length identifier + 0)
    by (rewrite Hlen; lia).
  now rewrite string_drop_app_length.
Qed.

(** In a run of frames of one kind, the tag of the other kind cannot occur
    before the end of the run. *)
Lemma frames_other_tag (other : string) (bodies : list string)
    (rest : string) (k : nat) :
  other = TOOL \/ other = TOLY -> other <> identifier ->
  forallb no_tag bodies = true ->
  rest = EmptyString \/ tag_at rest 0 = true ->
  occurs_at other (frames_text identifier bodies ++ rest) k = true ->
  String.length (frames_text identifier bodies) <= k.
Proof.
  intros Hother Hneq Hbodies Hrest.
  pose proof (tag_literal_length identifier identifier_tag) as Hlen.
  pose proof (tag_literal_length other Hother) as Hlen'.
  unfold IDENTIFIER_LENGTH in *.
  revert k. induction bodies as [|b bs IH]; intros k H; [simpl; lia|].
  simpl in Hbodies. apply andb_prop in Hbodies as [Hb Hbs].
  specialize (IH Hbs).
  rewrite frames_text_cons in H.
  simpl. rewrite !string_length_app, Hlen.
  destruct (le_lt_dec 6 k) as [Hk | Hk].
  - replace k with (String.length identifier + (k - 6)) in H
      by (rewrite Hlen; lia).
    rewrite occurs_at_app_r in H.
    destruct (le_lt_dec (String.length b) (k - 6)) as [Hj | Hj].
    + replace (k - 6) with (String.length b + (k - 6 - String.length b)) in H
        by lia.
      rewrite occurs_at_app_r in H. apply IH in H. lia.
    + apply (occurs_at_tag_at other) in H; [|exact Hother].
      rewrite body_tail_no_tag in H;
        [discriminate | exact Hb | now apply frames_text_start | exact Hj].
  - exfalso. destruct k as [|k].
    + pose proof (occurs_at_get other _ 0 2 H) as Hg.
      rewrite get_app_l in Hg by lia.
      destruct identifier_tag as [-> | ->], Hother as [-> | ->];
        try congruence; specialize (Hg ltac:(simpl; lia)); discriminate.
    + pose proof (occurs_at_get other _ (S k) 0 H) as Hg.
      rewrite Nat.add_0_r, get_app_l in Hg by lia.
      apply (tag_literal_T identifier (S k) identifier_tag); [lia|].
      rewrite Hg by lia. now destruct Hother as [-> | ->].
Qed.

Lemma frames_no_other_tag (other : string) (bodies : list string) :
  other = TOOL \/ other = TOLY -> other <> identifier ->
  forallb no_tag bodies = true ->
  indexOf (frames_text identifier bodies) other 0 = None.
Proof.
  intros Hother Hneq Hbodies.
  assert (other <> EmptyString) as Hne
    by (destruct Hother as [-> | ->]; discriminate).
  apply (indexOf_None _ Hne). intros k _.
  destruct (occurs_at other (frames_text identifier bodies) k) eqn:H;
    [|reflexivity].
  pose proof (occurs_at_bound _ _ _ H) as [Hb | Hb]; [|contradiction].
  rewrite <- (string_app_nil_r (frames_text identifier bodies)) in H.
  apply frames_other_tag in H; auto.
  rewrite (tag_literal_length other Hother) in Hb.
  unfold IDENTIFIER_LENGTH in Hb. lia.
Qed.

Lemma frames_text_length (bodies : list string) :
  length bodies <= String.length (frames_text identifier bodies).
Proof.
  pose proof (tag_literal_length identifier identifier_tag) as Hlen.
  unfold IDENTIFIER_LENGTH in Hlen.
  induction bodies as [|b bs IH]; [simpl; lia|].
  simpl. rewrite !string_length_app. lia.
Qed.

End Frames.

Lemma set_rawBuffer_same (st : session) : set_rawBuffer st (rawBuffer st) = st.
Proof.
  now destruct st.
Qed.

Lemma string_drop_frame (identifier b tail : string) :
  String.length identifier = IDENTIFIER_LENGTH ->
  string_drop (IDENTIFIER_LENGTH + String.length b) (identifier ++ b ++ tail)
  = tail.
Proof.
  intros <-.
  replace (String.length b) with (String.length b + 0) by lia.
  now rewrite !string_drop_app_length.
Qed.

Section FramePass.

Variable identifier : string.
Hypothesis identifier_tag : identifier = TOOL \/ identifier = TOLY.
Variable process : processor.

Hypothesis process_rawBuffer :
  forall content e st, rawBuffer (process content e st).2 = rawBuffer st.

Hypothesis process_set_rawBuffer :
  forall content e st b,
    process content e (set_rawBuffer st b) =
    ((process content e st).1, set_rawBuffer (process content e st).2 b).

Hypothesis process_deferred :
  forall content st st',
    process content false st = (false, st') -> st' = st.

(** A body that is accepted while the stream is open is treated the same
    way at end of stream, and whether a body is accepted does not depend
    on the session. *)
Hypothesis process_flag :
  forall content st,
    (process content false st).1 = true ->
    process content true st = process content false st.

Hypothesis process_accepts :
  forall content st, (process content false st).1 = accepts process content.

Lemma dispatch_set_rawBuffer (bodies : list string) (st : session) (b : string) :
  dispatch process bodies (set_rawBuffer st b) =
  set_rawBuffer (dispatch process bodies st) b.
Proof.
  revert st. induction bodies as [|c bs IH]; intros st; [reflexivity|].
  simpl. rewrite process_set_rawBuffer. simpl. apply IH.
Qed.

Lemma dispatch_app (pre post : list string) (st : session) :
  dispatch process (pre ++ post) st =
  dispatch process post (dispatch process pre st).
Proof.
  revert st. induction pre as [|c bs IH]; intros st; [reflexivity|].
  simpl. apply IH.
Qed.

(** At end of stream the loop hands every frame of a run to the processor,
    in stream order, and leaves what follows the run. *)
Lemma frames_pass_end (bodies : list string) (rest : string) (fuel : nat)
    (st : session) :
  forallb no_tag bodies = true ->
  rest = EmptyString \/ tag_at rest 0 = true ->
  indexOf rest identifier 0 = None ->
  rawBuffer st = (frames_text identifier bodies ++ rest)%string ->
  length bodies < fuel ->
  processMessages_loop fuel identifier process true st =
  Some (set_rawBuffer (dispatch process bodies st) rest).
Proof.
  pose proof (tag_literal_length identifier identifier_tag) as Hlen.
  revert fuel st.
  induction bodies as [|b bs IH]; intros fuel st Hb Hrest Hnone Hbuf Hfuel;
    (destruct fuel as [|fuel]; [simpl in Hfuel; lia|]).
  - change (rawBuffer st = rest) in Hbuf.
    rewrite processMessages_loop_no_tag by now rewrite Hbuf.
    simpl. now rewrite <- Hbuf, set_rawBuffer_same.
  - simpl in Hb. apply andb_prop in Hb as [Hb Hbs].
    rewrite frames_text_cons in Hbuf.
    rewrite processMessages_loop_S, Hbuf, frame_head_index by exact identifier_tag.
    pose proof (process_rawBuffer b true st) as Hrb.
    assert (processMessages_loop fuel identifier process true
              (set_rawBuffer (process b true st).2
                 (frames_text identifier bs ++ rest)) =
            Some (set_rawBuffer (dispatch process (b :: bs) st) rest)) as Hnext.
    { rewrite IH; [| exact Hbs | exact Hrest | exact Hnone | reflexivity
                   | simpl in Hfuel; lia].
      rewrite dispatch_set_rawBuffer. reflexivity. }
    destruct (frames_text_start identifier identifier_tag bs rest Hrest)
      as [Hemp | Htag].
    + rewrite Hemp in *. rewrite string_app_nil_r.
      rewrite frame_last by assumption.
      destruct (process b true st) as [processed st1]. simpl in *.
      now destruct processed.
    + rewrite frame_next_tag by assumption.
      destruct (process b true st) as [processed st1]. simpl in Hrb, Hnext.
      cbv beta iota zeta. unfold substring_from.
      rewrite Hrb, Hbuf, string_drop_frame by exact Hlen.
      now destruct processed.
Qed.

(** While the stream is open the loop hands the frames of a run to the
    processor in stream order and stops at the first body that is not
    accepted, or at the last frame when nothing follows the run; the
    frames that are left stay in the buffer. *)
Lemma frames_pass_open (bodies : list string) (rest : string) (fuel : nat)
    (st : session) :
  forallb no_tag bodies = true ->
  rest = EmptyString \/ tag_at rest 0 = true ->
  indexOf rest identifier 0 = None ->
  rawBuffer st = (frames_text identifier bodies ++ rest)%string ->
  length bodies < fuel ->
  exists pre post,
    bodies = (pre ++ post)%list /\
    processMessages_loop fuel identifier process false st =
    Some (set_rawBuffer (dispatch process pre st)
            (frames_text identifier post ++ rest)) /\
    (rest <> EmptyString -> forallb (accepts process) bodies = true ->
     post = []).
Proof.
  pose proof (tag_literal_length identifier identifier_tag) as Hlen.
  revert fuel st.
  induction bodies as [|b bs IH]; intros fuel st Hb Hrest Hnone Hbuf Hfuel;
    (destruct fuel as [|fuel]; [simpl in Hfuel; lia|]).
  - exists [], []. split; [reflexivity|]. split; [|reflexivity].
    change (rawBuffer st = rest) in Hbuf.
    rewrite processMessages_loop_no_tag by now rewrite Hbuf.
    simpl. change (EmptyString ++ rest)%string with rest.
    now rewrite <- Hbuf, set_rawBuffer_same.
  - simpl in Hb. apply andb_prop in Hb as [Hb Hbs].
    assert (Some st =
            Some (set_rawBuffer (dispatch process [] st)
                    (frames_text identifier (b :: bs) ++ rest))) as Hstay.
    { cbn [dispatch]. now rewrite <- Hbuf, set_rawBuffer_same. }
    rewrite frames_text_cons in Hbuf.
    rewrite processMessages_loop_S, Hbuf, frame_head_index by exact identifier_tag.
    destruct (frames_text_start identifier identifier_tag bs rest Hrest)
      as [Hemp | Htag].
    + exists [], (b :: bs). split; [reflexivity|].
      rewrite Hemp, string_app_nil_r.
      rewrite frame_last by assumption. cbv beta iota zeta. simpl negb.
      cbv iota. split; [exact Hstay|].
      intros Hne. apply string_app_empty in Hemp. now destruct Hemp.
    + rewrite frame_next_tag by assumption. cbv beta iota zeta.
      pose proof (process_rawBuffer b false st) as Hrb.
      pose proof (process_flag b st) as Hflag.
      pose proof (process_accepts b st) as Hacc.
      destruct (process b false st) as [processed st1] eqn:Hp.
      simpl in Hrb, Hflag, Hacc.
      destruct processed.
      * unfold substring_from.
        rewrite Hrb, Hbuf, string_drop_frame by exact Hlen.
        destruct (IH fuel (set_rawBuffer st1 (frames_text identifier bs ++ rest))
                    Hbs Hrest Hnone eq_refl ltac:(simpl in Hfuel; lia))
          as (pre & post & -> & Hrun & Hall).
        exists (b :: pre), post. split; [reflexivity|].
        split.
        -- rewrite Hrun. simpl. rewrite Hflag by reflexivity. simpl.
           now rewrite dispatch_set_rawBuffer.
        -- intros Hne Hacc'. simpl in Hacc'.
           apply andb_prop in Hacc' as [_ Hacc']. now apply Hall.
      * exists [], (b :: bs). split; [reflexivity|].
        apply process_deferred in Hp. subst st1. simpl negb. cbv iota.
        split; [exact Hstay|].
        intros _ Hacc'. simpl in Hacc'. rewrite <- Hacc in Hacc'.
        discriminate.
Qed.

End FramePass.

Section DispatchVisible.

Variable process : processor.

Hypothesis process_set_rawBuffer :
  forall content e st b,
    process content e (set_rawBuffer st b) =
    ((process content e st).1, set_rawBuffer (process content e st).2 b).

Hypothesis process_visible :
  forall content e st1 st2,
    visible st1 = visible st2 ->
    (process content e st1).1 = (process content e st2).1 /\
    visible (process content e st1).2 = visible (process content e st2).2.

(** What a sequence of processor calls emits and records depends on
    neither the buffer nor the log of the session it starts from. *)
Lemma dispatch_outputs (bodies : list string) (st1 st2 : session) :
  visible (set_rawBuffer st1 EmptyString) =
  visible (set_rawBuffer st2 EmptyString) ->
  visible (set_rawBuffer (dispatch process bodies st1) EmptyString) =
  visible (set_rawBuffer (dispatch process bodies st2) EmptyString).
Proof.
  revert st1 st2. induction bodies as [|b bs IH]; intros st1 st2 H;
    [exact H|].
  simpl. apply IH.
  destruct (process_visible b true _ _ H) as [_ Hv].
  now rewrite !process_set_rawBuffer in Hv.
Qed.

End DispatchVisible.

Section WellFormed.

Variable JSON_parse : string -> option jsval.
Variable JSON_stringify : jsval -> string.

Lemma processToolMessage_flag (content : string) (st : session) :
  (processToolMessage JSON_parse JSON_stringify content false st).1 = true ->
  processToolMessage JSON_parse JSON_stringify content true st =
  processToolMessage JSON_parse JSON_stringify content false st.
Proof.
  unfold processToolMessage.
  destruct (tool_try JSON_parse JSON_stringify content st);
    [reflexivity | discriminate].
Qed.

Lemma processTolyMessage_flag (content : string) (st : session) :
  (processTolyMessage JSON_parse content false st).1 = true ->
  processTolyMessage JSON_parse content true st =
  processTolyMessage JSON_parse content false st.
Proof.
  unfold processTolyMessage.
  destruct (toly_try JSON_parse content st); [reflexivity | discriminate].
Qed.

Lemma processToolMessage_accepts (content : string) (st : session) :
  (processToolMessage JSON_parse JSON_stringify content false st).1 =
  accepts (processToolMessage JSON_parse JSON_stringify) content.
Proof.
  unfold accepts, processToolMessage, tool_try, cbind.
  destruct (js_JSON_parse JSON_parse (trim content)); [|reflexivity].
  destruct (toolKey_of JSON_stringify a); [|reflexivity].
  now do 2 case_bool_decide.
Qed.

Lemma processTolyMessage_accepts (content : string) (st : session) :
  (processTolyMessage JSON_parse content false st).1 =
  accepts (processTolyMessage JSON_parse) content.
Proof.
  unfold accepts, processTolyMessage, toly_try, cbind.
  destruct_inspected; reflexivity.
Qed.

Lemma TOOL_tag : TOOL = TOOL \/ TOOL = TOLY.
Proof.
  now left.
Qed.

Lemma TOLY_tag : TOLY = TOOL \/ TOLY = TOLY.
Proof.
  now right.
Qed.

Lemma frames_tag_start (identifier : string) (bodies : list string) :
  identifier = TOOL \/ identifier = TOLY ->
  frames_text identifier bodies = EmptyString \/
  tag_at (frames_text identifier bodies) 0 = true.
Proof.
  intros Hid.
  rewrite <- (string_app_nil_r (frames_text identifier bodies)).
  apply frames_text_start; auto.
Qed.

Lemma frames_tools_first (tools tolys : list string) :
  forallb no_tag tools = true -> forallb no_tag tolys = true ->
  tools_first (frames_text TOOL tools ++ frames_text TOLY tolys) = true.
Proof.
  intros Ht Hy. apply tools_first_spec. intros i j Hi Hj.
  apply (frames_other_tag TOOL TOOL_tag TOLY) in Hi;
    [| exact TOLY_tag | discriminate | exact Ht
     | apply frames_tag_start, TOLY_tag].
  destruct (le_lt_dec (String.length (frames_text TOOL tools)) j) as [Hge|];
    [|lia].
  replace j with (String.length (frames_text TOOL tools)
                  + (j - String.length (frames_text TOOL tools))) in Hj by lia.
  rewrite occurs_at_app_r in Hj.
  pose proof (frames_no_other_tag TOLY TOLY_tag TOOL tolys TOOL_tag
                ltac:(discriminate) Hy) as Hnone.
  rewrite (proj1 (indexOf_None _ TOOL_nonempty _ _) Hnone) in Hj by lia.
  discriminate.
Qed.

Lemma feed_as_one_chunk (chunks : list string) (s1 : session) :
  tools_first (whole_stream chunks) = true ->
  feed JSON_parse JSON_stringify chunks new_session = Some s1 ->
  exists s2,
    on_data JSON_parse JSON_stringify (whole_stream chunks) new_session
      = Some s2 /\
    visible s1 = visible s2.
Proof.
  intros Htf Hf. destruct chunks as [|c rest].
  - injection Hf as <-. eexists. split; reflexivity.
  - apply feed_merge; [exact Htf | exact Hf].
Qed.

(** The end handler on a buffer of well-formed frames, the tool notices
    first: every frame is handed to its processor, in stream order. *)
Lemma on_end_frames (tools tolys : list string) (st : session) :
  forallb no_tag tools = true -> forallb no_tag tolys = true ->
  rawBuffer st = (frames_text TOOL tools ++ frames_text TOLY tolys)%string ->
  exists E,
    E = set_rawBuffer
          (dispatch (processTolyMessage JSON_parse) tolys
             (dispatch (processToolMessage JSON_parse JSON_stringify) tools st))
          EmptyString /\
    on_end JSON_parse JSON_stringify st =
    Some (subscriber_complete
            (subscriber_next
               (logger E (LogCompleteContent (streamedContent E)))
               (ContentComplete (streamedContent E)))).
Proof.
  intros Ht Hy Hbuf. eexists. split; [reflexivity|].
  unfold on_end, processBufferedData, processMessages.
  rewrite (frames_pass_end TOOL TOOL_tag _
             (processToolMessage_rawBuffer JSON_parse JSON_stringify)
             (processToolMessage_set_rawBuffer JSON_parse JSON_stringify)
             tools (frames_text TOLY tolys) _ st Ht
             (frames_tag_start TOLY tolys TOLY_tag)
             (frames_no_other_tag TOLY TOLY_tag TOOL tolys TOOL_tag
                ltac:(discriminate) Hy)
             Hbuf).
  2:{ rewrite Hbuf, string_length_app.
      pose proof (frames_text_length TOOL TOOL_tag tools). lia. }
  cbn [mbind option_bind].
  rewrite (frames_pass_end TOLY TOLY_tag _
             (processTolyMessage_rawBuffer JSON_parse)
             (processTolyMessage_set_rawBuffer JSON_parse)
             tolys EmptyString _ _ Hy (or_introl eq_refl) eq_refl).
  - cbn [mbind option_bind].
    rewrite (dispatch_set_rawBuffer _
               (processTolyMessage_set_rawBuffer JSON_parse)).
    reflexivity.
  - simpl. now rewrite string_app_nil_r.
  - simpl. pose proof (frames_text_length TOLY TOLY_tag tolys). lia.
Qed.

(** One chunk that carries a whole stream of well-formed frames, the tool
    notices first and all of them accepted: the tool notices that are
    consumed, then the model frames that are consumed, are handed to
    their processors in stream order, and the frames that are left form
    the buffer. *)
Lemma on_data_frames (tools tolys : list string) :
  forallb no_tag tools = true -> forallb no_tag tolys = true ->
  forallb (accepts (processToolMessage JSON_parse JSON_stringify)) tools
    = true ->
  exists s2 tpre tpost ypre ypost,
    on_data JSON_parse JSON_stringify
      (frames_text TOOL tools ++ frames_text TOLY tolys) new_session
      = Some s2 /\
    tools = (tpre ++ tpost)%list /\
    tolys = (ypre ++ ypost)%list /\
    (tpost = [] \/ ypre = []) /\
    rawBuffer s2 = (frames_text TOOL tpost ++ frames_text TOLY ypost)%string /\
    visible (set_rawBuffer s2 EmptyString) =
    visible (set_rawBuffer
               (dispatch (processTolyMessage JSON_parse) ypre
                  (dispatch (processToolMessage JSON_parse JSON_stringify)
                     tpre new_session))
               EmptyString).
Proof.
  intros Ht Hy Hacc. unfold on_data, processBufferedData. cbv zeta.
  set (W := (frames_text TOOL tools ++ frames_text TOLY tolys)%string).
  set (st2 := set_rawBuffer (logger new_session (LogRawChunk W))
                (rawBuffer (logger new_session (LogRawChunk W)) ++ W)).
  assert (rawBuffer st2 = W) as Hbuf by reflexivity.
  assert (visible (set_rawBuffer st2 EmptyString) =
          visible (set_rawBuffer new_session EmptyString)) as Hv2
    by reflexivity.
  destruct (frames_pass_open TOOL TOOL_tag _
              (processToolMessage_rawBuffer JSON_parse JSON_stringify)
              (processToolMessage_set_rawBuffer JSON_parse JSON_stringify)
              (processToolMessage_deferred JSON_parse JSON_stringify)
              processToolMessage_flag processToolMessage_accepts
              tools (frames_text TOLY tolys)
              (S (String.length (rawBuffer st2))) st2 Ht
              (frames_tag_start TOLY tolys TOLY_tag)
              (frames_no_other_tag TOLY TOLY_tag TOOL tolys TOOL_tag
                 ltac:(discriminate) Hy)
              Hbuf)
    as (tpre & tpost & Htools & Hrun & Hall).
  { rewrite Hbuf. unfold W. rewrite string_length_app.
    pose proof (frames_text_length TOOL TOOL_tag tools). lia. }
  change (processMessages_loop (S (String.length (rawBuffer st2))) TOOL
            (processToolMessage JSON_parse JSON_stringify) false st2)
    with (processMessages TOOL (processToolMessage JSON_parse JSON_stringify)
            false st2) in Hrun.
  rewrite Hrun. cbn [mbind option_bind].
  set (A := set_rawBuffer
              (dispatch (processToolMessage JSON_parse JSON_stringify) tpre st2)
              (frames_text TOOL tpost ++ frames_text TOLY tolys)).
  assert (visible (set_rawBuffer A EmptyString) =
          visible (set_rawBuffer
                     (dispatch (processToolMessage JSON_parse JSON_stringify)
                        tpre new_session)
                     EmptyString)) as HvA.
  { apply (dispatch_outputs _
             (processToolMessage_set_rawBuffer JSON_parse JSON_stringify)
             (processToolMessage_visible JSON_parse JSON_stringify)).
    exact Hv2. }
  destruct tolys as [|y ys].
  - exists A, tpre, tpost, [], [].
    rewrite processMessages_no_tag.
    + repeat split; auto.
    + simpl. rewrite string_app_nil_r.
      apply (frames_no_other_tag TOOL TOOL_tag TOLY tpost TOLY_tag);
        [discriminate|].
      rewrite Htools, forallb_app in Ht. now apply andb_prop in Ht as [_ Ht].
  - assert (tpost = []) as ->.
    { apply Hall; [|exact Hacc]. simpl.
      intros Hemp. apply string_app_empty in Hemp as [Hemp _]. discriminate. }
    destruct (frames_pass_open TOLY TOLY_tag _
                (processTolyMessage_rawBuffer JSON_parse)
                (processTolyMessage_set_rawBuffer JSON_parse)
                (processTolyMessage_deferred JSON_parse)
                processTolyMessage_flag processTolyMessage_accepts
                (y :: ys) EmptyString
                (S (String.length (rawBuffer A))) A Hy
                (or_introl eq_refl) eq_refl)
      as (ypre & ypost & Htolys & Hrun' & _).
    { unfold A. cbn [rawBuffer set_rawBuffer].
      change (frames_text TOOL [] ++ frames_text TOLY (y :: ys))%string
        with (frames_text TOLY (y :: ys)).
      now rewrite string_app_nil_r. }
    { unfold A. cbn [rawBuffer set_rawBuffer].
      change (frames_text TOOL [] ++ frames_text TOLY (y :: ys))%string
        with (frames_text TOLY (y :: ys)).
      pose proof (frames_text_length TOLY TOLY_tag (y :: ys)). lia. }
    unfold processMessages. rewrite Hrun'.
    eexists _, tpre, [], ypre, ypost.
    split; [reflexivity|]. split; [exact Htools|]. split; [exact Htolys|].
    split; [now left|]. split.
    + cbn [rawBuffer set_rawBuffer frames_text].
      now rewrite string_app_nil_r.
    + apply (dispatch_outputs _
               (processTolyMessage_set_rawBuffer JSON_parse)
               (processTolyMessage_visible JSON_parse)).
      exact HvA.
Qed.

(** X9.  Functional correctness on well-formed streams. A stream made of
    tool notices followed by model frames, whose bodies contain no tag and
    whose tool notices all decode, is taken apart into exactly these frames,
    however it is cut into chunks: the session ends as if every body had
    been handed to its processor once, the tool notices first and each kind
    in stream order, and the terminal event closes it. A model frame that
    fails to decode delays the frames behind it until end of stream, but
    none is lost and their order is kept. *)
Theorem well_formed_stream_in_order (tools tolys : list string)
    (chunks : list string) :
  whole_stream chunks = (frames_text TOOL tools ++ frames_text TOLY tolys)%string ->
  forallb no_tag tools = true ->
  forallb no_tag tolys = true ->
  forallb (accepts (processToolMessage JSON_parse JSON_stringify)) tools
    = true ->
  exists st,
    run JSON_parse JSON_stringify chunks = Some st /\
    emitted st =
      (emitted (in_order JSON_parse JSON_stringify tools tolys) ++
       [ContentComplete
          (streamedContent (in_order JSON_parse JSON_stringify tools tolys))])%list /\
    streamedContent st =
      streamedContent (in_order JSON_parse JSON_stringify tools tolys) /\
    processedTools st =
      processedTools (in_order JSON_parse JSON_stringify tools tolys) /\
    rawBuffer st = EmptyString /\
    completed st = true.
Proof.
  intros Hw Ht Hy Hacc.
  destruct (run_total JSON_parse JSON_stringify chunks) as [st H].
  exists st. split; [exact H|].
  unfold run in H.
  destruct (feed JSON_parse JSON_stringify chunks new_session) as [s1|] eqn:Hf;
    [|discriminate].
  cbn [mbind option_bind] in H.
  destruct (feed_as_one_chunk chunks s1) as (s2 & Hs2 & Hv);
    [rewrite Hw; now apply frames_tools_first | exact Hf |].
  rewrite Hw in Hs2.
  destruct (on_data_frames tools tolys Ht Hy Hacc)
    as (s2' & tpre & tpost & ypre & ypost & Hod & Htools & Htolys & Hone
        & Hbuf & Hout).
  rewrite Hs2 in Hod. injection Hod as <-.
  assert (forallb no_tag tpost = true) as Htp.
  { rewrite Htools, forallb_app in Ht. now apply andb_prop in Ht as [_ Ht]. }
  assert (forallb no_tag ypost = true) as Hyp.
  { rewrite Htolys, forallb_app in Hy. now apply andb_prop in Hy as [_ Hy]. }
  destruct (on_end_frames tpost ypost s2 Htp Hyp Hbuf) as (E & HE & Hend).
  destruct (on_end_visible JSON_parse JSON_stringify s1 s2 st Hv H)
    as (r2 & Hr2 & Hvst).
  rewrite Hend in Hr2. injection Hr2 as <-.
  assert (visible E =
          visible (set_rawBuffer (in_order JSON_parse JSON_stringify tools tolys)
                     EmptyString)) as HvE.
  { rewrite HE. unfold in_order. rewrite Htools, Htolys, !dispatch_app.
    apply (dispatch_outputs _
             (processTolyMessage_set_rawBuffer JSON_parse)
             (processTolyMessage_visible JSON_parse)).
    destruct Hone as [-> | ->]; cbn [dispatch].
    - exact Hout.
    - cbn [dispatch] in Hout.
      apply (dispatch_outputs _
               (processToolMessage_set_rawBuffer JSON_parse JSON_stringify)
               (processToolMessage_visible JSON_parse JSON_stringify)).
      exact Hout. }
  unfold visible in Hvst, HvE. simpl in Hvst, HvE.
  injection Hvst as -> -> -> -> ->. injection HvE as -> _ -> -> _.
  repeat split; try reflexivity. now rewrite HE.
Qed.

End WellFormed.

(** * Text in front of the first tag *)

Lemma substring_app_r (a b : string) (lo len : nat) :
  String.substring (String.length a + lo) len (a ++ b) = String.substring lo len b.
Proof.
  induction a as [|c a IH]; [reflexivity|]. exact IH.
Qed.

Lemma indexOf_shift (needle g b : string) :
  needle <> EmptyString ->
  (forall k, k < String.length g -> occurs_at needle (g ++ b) k = false) ->
  indexOf (g ++ b) needle 0 =
  option_map (Nat.add (String.length g)) (indexOf b needle 0).
Proof.
  intros Hne Hg. destruct (indexOf b needle 0) as [m|] eqn:Hi; simpl.
  - apply (indexOf_Some _ Hne) in Hi. destruct Hi as (_ & Hocc & Hmin).
    apply (indexOf_Some _ Hne). split; [lia|]. split.
    + now rewrite occurs_at_app_r.
    + intros k _ Hk. destruct (le_lt_dec (String.length g) k) as [Hge|Hlt];
        [|now apply Hg].
      replace k with (String.length g + (k - String.length g)) by lia.
      rewrite occurs_at_app_r. apply Hmin; lia.
  - apply (indexOf_None _ Hne). intros k _.
    destruct (le_lt_dec (String.length g) k) as [Hge|Hlt]; [|now apply Hg].
    replace k with (String.length g + (k - String.length g)) by lia.
    rewrite occurs_at_app_r.
    apply (proj1 (indexOf_None _ Hne _ _) Hi). lia.
Qed.

Lemma findNextMessageStart_shift (g b : string) (m : nat) :
  findNextMessageStart (g ++ b) (String.length g + m) =
  option_map (Nat.add (String.length g)) (findNextMessageStart b m).
Proof.
  destruct (findNextMessageStart b m) as [n|] eqn:Hn; simpl.
  - apply findNextMessageStart_Some in Hn. destruct Hn as (Hle & Htag & Hmin).
    apply findNextMessageStart_Some. split; [lia|]. split.
    + now rewrite tag_at_app_r.
    + intros k Hk1 Hk2.
      replace k with (String.length g + (k - String.length g)) by lia.
      rewrite tag_at_app_r. apply Hmin; lia.
  - rewrite findNextMessageStart_None in Hn.
    apply findNextMessageStart_None. intros k Hk.
    replace k with (String.length g + (k - String.length g)) by lia.
    rewrite tag_at_app_r. apply Hn. lia.
Qed.

Lemma extractMessageContent_shift (g b : string) (m : nat) :
  extractMessageContent (g ++ b) (String.length g + m) =
  ((extractMessageContent b m).1,
   option_map (Nat.add (String.length g)) (extractMessageContent b m).2).
Proof.
  unfold extractMessageContent. rewrite findNextMessageStart_shift.
  destruct (findNextMessageStart b m) as [n|] eqn:Hn; simpl; f_equal.
  - apply findNextMessageStart_Some in Hn. destruct Hn as (Hle & _).
    rewrite !substring_between_slice by lia.
    rewrite <- Nat.add_assoc, substring_app_r. f_equal. lia.
  - unfold substring_from. now rewrite <- Nat.add_assoc, string_drop_app_length.
Qed.

Section LeadingText.

Variable g : string.

Section LeadingLoop.

Variable identifier : string.
Hypothesis identifier_tag : identifier = TOOL \/ identifier = TOLY.
Variable process : processor.

Hypothesis process_rawBuffer :
  forall content e st, rawBuffer (process content e st).2 = rawBuffer st.

Hypothesis process_set_rawBuffer :
  forall content e st b,
    process content e (set_rawBuffer st b) =
    ((process content e st).1, set_rawBuffer (process content e st).2 b).

Hypothesis process_visible :
  forall content e st1 st2,
    visible st1 = visible st2 ->
    (process content e st1).1 = (process content e st2).1 /\
    visible (process content e st1).2 = visible (process content e st2).2.

(** One pass over a buffer with text in front of the first tag: either
    nothing is consumed and the text stays in front, or the first frame that
    is consumed takes the text away with it. *)
Lemma processMessages_behind (future : string) (isEnd : bool)
    (st1 st2 r1 : session) :
  behind g future st1 st2 ->
  processMessages identifier process isEnd st1 = Some r1 ->
  exists r2,
    processMessages identifier process isEnd st2 = Some r2 /\
    (visible r1 = visible r2 \/ behind g future r1 r2).
Proof.
  intros [Hv Hg] H1.
  pose proof (tag_literal_length identifier identifier_tag) as Hlen.
  pose proof (identifier_tag_nonempty identifier identifier_tag) as Hne.
  destruct (processMessages_total identifier Hne process isEnd
              process_rawBuffer st2) as [r2 H2].
  exists r2. split; [exact H2|].
  pose proof (visible_rawBuffer _ _ Hv) as Hb1. simpl in Hb1.
  assert (forall k, k < String.length g ->
                    occurs_at identifier (g ++ rawBuffer st2) k = false) as Hocc.
  { intros k Hk. specialize (Hg k Hk).
    destruct (occurs_at identifier (g ++ rawBuffer st2) k) eqn:Ho;
      [|reflexivity].
    apply (occurs_at_tag_at identifier) in Ho; [|exact identifier_tag].
    apply (tag_at_app _ future) in Ho.
    rewrite string_app_assoc in Ho. congruence. }
  unfold processMessages in H1, H2.
  rewrite processMessages_loop_S in H1, H2.
  rewrite Hb1, (indexOf_shift _ _ _ Hne Hocc) in H1.
  destruct (indexOf (rawBuffer st2) identifier 0) as [m|] eqn:Hi;
    cbn [option_map] in H1.
  2:{ injection H1 as <-. injection H2 as <-. right. now split. }
  rewrite extractMessageContent_shift in H1.
  destruct (extractMessageContent (rawBuffer st2) m) as [content next].
  cbn [fst snd] in H1.
  destruct (process_visible content isEnd _ _ Hv) as [Hp Hpv].
  rewrite process_set_rawBuffer in Hp, Hpv. cbn [fst snd] in Hp, Hpv.
  pose proof (process_rawBuffer content isEnd st1) as Hr1.
  pose proof (process_rawBuffer content isEnd st2) as Hr2.
  destruct (process content isEnd st1) as [p1 s1].
  destruct (process content isEnd st2) as [p2 s2].
  cbn [fst snd] in Hp, Hpv, Hr1, Hr2. subst p2.
  assert (behind g future s1 s2) as Hstay.
  { split; rewrite Hr2; assumption. }
  assert (forall rest fuel1 fuel2,
            processMessages_loop fuel1 identifier process isEnd
              (set_rawBuffer s1 rest) = Some r1 ->
            processMessages_loop fuel2 identifier process isEnd
              (set_rawBuffer s2 rest) = Some r2 ->
            visible r1 = visible r2) as Hcont.
  { intros rest fuel1 fuel2 Ha Hb.
    destruct (processMessages_loop_visible identifier process process_rawBuffer
                process_visible isEnd fuel1
                (set_rawBuffer s1 rest) (set_rawBuffer s2 rest) r1)
      as (r2' & Hr2' & Hvr); [| exact Ha |].
    - apply (visible_set_rawBuffer _ _ rest) in Hpv. exact Hpv.
    - now rewrite (processMessages_loop_unique identifier Hlen process isEnd
                     _ _ _ _ _ Hb Hr2'). }
  destruct next as [n|]; cbn [option_map] in H1.
  - cbv beta iota zeta in H1, H2.
    assert (substring_from (rawBuffer s1) (String.length g + n) =
            substring_from (rawBuffer s2) n) as Hrest.
    { unfold substring_from.
      now rewrite Hr1, Hb1, Hr2, string_drop_app_length. }
    rewrite Hrest in H1.
    destruct p1; [left; exact (Hcont _ _ _ H1 H2)|].
    destruct isEnd; cbn [negb] in H1, H2; cbv iota in H1, H2.
    + left. exact (Hcont _ _ _ H1 H2).
    + injection H1 as <-. injection H2 as <-. right. exact Hstay.
  - destruct isEnd; cbn [negb] in H1, H2; cbv beta iota zeta in H1, H2.
    + left. destruct p1; exact (Hcont _ _ _ H1 H2).
    + injection H1 as <-. injection H2 as <-. right. now split.
Qed.

End LeadingLoop.

Variable JSON_parse : string -> option jsval.
Variable JSON_stringify : jsval -> string.

Lemma processBufferedData_behind (future : string) (isEnd : bool)
    (st1 st2 r1 : session) :
  behind g future st1 st2 ->
  processBufferedData JSON_parse JSON_stringify isEnd st1 = Some r1 ->
  exists r2,
    processBufferedData JSON_parse JSON_stringify isEnd st2 = Some r2 /\
    (visible r1 = visible r2 \/ behind g future r1 r2).
Proof.
  intros Hb H. unfold processBufferedData in *.
  destruct (processMessages TOOL _ isEnd st1) as [m1|] eqn:H1; [|discriminate].
  cbn [mbind option_bind] in H.
  destruct (processMessages_behind TOOL (or_introl eq_refl) _
              (processToolMessage_rawBuffer JSON_parse JSON_stringify)
              (processToolMessage_set_rawBuffer JSON_parse JSON_stringify)
              (processToolMessage_visible JSON_parse JSON_stringify)
              future isEnd st1 st2 m1 Hb H1) as (m2 & H2 & [Hv | Hb']);
    rewrite H2; cbn [mbind option_bind].
  - destruct (processMessages_visible TOLY _
                (processTolyMessage_rawBuffer JSON_parse)
                (processTolyMessage_visible JSON_parse)
                isEnd m1 m2 r1 Hv H) as (r2 & Hr2 & Hvr).
    exists r2. auto.
  - destruct (processMessages_behind TOLY (or_intror eq_refl) _
                (processTolyMessage_rawBuffer JSON_parse)
                (processTolyMessage_set_rawBuffer JSON_parse)
                (processTolyMessage_visible JSON_parse)
                future isEnd m1 m2 r1 Hb' H) as (r2 & Hr2 & Hr).
    exists r2. auto.
Qed.

Lemma on_data_behind (text future : string) (st1 st2 r1 : session) :
  behind g (text ++ future) st1 st2 ->
  on_data JSON_parse JSON_stringify text st1 = Some r1 ->
  exists r2,
    on_data JSON_parse JSON_stringify text st2 = Some r2 /\
    (visible r1 = visible r2 \/ behind g future r1 r2).
Proof.
  intros [Hv Hg]. unfold on_data. apply processBufferedData_behind.
  split.
  - unfold visible in *. simpl in *. injection Hv as -> -> -> -> ->.
    now rewrite string_app_assoc.
  - intros k Hk. simpl. rewrite string_app_assoc. now apply Hg.
Qed.

Lemma feed_behind (chunks : list string) (st1 st2 r1 : session) :
  visible st1 = visible st2 \/ behind g (whole_stream chunks) st1 st2 ->
  feed JSON_parse JSON_stringify chunks st1 = Some r1 ->
  exists r2,
    feed JSON_parse JSON_stringify chunks st2 = Some r2 /\
    (visible r1 = visible r2 \/ behind g EmptyString r1 r2).
Proof.
  revert st1 st2. induction chunks as [|text rest IH]; intros st1 st2 HR H.
  - injection H as <-. exists st2. split; [reflexivity | exact HR].
  - simpl in H.
    destruct (on_data JSON_parse JSON_stringify text st1) as [m1|] eqn:H1;
      [|discriminate].
    cbn [mbind option_bind] in H.
    assert (exists m2,
              on_data JSON_parse JSON_stringify text st2 = Some m2 /\
              (visible m1 = visible m2 \/ behind g (whole_stream rest) m1 m2))
      as (m2 & H2 & HR').
    { destruct HR as [Hv | Hb].
      - destruct (on_data_visible JSON_parse JSON_stringify text st1 st2 m1 Hv H1)
          as (m2 & H2 & Hv').
        exists m2. auto.
      - apply (on_data_behind text (whole_stream rest) st1 st2 m1 Hb H1). }
    destruct (IH m1 m2 HR' H) as (r2 & Hr2 & HRr).
    exists r2. split; [|exact HRr].
    simpl. now rewrite H2.
Qed.

Lemma on_end_behind (st1 st2 r1 : session) :
  visible st1 = visible st2 \/ behind g EmptyString st1 st2 ->
  on_end JSON_parse JSON_stringify st1 = Some r1 ->
  exists r2,
    on_end JSON_parse JSON_stringify st2 = Some r2 /\
    emitted r1 = emitted r2 /\
    streamedContent r1 = streamedContent r2 /\
    processedTools r1 = processedTools r2.
Proof.
  intros HR H. unfold on_end in *.
  destruct (processBufferedData JSON_parse JSON_stringify true st1)
    as [m1|] eqn:H1; [|discriminate].
  cbn [mbind option_bind] in H. injection H as <-.
  assert (exists m2,
            processBufferedData JSON_parse JSON_stringify true st2 = Some m2 /\
            emitted m1 = emitted m2 /\
            streamedContent m1 = streamedContent m2 /\
            processedTools m1 = processedTools m2) as (m2 & H2 & He & Hs & Hp).
  { assert (exists m2,
              processBufferedData JSON_parse JSON_stringify true st2 = Some m2 /\
              (visible m1 = visible m2 \/ behind g EmptyString m1 m2))
      as (m2 & H2 & [Hv | [Hv _]]).
    { destruct HR as [Hv | Hb].
      - destruct (processBufferedData_visible JSON_parse JSON_stringify true
                    st1 st2 m1 Hv H1) as (m2 & H2 & Hv').
        exists m2. auto.
      - apply (processBufferedData_behind EmptyString true st1 st2 m1 Hb H1). }
    - exists m2. split; [exact H2|].
      unfold visible in Hv. injection Hv as -> _ -> -> _. auto.
    - exists m2. split; [exact H2|].
      unfold visible in Hv. simpl in Hv. injection Hv as -> _ -> -> _. auto. }
  rewrite H2. cbn [mbind option_bind]. eexists. split; [reflexivity|].
  simpl. now rewrite He, Hs, Hp.
Qed.

(** X10.  Text that arrives in front of the first tag has no effect on what
    the session emits: a stream with such a first chunk, and the stream
    without it, produce the same events, the same transcript and the same
    set of processed tools. The text is never reported; it is dropped with
    the first frame that is consumed. *)
Theorem leading_text_ignored (chunks : list string) :
  (forall k, k < String.length g ->
             tag_at (g ++ whole_stream chunks) k = false) ->
  exists st1 st2,
    run JSON_parse JSON_stringify (g :: chunks) = Some st1 /\
    run JSON_parse JSON_stringify chunks = Some st2 /\
    emitted st1 = emitted st2 /\
    streamedContent st1 = streamedContent st2 /\
    processedTools st1 = processedTools st2.
Proof.
  intros Hg.
  destruct (run_total JSON_parse JSON_stringify (g :: chunks)) as [st1 H1].
  exists st1. unfold run in *.
  destruct (feed JSON_parse JSON_stringify (g :: chunks) new_session)
    as [r1|] eqn:Hf; [|discriminate].
  cbn [mbind option_bind] in H1.
  assert (forall identifier,
            identifier = TOOL \/ identifier = TOLY ->
            indexOf g identifier 0 = None) as Hnone.
  { intros identifier Hid.
    apply (indexOf_None _ (identifier_tag_nonempty identifier Hid)).
    intros k _.
    destruct (occurs_at identifier g k) eqn:Ho; [|reflexivity].
    pose proof (occurs_at_bound _ _ _ Ho) as [Hb | Hb];
      [|now apply identifier_tag_nonempty in Hb].
    rewrite (tag_literal_length identifier Hid) in Hb.
    unfold IDENTIFIER_LENGTH in Hb.
    apply (occurs_at_tag_at identifier) in Ho; [|exact Hid].
    apply (tag_at_app _ (whole_stream chunks)) in Ho.
    rewrite Hg in Ho by lia. discriminate. }
  simpl in Hf. unfold on_data at 1, processBufferedData in Hf.
  rewrite processMessages_no_tag in Hf by (apply Hnone; now left).
  cbn [mbind option_bind] in Hf.
  rewrite processMessages_no_tag in Hf by (apply Hnone; now right).
  cbn [mbind option_bind] in Hf.
  destruct (feed_behind chunks
              (set_rawBuffer (logger new_session (LogRawChunk g))
                 (rawBuffer (logger new_session (LogRawChunk g)) ++ g))
              new_session r1) as (r2 & Hr2 & HR);
    [| exact Hf |].
  { right. split; [|exact Hg]. unfold visible. simpl.
    now rewrite string_app_nil_r. }
  destruct (on_end_behind r1 r2 st1 HR H1) as (st2 & H2 & He & Hs & Hp).
  exists st2. rewrite Hr2. cbn [mbind option_bind]. auto.
Qed.

End LeadingText.

(** * The mock stream *)

Lemma split_space_nonempty (s : string) : split_space s <> [].
Proof.
  destruct s as [|c s]; [discriminate|].
  simpl. destruct (Ascii.eqb c " "); [discriminate|].
  destruct (split_space s); discriminate.
Qed.

(** The words, each followed by a space, spell the text followed by a
    space. *)
Lemma split_space_rejoin (s : string) :
  whole_stream (map (fun w => w ++ " ")%string (split_space s)) = (s ++ " ")%string.
Proof.
  induction s as [|c s IH]; [reflexivity|].
  simpl. destruct (Ascii.eqb_spec c " ") as [-> | Hc].
  - change (String " " (whole_stream (map (fun w => w ++ " ")%string
                                        (split_space s)))
            = String " " (s ++ " ")).
    now rewrite IH.
  - destruct (split_space s) as [|w ws] eqn:Hs;
      [now apply split_space_nonempty in Hs|].
    simpl in *.
    change (String c ((w ++ " ") ++ whole_stream (map (fun w => w ++ " ")%string ws))
            = String c (s ++ " "))%string.
    f_equal. exact IH.
Qed.

Lemma firstn_S_nth {A : Type} (l : list A) (i : nat) (d : A) :
  i < length l -> firstn (S i) l = (firstn i l ++ [nth i l d])%list.
Proof.
  revert i. induction l as [|x l IH]; intros i Hi; [simpl in Hi; lia|].
  destruct i as [|i]; [reflexivity|].
  simpl in Hi. change (x :: firstn (S i) l = x :: (firstn i l ++ [nth i l d])%list).
  f_equal. apply IH. lia.
Qed.

Lemma ticks_cleared (n : nat) (st : mock_stream) :
  interval st = false -> ticks n st = st.
Proof.
  intros H. induction n as [|n IH]; [reflexivity|].
  simpl. unfold interval_tick. now rewrite H.
Qed.

(** The timer sends one word per period and completes the subscriber in
    the period after the last word; then it is cleared. *)
Lemma ticks_from (ws : list string) (i n : nat) :
  i <= length ws ->
  ticks n {| words := ws; currentIndex := i;
             sent := map (fun w => w ++ " ")%string (firstn i ws);
             finished := false; interval := true |} =
  if (i + n <=? length ws)%nat then
    {| words := ws; currentIndex := i + n;
       sent := map (fun w => w ++ " ")%string (firstn (i + n) ws);
       finished := false; interval := true |}
  else
    {| words := ws; currentIndex := length ws;
       sent := map (fun w => w ++ " ")%string ws;
       finished := true; interval := false |}.
Proof.
  revert i. induction n as [|n IH]; intros i Hi.
  - rewrite Nat.add_0_r. simpl.
    destruct (Nat.leb_spec i (length ws)); [reflexivity | lia].
  - simpl. unfold interval_tick. simpl.
    destruct (Nat.ltb_spec i (length ws)) as [Hlt | Hge].
    + rewrite <- (map_last (fun w => w ++ " ")%string).
      rewrite <- (firstn_S_nth ws i EmptyString Hlt).
      rewrite IH by lia. now replace (S i + n) with (i + S n) by lia.
    + assert (i = length ws) as -> by lia.
      rewrite firstn_all, ticks_cleared by reflexivity.
      destruct (Nat.leb_spec (length ws + S n) (length ws)); [lia | reflexivity].
Qed.

Lemma toLowerCase_fixed (s : string) :
  toLowerCase (toLowerCase s) = toLowerCase s.
Proof.
  induction s as [|c s IH]; [reflexivity|].
  simpl. rewrite IH. f_equal.
  unfold to_lower_char.
  destruct ((65 <=? nat_of_ascii c) && (nat_of_ascii c <=? 90))%nat eqn:Hc.
  - apply andb_prop in Hc as [H1 H2].
    apply Nat.leb_le in H1, H2.
    rewrite nat_ascii_embedding by lia.
    destruct (Nat.leb_spec 65 (nat_of_ascii c + 32)),
             (Nat.leb_spec (nat_of_ascii c + 32) 90); simpl; try reflexivity.
    lia.
  - now rewrite Hc.
Qed.

(** A member of [Object.prototype] whose name is in lower case. *)
Lemma inherited_lower_case (key : string) :
  toLowerCase key = key ->
  existsb (String.eqb key) Object_prototype = true ->
  key = "constructor" \/ key = "__proto__".
Proof.
  intros Hlow H. apply existsb_exists in H as (name & Hin & Heq).
  apply String.eqb_eq in Heq. subst name.
  simpl in Hin.
  repeat (destruct Hin as [<- | Hin]; [first [now left | now right
                                             | discriminate Hlow]|]).
  contradiction.
Qed.

Lemma read_member_cases (key : string) :
  (exists response,
     In response (map snd mockResponses) /\ read_member key = MText response) \/
  (own_text key mockResponses = None /\
   existsb (String.eqb key) Object_prototype = true /\
   read_member key = MInherited) \/
  (own_text key mockResponses = None /\
   existsb (String.eqb key) Object_prototype = false /\
   read_member key = MUndefined).
Proof.
  unfold read_member.
  destruct (own_text key mockResponses) as [response|] eqn:Hown.
  - left. exists response. split; [|reflexivity].
    revert Hown. unfold mockResponses. cbn [own_text map snd].
    repeat (destruct (String.eqb _ key);
            [intros [= <-]; cbn [In]; tauto|]).
    discriminate.
  - right. destruct (existsb (String.eqb key) Object_prototype); auto.
Qed.

Lemma own_texts_truthy (response : string) :
  In response (map snd mockResponses) -> member_truthy (MText response) = true.
Proof.
  simpl. intros H.
  repeat (destruct H as [<- | H]; [reflexivity|]). contradiction.
Qed.

(** X11.  Every subscription that starts streams one of the four canned
    texts: word by word, one timer period per word, each word followed by a
    space, so that what the subscriber has received when it is completed
    spells the text followed by a space; completion comes in the period
    after the last word and clears the timer. *)
Theorem mock_stream_delivers (question : string) (st : mock_stream) :
  getMockStreamingResponse question = Normal st ->
  exists response,
    In response (map snd mockResponses) /\
    words st = split_space response /\
    (forall n, n <= length (words st) ->
       sent (ticks n st) = map (fun w => w ++ " ")%string (firstn n (words st)) /\
       finished (ticks n st) = false /\
       interval (ticks n st) = true) /\
    (forall n, length (words st) < n ->
       whole_stream (sent (ticks n st)) = (response ++ " ")%string /\
       length (sent (ticks n st)) = length (words st) /\
       finished (ticks n st) = true /\
       interval (ticks n st) = false).
Proof.
  unfold getMockStreamingResponse, cbind. intros H.
  assert (exists response,
            In response (map snd mockResponses) /\
            or_else (read_member (toLowerCase question)) (read_member "default")
            = MText response) as (response & Hin & Hr).
  { destruct (read_member_cases (toLowerCase question))
      as [(r & Hin & ->) | [(_ & _ & Hm) | (_ & _ & ->)]].
    - exists r. split; [exact Hin|]. unfold or_else.
      now rewrite own_texts_truthy.
    - rewrite Hm in H. discriminate.
    - eexists. split; [|reflexivity]. simpl. tauto. }
  rewrite Hr in H. simpl in H. injection H as <-.
  exists response. split; [exact Hin|]. split; [reflexivity|].
  cbn [words]. split; intros n Hn.
  - pose proof (ticks_from (split_space response) 0 n (Nat.le_0_l _)) as Ht.
    change (map (fun w => w ++ " ")%string (firstn 0 (split_space response)))
      with (@nil string) in Ht.
    change (0 + n) with n in Ht. rewrite Ht.
    destruct (Nat.leb_spec n (length (split_space response))); [auto | lia].
  - pose proof (ticks_from (split_space response) 0 n (Nat.le_0_l _)) as Ht.
    change (map (fun w => w ++ " ")%string (firstn 0 (split_space response)))
      with (@nil string) in Ht.
    change (0 + n) with n in Ht. rewrite Ht.
    destruct (Nat.leb_spec n (length (split_space response))); [lia|].
    cbn [sent finished interval].
    rewrite split_space_rejoin, length_map. auto.
Qed.

(** X12.  The question selects the text without regard to the case of its
    letters, and a question that names none of the four texts gets the
    default text. Two questions cannot be answered at all: the property read
    finds [constructor] and [__proto__] on the prototype of the object
    literal, the value is not a string, and the call of [split] throws. *)
Theorem mock_stream_lookup (question : string) :
  getMockStreamingResponse question =
    getMockStreamingResponse (toLowerCase question) /\
  (getMockStreamingResponse question = Throw TypeError <->
   toLowerCase question = "constructor" \/
   toLowerCase question = "__proto__") /\
  (own_text (toLowerCase question) mockResponses = None ->
   toLowerCase question <> "constructor" ->
   toLowerCase question <> "__proto__" ->
   getMockStreamingResponse question = getMockStreamingResponse "default").
Proof.
  split; [|split].
  - unfold getMockStreamingResponse. now rewrite toLowerCase_fixed.
  - unfold getMockStreamingResponse, cbind. split.
    + intros H.
      destruct (read_member_cases (toLowerCase question))
        as [(r & Hin & Hm) | [(_ & Hex & _) | (_ & _ & Hm)]].
      * rewrite Hm in H. unfold or_else in H.
        rewrite own_texts_truthy in H by exact Hin. discriminate.
      * apply inherited_lower_case; [apply toLowerCase_fixed | exact Hex].
      * rewrite Hm in H. discriminate.
    + intros [-> | ->]; reflexivity.
  - intros Hown H1 H2. unfold getMockStreamingResponse.
    destruct (read_member_cases (toLowerCase question))
      as [(r & _ & Hm) | [(_ & Hex & _) | (_ & _ & ->)]].
    + unfold read_member in Hm. rewrite Hown in Hm.
      destruct (existsb _ _); discriminate.
    + destruct (inherited_lower_case _ (toLowerCase_fixed question) Hex);
        contradiction.
    + reflexivity.
Qed.

Lemma mock_stream_delivers_witness :
  exists response,
    In response (map snd mockResponses) /\
    ["Hello! "; "How "; "can "; "I "; "assist "; "you "; "today? "]
      = map (fun w => w ++ " ")%string (split_space response) /\
    whole_stream ["Hello! "; "How "; "can "; "I "; "assist "; "you "; "today? "]
      = (response ++ " ")%string.
Proof.
  destruct (mock_stream_delivers "Greeting"
              {| words := ["Hello!"; "How"; "can"; "I"; "assist"; "you"; "today?"];
                 currentIndex := 0; sent := []; finished := false;
                 interval := true |} eq_refl)
    as (response & Hin & Hwords & _ & Hdone).
  exists response. split; [exact Hin|]. simpl in Hwords. split.
  - now rewrite <- Hwords.
  - exact (proj1 (Hdone 8 ltac:(simpl; lia))).
Defined.

(** * The frames of a buffer *)







Section FramesOf.

Variable identifier : string.
Hypothesis identifier_tag : identifier = TOOL \/ identifier = TOLY.




End FramesOf.

Section Resolve.

Variable identifier : string.
Hypothesis identifier_tag : identifier = TOOL \/ identifier = TOLY.
Variable process : processor.

Hypothesis process_rawBuffer :
  forall content e st, rawBuffer (process content e st).2 = rawBuffer st.

Hypothesis process_set_rawBuffer :
  forall content e st b,
    process content e (set_rawBuffer st b) =
    ((process content e st).1, set_rawBuffer (process content e st).2 b).

Hypothesis process_deferred :
  forall content st st',
    process content false st = (false, st') -> st' = st.

Hypothesis process_flag :
  forall content st,
    (process content false st).1 = true ->
    process content true st = process content false st.

Hypothesis process_accepts :
  forall content st, (process content false st).1 = accepts process content.


End Resolve.

(** * Tool events before text deltas *)

Section Priority.

Variable JSON_parse : string -> option jsval.
Variable JSON_stringify : jsval -> string.






End Priority.



(** * A truncated trailing frame *)



Section Trailing.

Variable identifier : string.
Hypothesis identifier_tag : identifier = TOOL \/ identifier = TOLY.
Variable process : processor.

Hypothesis process_rawBuffer :
  forall content e st, rawBuffer (process content e st).2 = rawBuffer st.

Variable P : session -> Prop.
Hypothesis P_set_rawBuffer : forall st b, P st -> P (set_rawBuffer st b).
Hypothesis P_process : forall content st, P st -> P (process content true st).2.




End Trailing.

Section CutAtTag.

Variable identifier : string.
Variable process : processor.

Hypothesis process_rawBuffer :
  forall content e st, rawBuffer (process content e st).2 = rawBuffer st.


End CutAtTag.

Section TrailingFrame.

Variable JSON_parse : string -> option jsval.
Variable JSON_stringify : jsval -> string.












End TrailingFrame.


(** * The session theorems on concrete streams *)

Lemma outputs_append_only_witness :
  exists evs,
    [ContentDelta "Hi"] = (emitted new_session ++ evs)%list /\
    "Hi" = (streamedContent new_session ++ delta_text evs)%string /\
    forallb (fun e => negb (is_complete e)) evs = true /\
    processedTools new_session ⊆ (∅ : gset string).
Proof.
  exact (outputs_append_only MiniJSON.parse MiniJSON.stringify
           [(TOLY ++ model_body "Hi" ++ TOLY)%string] new_session
           {| streamedContent := "Hi";
              rawBuffer := TOLY;
              processedTools := ∅;
              emitted := [ContentDelta "Hi"];
              logged := [LogRawChunk (TOLY ++ model_body "Hi" ++ TOLY)];
              completed := false |}
           eq_refl).
Defined.

Lemma silent_before_end_witness :
  [LogRawChunk (json "Tool :{"); LogRawChunk TOOL] =
    (logged new_session ++ map LogRawChunk [json "Tool :{"; TOOL])%list /\
  false = completed new_session.
Proof.
  exact (silent_before_end MiniJSON.parse MiniJSON.stringify
           [json "Tool :{"; TOOL] new_session
           {| streamedContent := EmptyString;
              rawBuffer := json "Tool :{Tool :";
              processedTools := ∅;
              emitted := [];
              logged := [LogRawChunk (json "Tool :{"); LogRawChunk TOOL];
              completed := false |}
           eq_refl).
Defined.

Lemma untagged_stream_is_kept_witness :
  exists st,
    run MiniJSON.parse MiniJSON.stringify ["Tool"; ": {}"] = Some st /\
    emitted st = [ContentComplete EmptyString] /\
    rawBuffer st = whole_stream ["Tool"; ": {}"] /\
    processedTools st = ∅.
Proof.
  exact (untagged_stream_is_kept MiniJSON.parse MiniJSON.stringify
           ["Tool"; ": {}"] eq_refl eq_refl).
Defined.

Lemma well_formed_stream_in_order_witness :
  exists st,
    run MiniJSON.parse MiniJSON.stringify example_chunks = Some st /\
    emitted st =
      (emitted (in_order MiniJSON.parse MiniJSON.stringify
                  [tool_body] [model_body "Hi"]) ++
       [ContentComplete
          (streamedContent (in_order MiniJSON.parse MiniJSON.stringify
                              [tool_body] [model_body "Hi"]))])%list /\
    streamedContent st =
      streamedContent (in_order MiniJSON.parse MiniJSON.stringify
                         [tool_body] [model_body "Hi"]) /\
    processedTools st =
      processedTools (in_order MiniJSON.parse MiniJSON.stringify
                        [tool_body] [model_body "Hi"]) /\
    rawBuffer st = EmptyString /\
    completed st = true.
Proof.
  exact (well_formed_stream_in_order MiniJSON.parse MiniJSON.stringify
           [tool_body] [model_body "Hi"] example_chunks
           eq_refl eq_refl eq_refl eq_refl).
Defined.

Lemma leading_text_ignored_witness :
  exists st1 st2,
    run MiniJSON.parse MiniJSON.stringify (": ping" :: example_chunks)
      = Some st1 /\
    run MiniJSON.parse MiniJSON.stringify example_chunks = Some st2 /\
    emitted st1 = emitted st2 /\
    streamedContent st1 = streamedContent st2 /\
    processedTools st1 = processedTools st2.
Proof.
  apply (leading_text_ignored ": ping" MiniJSON.parse MiniJSON.stringify
           example_chunks).
  intros k Hk.
  do 6 (destruct k as [|k]; [vm_compute; reflexivity|]).
  simpl in Hk. lia.
Defined.

Lemma mock_stream_lookup_witness :
  getMockStreamingResponse "Constructor" = Throw TypeError /\
  getMockStreamingResponse "What is Solana?" = getMockStreamingResponse "default".
Proof.
  split.
  - exact (proj2 (proj1 (proj2 (mock_stream_lookup "Constructor")))
             (or_introl eq_refl)).
  - apply (proj2 (proj2 (mock_stream_lookup "What is Solana?")));
      [reflexivity | discriminate | discriminate].
Defined.
